(** * vanilla-js-audio-player: options reconciliation and event notification

    A shallow embedding of [src/audio-player.js] (and of the functions of the
    second, unnamed variant of the same module that differ from it) together
    with the properties of its options model and player controller.

    Layout:
    - [JS]: the fragment of the language the player relies on: IEEE-754
      doubles, [Number(...)], [Boolean(...)], [typeof],
      [String.prototype.trim], [Math.min]/[Math.max]/[Math.floor]/[Math.round],
      [toFixed], number-to-string conversion.
    - [AudioPlayer]: [src/audio-player.js].
    - [Part000]: the functions of [unnamed/part_000] that differ. *)

From Stdlib Require Import ZArith Lia Bool List Ascii String.
From Stdlib Require Import Floats.SpecFloat.
From stdpp Require Import base option list strings gmap fin_maps.
Import ListNotations.

Local Open Scope string_scope.
Local Open Scope Z_scope.

(* ===================================================================== *)
(** * The JavaScript fragment *)
(* ===================================================================== *)

Module JS.

(** ** Numbers

    A JavaScript Number is an IEEE-754 binary64 value.  [spec_float] is the
    inductive specification of such values (sign, mantissa, exponent); the
    arithmetic below is the library's correctly rounded arithmetic at
    precision 53 and maximal exponent 1024. *)

Definition float64 : Type := spec_float.

Definition prec : Z := 53.
Definition emax : Z := 1024.

Definition NaN : float64 := S754_nan.
Definition Infinity : float64 := S754_infinity false.
Definition pzero : float64 := S754_zero false.
Definition nzero : float64 := S754_zero true.

Definition fadd (x y : float64) : float64 := SFadd prec emax x y.
Definition fsub (x y : float64) : float64 := SFsub prec emax x y.
Definition fmul (x y : float64) : float64 := SFmul prec emax x y.
Definition fdiv (x y : float64) : float64 := SFdiv prec emax x y.
Definition fneg (x : float64) : float64 := SFopp x.

(** [x < y], [x <= y], [x > y] and [x === y] on Numbers (any comparison with
    NaN is false, and the two zeros are equal). *)
Definition flt (x y : float64) : bool := SFltb x y.
Definition fle (x y : float64) : bool := SFleb x y.
Definition fgt (x y : float64) : bool := SFltb y x.
Definition feq (x y : float64) : bool := SFeqb x y.

(** The double nearest to the integer [z] ([szero] is the sign of a zero). *)
Definition of_Z (z : Z) : float64 := binary_normalize prec emax z 0 false.

(** [Number.isFinite] on a Number. *)
Definition isFinite (x : float64) : bool :=
  match x with
  | S754_zero _ | S754_finite _ _ _ => true
  | S754_infinity _ | S754_nan => false
  end.

Definition isNaN (x : float64) : bool :=
  match x with S754_nan => true | _ => false end.

(** Sign bit of a non-NaN value. *)
Definition sign_bit (x : float64) : bool :=
  match x with
  | S754_zero s | S754_infinity s | S754_finite s _ _ => s
  | S754_nan => false
  end.

(** [Math.max(a, b)] and [Math.min(a, b)] on two Numbers: NaN if either is
    NaN; [+0] is larger than [-0]. *)
Definition Math_max (a b : float64) : float64 :=
  match a, b with
  | S754_nan, _ | _, S754_nan => S754_nan
  | S754_zero sa, S754_zero sb => S754_zero (sa && sb)
  | _, _ => if flt a b then b else a
  end.

Definition Math_min (a b : float64) : float64 :=
  match a, b with
  | S754_nan, _ | _, S754_nan => S754_nan
  | S754_zero sa, S754_zero sb => S754_zero (sa || sb)
  | _, _ => if flt b a then b else a
  end.

(** ** Exact integer parts

    A finite non-zero double is [(-1)^s * m * 2^e].  The functions below
    compute with that exact value over [Z]. *)

(** [Math.floor]. *)
Definition Math_floor (x : float64) : float64 :=
  match x with
  | S754_finite s m e =>
      if 0 <=? e then x
      else
        let q := Z.shiftl (Z.pos m) e in              (* floor of |x| *)
        let exact := Z.shiftl q (- e) =? Z.pos m in
        of_Z (if s then (if exact then - q else - q - 1) else q)
  | _ => x
  end.

(** [Math.round]: the nearest integer, a tie going towards +Infinity; a
    result of zero keeps the sign of the argument. *)
Definition Math_round (x : float64) : float64 :=
  match x with
  | S754_finite s m e =>
      if 0 <=? e then x
      else
        let sm := if s then Z.neg m else Z.pos m in
        let n := (2 * sm + 2 ^ (- e)) / 2 ^ (- e + 1) in
        if n =? 0 then S754_zero s else of_Z n
  | _ => x
  end.

(** [n % d] (the sign of the result is the sign of the dividend). *)
Definition frem (n d : float64) : float64 :=
  match n, d with
  | S754_nan, _ | _, S754_nan => S754_nan
  | S754_infinity _, _ => S754_nan
  | _, S754_zero _ => S754_nan
  | _, S754_infinity _ => n
  | S754_zero _, _ => n
  | S754_finite sn mn en, S754_finite _ md ed =>
      let e0 := Z.min en ed in
      let N := Z.shiftl (Z.pos mn) (en - e0) in
      let D := Z.shiftl (Z.pos md) (ed - e0) in
      let R := N mod D in
      if R =? 0 then S754_zero sn
      else binary_normalize prec emax (if sn then - R else R) e0 false
  end.

(** ** Strings

    A string is a sequence of code units; the model keeps the code units
    below 256 (the [ascii] characters of [string]). *)

(** White space and line terminators among those code units: TAB, LF, VT,
    FF, CR, SPACE and NBSP. *)
Definition is_space (c : ascii) : bool :=
  let n := N_of_ascii c in
  ((9 <=? n) && (n <=? 13) || (n =? 32) || (n =? 160))%N.

Fixpoint trimStart (s : string) : string :=
  match s with
  | String c r => if is_space c then trimStart r else s
  | EmptyString => EmptyString
  end.

(** [trimEnd] drops a character when it is white space and everything
    after it has been dropped. *)
Fixpoint trimEnd (s : string) : string :=
  match s with
  | String c r =>
      match trimEnd r with
      | EmptyString => if is_space c then EmptyString else String c EmptyString
      | r' => String c r'
      end
  | EmptyString => EmptyString
  end.

(** [String.prototype.trim]. *)
Definition trim (s : string) : string := trimEnd (trimStart s).

Definition string_eqb (a b : string) : bool := String.eqb a b.

Fixpoint repeat_char (c : ascii) (n : nat) : string :=
  match n with
  | O => EmptyString
  | S n' => String c (repeat_char c n')
  end.

(** [s.padStart(n, "0")]. *)
Definition padStart0 (n : nat) (s : string) : string :=
  repeat_char "0"%char (n - String.length s) ++ s.

(** Decimal digits of a natural number, without leading zeros ("0" for 0). *)
Definition digit_char (d : Z) : ascii := ascii_of_N (48 + Z.to_N d).

Fixpoint digits_fuel (fuel : nat) (n : Z) (acc : string) : string :=
  match fuel with
  | O => acc
  | S fuel' =>
      let acc' := String (digit_char (n mod 10)) acc in
      if n <? 10 then acc' else digits_fuel fuel' (n / 10) acc'
  end.

Definition digits (n : Z) : string :=
  digits_fuel (S (Z.to_nat (Z.log2 n))) n EmptyString.

Definition digits10 (n : Z) : Z := Z.of_nat (String.length (digits n)).

(** ** Number to string *)

(** Comparison of the exact values [a * 2^ea] and [s * 10^p] (with [a] and
    [s] non-negative integers), by cross-multiplication. *)
Definition cmp_bin_dec (a ea s p : Z) : comparison :=
  (a * 2 ^ Z.max 0 ea * 10 ^ Z.max 0 (- p))
  ?= (s * 10 ^ Z.max 0 p * 2 ^ Z.max 0 (- ea)).

(** Whether the decimal [s * 10^p] rounds to the double [m * 2^e] (round to
    nearest, ties to even): it lies between the midpoints with the two
    neighbouring doubles.  Values are counted in units of [2^(e-2)]. *)
Definition rounds_to (m : positive) (e : Z) (s p : Z) : bool :=
  let boundary := (Z.pos m =? 2 ^ (prec - 1)) && (3 - emax - prec <? e) in
  let lo := 4 * Z.pos m - (if boundary then 1 else 2) in
  let hi := 4 * Z.pos m + 2 in
  let even := Z.even (Z.pos m) in
  match cmp_bin_dec lo (e - 2) s p with Lt => true | Eq => even | Gt => false end
  && match cmp_bin_dec hi (e - 2) s p with Gt => true | Eq => even | Lt => false end.

(** The decimal magnitude [n] of [x = m * 2^e]: [10^(n-1) <= x < 10^n]. *)
Definition mag10 (m : positive) (e : Z) : Z :=
  if 0 <=? e then digits10 (Z.pos m * 2 ^ e)
  else
    let D := 2 ^ (- e) in
    if D <=? Z.pos m then digits10 (Z.pos m / D)
    else
      let j := digits10 D - digits10 (Z.pos m) in
      if D <=? Z.pos m * 10 ^ j then 1 - j else - j.

(** The shortest decimal [s * 10^p] that rounds to [m * 2^e], trying
    [k = 1, 2, ...] significant digits; of two candidates the closer one
    (the even one on a tie).  Seventeen digits always suffice for a double. *)
Fixpoint shortest (fuel : nat) (m : positive) (e n k : Z) : Z * Z :=
  let p := n - k in
  let s0 := (Z.pos m * 2 ^ Z.max 0 e * 10 ^ Z.max 0 (- p))
            / (2 ^ Z.max 0 (- e) * 10 ^ Z.max 0 p) in
  let s1 := s0 + 1 in
  match fuel with
  | O => (s0, p)
  | S fuel' =>
      match rounds_to m e s0 p, rounds_to m e s1 p with
      | true, true =>
          match cmp_bin_dec (2 * Z.pos m) e (2 * s0 + 1) p with
          | Lt => (s0, p)
          | Gt => (s1, p)
          | Eq => (if Z.even s0 then s0 else s1, p)
          end
      | true, false => (s0, p)
      | false, true => (s1, p)
      | false, false => shortest fuel' m e n (k + 1)
      end
  end.

Fixpoint strip_trailing_zeros (s : string) : string :=
  match s with
  | String c r =>
      match strip_trailing_zeros r with
      | EmptyString => if Ascii.eqb c "0" then EmptyString else String c EmptyString
      | r' => String c r'
      end
  | EmptyString => EmptyString
  end.

(** [Number::toString(x)] in radix 10. *)
Definition Number_toString (x : float64) : string :=
  match x with
  | S754_nan => "NaN"
  | S754_zero _ => "0"
  | S754_infinity sg => if sg then "-Infinity" else "Infinity"
  | S754_finite sg m e =>
      let '(s, p) := shortest 17 m e (mag10 m e) 1 in
      let ds := strip_trailing_zeros (digits s) in
      let k := Z.of_nat (String.length ds) in
      let n := p + digits10 s in
      let body :=
        if (k <=? n) && (n <=? 21) then
          ds ++ repeat_char "0" (Z.to_nat (n - k))
        else if (0 <? n) && (n <=? 21) then
          substring 0 (Z.to_nat n) ds ++ "." ++ substring (Z.to_nat n) (Z.to_nat (k - n)) ds
        else if (-6 <? n) && (n <=? 0) then
          "0." ++ repeat_char "0" (Z.to_nat (- n)) ++ ds
        else
          let ex := (if 0 <? n - 1 then "+" else "-") ++ digits (Z.abs (n - 1)) in
          if k =? 1 then ds ++ "e" ++ ex
          else substring 0 1 ds ++ "." ++ substring 1 (Z.to_nat (k - 1)) ds ++ "e" ++ ex
      in
      if sg then "-" ++ body else body
  end.

(** The digits of the integer [n] with a decimal point before the last [f]
    digits, padded with zeros on the left to at least [f + 1] digits. *)
Definition fixed_digits (n : Z) (f : nat) : string :=
  let m := digits n in
  match f with
  | O => m
  | _ =>
      let m := repeat_char "0" (S f - String.length m) ++ m in
      let k := String.length m in
      substring 0 (k - f) m ++ "." ++ substring (k - f) f m
  end.

(** [x.toFixed(f)]: below [10^21] the integer [n] with [n / 10^f] closest to
    [|x|] (the larger one on a tie), printed with [f] decimals. *)
Definition toFixed (x : float64) (f : nat) : string :=
  match x with
  | S754_nan | S754_infinity _ => Number_toString x
  | S754_zero _ => fixed_digits 0 f
  | S754_finite sg m e =>
      let body :=
        match cmp_bin_dec (Z.pos m) e 1 21 with
        | Lt =>
            let n := (2 * Z.pos m * 2 ^ Z.max 0 e * 10 ^ Z.of_nat f + 2 ^ Z.max 0 (- e))
                     / (2 * 2 ^ Z.max 0 (- e)) in
            fixed_digits n f
        | _ => Number_toString (S754_finite false m e)
        end in
      if sg then "-" ++ body else body
  end.

(** ** String to number *)

(** The double nearest to [(-1)^neg * D * 10^E]. *)
Definition dec_to_float (neg : bool) (D E : Z) : float64 :=
  match D with
  | Z.pos d =>
      if 0 <=? E then binary_round prec emax neg (Pos.mul d (Z.to_pos (10 ^ E))) 0
      else
        let '(q, e, l) := SFdiv_core_binary prec emax (Z.pos d) 0 (10 ^ (- E)) 0 in
        binary_round_aux prec emax neg q e l
  | _ => S754_zero neg
  end.

Definition digit_val (base : Z) (c : ascii) : option Z :=
  let n := Z.of_N (N_of_ascii c) in
  let v := if (48 <=? n) && (n <=? 57) then n - 48
           else if (97 <=? n) && (n <=? 102) then n - 87
           else if (65 <=? n) && (n <=? 70) then n - 55
           else base in
  if v <? base then Some v else None.

(** Longest prefix of digits in the given base: its value, its length and
    the rest of the string. *)
Fixpoint span_digits (base : Z) (s : string) (acc : Z) (len : Z) : Z * Z * string :=
  match s with
  | String c r =>
      match digit_val base c with
      | Some v => span_digits base r (acc * base + v) (len + 1)
      | None => (acc, len, s)
      end
  | EmptyString => (acc, len, s)
  end.

(** [StrUnsignedDecimalLiteral]: [Infinity], or digits with an optional
    fraction and an optional exponent part; anything else is NaN. *)
Definition parse_unsigned (neg : bool) (s : string) : float64 :=
  if string_eqb s "Infinity" then S754_infinity neg
  else
    let '(iv, il, r1) := span_digits 10 s 0 0 in
    let '(dv, fl, r2) :=
      match r1 with
      | String "."%char r => span_digits 10 r iv 0
      | _ => (iv, 0, r1)
      end in
    if il + fl =? 0 then NaN
    else
      match r2 with
      | EmptyString => dec_to_float neg dv (- fl)
      | String c r3 =>
          if Ascii.eqb c "e" || Ascii.eqb c "E" then
            let '(eneg, r4) :=
              match r3 with
              | String "+"%char r => (false, r)
              | String "-"%char r => (true, r)
              | _ => (false, r3)
              end in
            let '(ev, el, r5) := span_digits 10 r4 0 0 in
            if (el =? 0) || negb (string_eqb r5 "") then NaN
            else dec_to_float neg dv ((if eneg then - ev else ev) - fl)
          else NaN
      end.

(** [0x], [0o] and [0b] integer literals. *)
Definition parse_radix (base : Z) (s : string) : float64 :=
  let '(v, l, r) := span_digits base s 0 0 in
  if (l =? 0) || negb (string_eqb r "") then NaN
  else binary_normalize prec emax v 0 false.

(** [StringToNumber]: white space is trimmed, the empty string is [+0]. *)
Definition StringToNumber (s : string) : float64 :=
  match trim s with
  | EmptyString => pzero
  | String "0"%char (String "x"%char r) | String "0"%char (String "X"%char r) =>
      parse_radix 16 r
  | String "0"%char (String "o"%char r) | String "0"%char (String "O"%char r) =>
      parse_radix 8 r
  | String "0"%char (String "b"%char r) | String "0"%char (String "B"%char r) =>
      parse_radix 2 r
  | String "+"%char r => parse_unsigned false r
  | String "-"%char r => parse_unsigned true r
  | t => parse_unsigned false t
  end.

(** A numeric literal of the source text. *)
Definition lit (s : string) : float64 := StringToNumber s.

(** ** Values

    The values the player is handed: primitives, plain data objects (a list
    of own properties, looked up by key) and functions.  A function is known
    by its identity; what calling it does is given by the environment of the
    player (see [AudioPlayer]).  Symbols, BigInts, arrays and objects with
    conversion hooks ([valueOf], [toString], accessors, proxies) are outside
    the model. *)

#[local] Set Warnings "-register-all".

Inductive value : Type :=
| VUndefined
| VNull
| VBool (b : bool)
| VNum (x : float64)
| VStr (s : string)
| VObj (props : list (string * value))
| VFun (id : nat).

Definition undefined : value := VUndefined.

(** [typeof v] as a string. *)
Definition typeof (v : value) : string :=
  match v with
  | VUndefined => "undefined"
  | VNull => "object"
  | VBool _ => "boolean"
  | VNum _ => "number"
  | VStr _ => "string"
  | VObj _ => "object"
  | VFun _ => "function"
  end.

(** [Boolean(v)], the truthiness used by [!v], [&&], [||] and [?:]. *)
Definition ToBoolean (v : value) : bool :=
  match v with
  | VUndefined | VNull => false
  | VBool b => b
  | VNum x => match x with S754_zero _ | S754_nan => false | _ => true end
  | VStr s => negb (string_eqb s "")
  | VObj _ | VFun _ => true
  end.

(** [Number(v)]: a plain object or a function converts through its string
    form, which is not a numeric literal. *)
Definition ToNumber (v : value) : float64 :=
  match v with
  | VUndefined => NaN
  | VNull => pzero
  | VBool b => if b then of_Z 1 else pzero
  | VNum x => x
  | VStr s => StringToNumber s
  | VObj _ | VFun _ => NaN
  end.

(** Own property lookup, [o[k]] on a plain object ([undefined] if absent) and
    the [k in o] test. *)
Fixpoint obj_get (props : list (string * value)) (k : string) : option value :=
  match props with
  | [] => None
  | (k', v) :: r => if string_eqb k' k then Some v else obj_get r k
  end.

Fixpoint obj_set (props : list (string * value)) (k : string) (v : value)
  : list (string * value) :=
  match props with
  | [] => [(k, v)]
  | (k', v') :: r =>
      if string_eqb k' k then (k, v) :: r else (k', v') :: obj_set r k v
  end.

(** [Object.entries(o)]: each own key once. *)
Fixpoint entries (props : list (string * value)) : list (string * value) :=
  match props with
  | [] => []
  | (k, v) :: r =>
      (k, v) :: List.filter (fun kv => negb (string_eqb (fst kv) k)) (entries r)
  end.

Definition get_prop (o : value) (k : string) : value :=
  match o with
  | VObj props => default VUndefined (obj_get props k)
  | _ => VUndefined
  end.

(** [a === b] on the values compared in the player (numbers, strings,
    booleans, [null], [undefined]); functions are compared by identity and
    two objects are never the same object here. *)
Definition strict_eq (a b : value) : bool :=
  match a, b with
  | VUndefined, VUndefined | VNull, VNull => true
  | VBool x, VBool y => Bool.eqb x y
  | VNum x, VNum y => feq x y
  | VStr x, VStr y => string_eqb x y
  | VFun x, VFun y => Nat.eqb x y
  | _, _ => false
  end.

End JS.

(* ===================================================================== *)
(** * src/audio-player.js *)
(* ===================================================================== *)

Module AudioPlayer.
Import JS.

(** ** The options record

    After [_mergeOptions] every documented option has a definite type, so
    the record is typed; [extra] keeps the undocumented keys that the
    constructor accepts ([includeUnknown]). *)

Record options : Type := Build_options {
  src : string;
  volume : float64;
  muted : bool;
  playbackRate : float64;
  playbackRateMin : float64;
  playbackRateMax : float64;
  playbackRateStep : float64;
  seekStep : float64;
  allowDownload : bool;
  showTime : bool;
  theme : string;
  downloadFilename : option string;
  ariaLabelPrefix : string;
  extra : list (string * value)
}.

(** Numeric literals of the source. *)
Definition n0 : float64 := Eval vm_compute in lit "0".
Definition n1 : float64 := Eval vm_compute in lit "1".
Definition n2 : float64 := Eval vm_compute in lit "2".
Definition n4 : float64 := Eval vm_compute in lit "4".
Definition n10 : float64 := Eval vm_compute in lit "10".
Definition n60 : float64 := Eval vm_compute in lit "60".
Definition n100 : float64 := Eval vm_compute in lit "100".
Definition n120 : float64 := Eval vm_compute in lit "120".
Definition n200 : float64 := Eval vm_compute in lit "200".
Definition n0_2 : float64 := Eval vm_compute in lit "0.2".
Definition n0_01 : float64 := Eval vm_compute in lit "0.01".
Definition n0_05 : float64 := Eval vm_compute in lit "0.05".

Definition DEFAULT_OPTIONS : options := {|
  src := "";
  volume := n100;
  muted := false;
  playbackRate := n1;
  playbackRateMin := n0_2;
  playbackRateMax := n2;
  playbackRateStep := n0_05;
  seekStep := n10;
  allowDownload := true;
  showTime := true;
  theme := "auto";
  downloadFilename := None;
  ariaLabelPrefix := "Audio player";
  extra := []
|}.

Definition EVENTS : list string :=
  [ "ready"; "play"; "pause"; "ended"; "timeupdate"; "seek"; "ratechange";
    "volumechange"; "mutechange"; "optionschange"; "download"; "error";
    "srcchange" ].

(** Field updates, [next.field = x]. *)
Definition set_src (x : string) (o : options) : options :=
  Build_options x (volume o) (muted o) (playbackRate o) (playbackRateMin o)
    (playbackRateMax o) (playbackRateStep o) (seekStep o) (allowDownload o)
    (showTime o) (theme o) (downloadFilename o) (ariaLabelPrefix o) (extra o).
Definition set_volume (x : float64) (o : options) : options :=
  Build_options (src o) x (muted o) (playbackRate o) (playbackRateMin o)
    (playbackRateMax o) (playbackRateStep o) (seekStep o) (allowDownload o)
    (showTime o) (theme o) (downloadFilename o) (ariaLabelPrefix o) (extra o).
Definition set_muted (x : bool) (o : options) : options :=
  Build_options (src o) (volume o) x (playbackRate o) (playbackRateMin o)
    (playbackRateMax o) (playbackRateStep o) (seekStep o) (allowDownload o)
    (showTime o) (theme o) (downloadFilename o) (ariaLabelPrefix o) (extra o).
Definition set_playbackRate (x : float64) (o : options) : options :=
  Build_options (src o) (volume o) (muted o) x (playbackRateMin o)
    (playbackRateMax o) (playbackRateStep o) (seekStep o) (allowDownload o)
    (showTime o) (theme o) (downloadFilename o) (ariaLabelPrefix o) (extra o).
Definition set_playbackRateMin (x : float64) (o : options) : options :=
  Build_options (src o) (volume o) (muted o) (playbackRate o) x
    (playbackRateMax o) (playbackRateStep o) (seekStep o) (allowDownload o)
    (showTime o) (theme o) (downloadFilename o) (ariaLabelPrefix o) (extra o).
Definition set_playbackRateMax (x : float64) (o : options) : options :=
  Build_options (src o) (volume o) (muted o) (playbackRate o) (playbackRateMin o)
    x (playbackRateStep o) (seekStep o) (allowDownload o)
    (showTime o) (theme o) (downloadFilename o) (ariaLabelPrefix o) (extra o).
Definition set_playbackRateStep (x : float64) (o : options) : options :=
  Build_options (src o) (volume o) (muted o) (playbackRate o) (playbackRateMin o)
    (playbackRateMax o) x (seekStep o) (allowDownload o)
    (showTime o) (theme o) (downloadFilename o) (ariaLabelPrefix o) (extra o).
Definition set_seekStep (x : float64) (o : options) : options :=
  Build_options (src o) (volume o) (muted o) (playbackRate o) (playbackRateMin o)
    (playbackRateMax o) (playbackRateStep o) x (allowDownload o)
    (showTime o) (theme o) (downloadFilename o) (ariaLabelPrefix o) (extra o).
Definition set_allowDownload (x : bool) (o : options) : options :=
  Build_options (src o) (volume o) (muted o) (playbackRate o) (playbackRateMin o)
    (playbackRateMax o) (playbackRateStep o) (seekStep o) x
    (showTime o) (theme o) (downloadFilename o) (ariaLabelPrefix o) (extra o).
Definition set_showTime (x : bool) (o : options) : options :=
  Build_options (src o) (volume o) (muted o) (playbackRate o) (playbackRateMin o)
    (playbackRateMax o) (playbackRateStep o) (seekStep o) (allowDownload o)
    x (theme o) (downloadFilename o) (ariaLabelPrefix o) (extra o).
Definition set_theme (x : string) (o : options) : options :=
  Build_options (src o) (volume o) (muted o) (playbackRate o) (playbackRateMin o)
    (playbackRateMax o) (playbackRateStep o) (seekStep o) (allowDownload o)
    (showTime o) x (downloadFilename o) (ariaLabelPrefix o) (extra o).
Definition set_downloadFilename (x : option string) (o : options) : options :=
  Build_options (src o) (volume o) (muted o) (playbackRate o) (playbackRateMin o)
    (playbackRateMax o) (playbackRateStep o) (seekStep o) (allowDownload o)
    (showTime o) (theme o) x (ariaLabelPrefix o) (extra o).
Definition set_ariaLabelPrefix (x : string) (o : options) : options :=
  Build_options (src o) (volume o) (muted o) (playbackRate o) (playbackRateMin o)
    (playbackRateMax o) (playbackRateStep o) (seekStep o) (allowDownload o)
    (showTime o) (theme o) (downloadFilename o) x (extra o).
Definition set_extra (x : list (string * value)) (o : options) : options :=
  Build_options (src o) (volume o) (muted o) (playbackRate o) (playbackRateMin o)
    (playbackRateMax o) (playbackRateStep o) (seekStep o) (allowDownload o)
    (showTime o) (theme o) (downloadFilename o) (ariaLabelPrefix o) x.

(** The record as the object the program sees: [o[k]] for a documented key,
    and the object returned by [getOptions] ([{ ...this._options }]). *)
Definition known_props (o : options) : list (string * value) :=
  [ ("src", VStr (src o));
    ("volume", VNum (volume o));
    ("muted", VBool (muted o));
    ("playbackRate", VNum (playbackRate o));
    ("playbackRateMin", VNum (playbackRateMin o));
    ("playbackRateMax", VNum (playbackRateMax o));
    ("playbackRateStep", VNum (playbackRateStep o));
    ("seekStep", VNum (seekStep o));
    ("allowDownload", VBool (allowDownload o));
    ("showTime", VBool (showTime o));
    ("theme", VStr (theme o));
    ("downloadFilename", from_option VStr VNull (downloadFilename o));
    ("ariaLabelPrefix", VStr (ariaLabelPrefix o)) ].

Definition options_object (o : options) : value :=
  VObj (known_props o ++ extra o)%list.

Definition known_key (k : string) : bool :=
  bool_decide (is_Some (obj_get (known_props DEFAULT_OPTIONS) k)).

(** ** Pure helpers *)

(** [clampNumber(value, min, max)]; [None] is the [null] result. *)
Definition clampNumber (v : value) (min max : float64) : option float64 :=
  let num := ToNumber v in
  if negb (isFinite num) then None
  else Some (Math_min max (Math_max min num)).

(** [formatTime(seconds)]. *)
Definition formatTime (seconds : value) : string :=
  match seconds with
  | VNum s =>
      if negb (isFinite s) || flt s n0 then "0:00"
      else
        let mins := Math_floor (fdiv s n60) in
        let secs := Math_floor (frem s n60) in
        Number_toString mins ++ ":" ++ padStart0 2 (Number_toString secs)
  | _ => "0:00"
  end.

(** [formatRate(rate)]: two decimals are always kept. *)
Definition formatRate (rate : value) : string :=
  match rate with
  | VNum r =>
      if negb (isFinite r) then "1x"
      else
        let rounded := fdiv (Math_round (fmul r n100)) n100 in
        let text := toFixed rounded 2 in
        text ++ "x"
  | _ => "1x"
  end.

(** [typeof v === "string" && v.trim() ? v.trim() : fallback], with the
    fallback left to the caller. *)
Definition trimmed (v : value) : option string :=
  match v with
  | VStr s => let t := trim s in if string_eqb t "" then None else Some t
  | _ => None
  end.

(** ** [_mergeOptions] *)

(** [Object.keys(override || {})] with the values [override[key]]: the own
    properties of an object, the indexed characters of a non-empty string,
    nothing for any other value. *)
Definition own_props (override : value) : list (string * value) :=
  match override with
  | VObj props => props
  | VStr s =>
      imap (fun i c => (digits (Z.of_nat i), VStr (String c EmptyString)))
           (list_ascii_of_string s)
  | _ => []
  end.

(** [key in base]. *)
Definition has_key (base : options) (k : string) : bool :=
  known_key k || bool_decide (is_Some (obj_get (extra base) k)).

(** [merged[k]] once [{ ...base }] has been overlaid with the accepted keys
    of [override]. *)
Definition merged (base : options) (override : value) (includeUnknown : bool)
    (k : string) : value :=
  match obj_get (own_props override) k with
  | Some v => if includeUnknown || has_key base k then v
              else default VUndefined (obj_get (known_props base) k)
  | None => default VUndefined (obj_get (known_props base) k)
  end.

(** [_mergeOptions(base, override, includeUnknown)]. *)
Definition _mergeOptions (base : options) (override : value) (includeUnknown : bool)
  : options :=
  let props := own_props override in
  let merged := merged base override includeUnknown in
  let merged_extra :=
    fold_left
      (fun acc kv =>
         if (includeUnknown || has_key base (fst kv)) && negb (known_key (fst kv))
         then obj_set acc (fst kv) (default VUndefined (obj_get props (fst kv)))
         else acc)
      props (extra base) in
  let theme' := default (theme base) (trimmed (merged "theme")) in
  let volume' := default (volume base) (clampNumber (merged "volume") n0 n100) in
  let min0 :=
    default (playbackRateMin base) (clampNumber (merged "playbackRateMin") n0_2 n4) in
  let max0 :=
    default (playbackRateMax base) (clampNumber (merged "playbackRateMax") n0_2 n4) in
  let step' :=
    default (playbackRateStep base) (clampNumber (merged "playbackRateStep") n0_01 n1) in
  let min' := if fgt min0 max0 then max0 else min0 in
  let max' := if fgt min0 max0 then min0 else max0 in
  let rate' := default n1 (clampNumber (merged "playbackRate") min' max') in
  let seekStep' := default (seekStep base) (clampNumber (merged "seekStep") n1 n120) in
  {| src := match merged "src" with VStr s => s | _ => "" end;
     volume := volume';
     muted := ToBoolean (merged "muted");
     playbackRate := rate';
     playbackRateMin := min';
     playbackRateMax := max';
     playbackRateStep := step';
     seekStep := seekStep';
     allowDownload := ToBoolean (merged "allowDownload");
     showTime := ToBoolean (merged "showTime");
     theme := theme';
     downloadFilename := trimmed (merged "downloadFilename");
     ariaLabelPrefix := default (ariaLabelPrefix base) (trimmed (merged "ariaLabelPrefix"));
     extra := merged_extra |}.

(** ** [setOptions]: the computation of [next]

    One definition per [if ("key" in partial) { ... }] block, in the order of
    the source. *)

Section Next.
Variable partial : list (string * value).

Definition next_volume (next : options) : options :=
  match obj_get partial "volume" with
  | Some v =>
      match clampNumber v n0 n100 with
      | Some x => if negb (feq x (volume next)) then set_volume x next else next
      | None => next
      end
  | None => next
  end.

Definition next_muted (next : options) : options :=
  match obj_get partial "muted" with
  | Some v =>
      let x := ToBoolean v in
      if negb (Bool.eqb x (muted next)) then set_muted x next else next
  | None => next
  end.

Definition next_playbackRate (next : options) : options :=
  match obj_get partial "playbackRate" with
  | Some v =>
      match clampNumber v (playbackRateMin next) (playbackRateMax next) with
      | Some x => if negb (feq x (playbackRate next)) then set_playbackRate x next else next
      | None => next
      end
  | None => next
  end.

Definition next_seekStep (next : options) : options :=
  match obj_get partial "seekStep" with
  | Some v =>
      match clampNumber v n1 n120 with
      | Some x => if negb (feq x (seekStep next)) then set_seekStep x next else next
      | None => next
      end
  | None => next
  end.

Definition next_allowDownload (next : options) : options :=
  match obj_get partial "allowDownload" with
  | Some v =>
      let x := ToBoolean v in
      if negb (Bool.eqb x (allowDownload next)) then set_allowDownload x next else next
  | None => next
  end.

Definition next_playbackRateMin (next : options) : options :=
  match obj_get partial "playbackRateMin" with
  | Some v =>
      match clampNumber v n0_2 n4 with
      | Some x =>
          if negb (feq x (playbackRateMin next)) then set_playbackRateMin x next else next
      | None => next
      end
  | None => next
  end.

Definition next_playbackRateMax (next : options) : options :=
  match obj_get partial "playbackRateMax" with
  | Some v =>
      match clampNumber v n0_2 n4 with
      | Some x =>
          if negb (feq x (playbackRateMax next)) then set_playbackRateMax x next else next
      | None => next
      end
  | None => next
  end.

Definition next_playbackRateStep (next : options) : options :=
  match obj_get partial "playbackRateStep" with
  | Some v =>
      match clampNumber v n0_01 n1 with
      | Some x =>
          if negb (feq x (playbackRateStep next)) then set_playbackRateStep x next else next
      | None => next
      end
  | None => next
  end.

(** The record once the numeric keys of [partial] have been taken in, just
    before the two rate bounds are compared. *)
Definition sanitized (current : options) : options :=
  next_playbackRateStep
    (next_playbackRateMax
       (next_playbackRateMin
          (next_allowDownload
             (next_seekStep (next_playbackRate (next_muted (next_volume current))))))).

Definition next_showTime (next : options) : options :=
  match obj_get partial "showTime" with
  | Some v =>
      let x := ToBoolean v in
      if negb (Bool.eqb x (showTime next)) then set_showTime x next else next
  | None => next
  end.

Definition next_theme (next : options) : options :=
  match obj_get partial "theme" with
  | Some v =>
      let x := default (theme DEFAULT_OPTIONS) (trimmed v) in
      if negb (string_eqb x (theme next)) then set_theme x next else next
  | None => next
  end.

Definition next_downloadFilename (next : options) : options :=
  match obj_get partial "downloadFilename" with
  | Some v =>
      let x := trimmed v in
      if negb (bool_decide (x = downloadFilename next))
      then set_downloadFilename x next else next
  | None => next
  end.

Definition next_ariaLabelPrefix (next : options) : options :=
  match obj_get partial "ariaLabelPrefix" with
  | Some v =>
      let x := default (ariaLabelPrefix DEFAULT_OPTIONS) (trimmed v) in
      if negb (string_eqb x (ariaLabelPrefix next)) then set_ariaLabelPrefix x next else next
  | None => next
  end.

Definition next_src (next : options) : options :=
  match obj_get partial "src" with
  | Some v =>
      let x := match v with VStr s => s | _ => "" end in
      if negb (string_eqb x (src next)) then set_src x next else next
  | None => next
  end.
End Next.

(** [if (next.playbackRateMin > next.playbackRateMax) { swap }]. *)
Definition swap_bounds (next : options) : options :=
  if fgt (playbackRateMin next) (playbackRateMax next) then
    let temp := playbackRateMin next in
    set_playbackRateMax temp (set_playbackRateMin (playbackRateMax next) next)
  else next.

(** The re-clamp of the stored rate that follows. *)
Definition reclamp_rate (next : options) : options :=
  match clampNumber (VNum (playbackRate next))
          (playbackRateMin next) (playbackRateMax next) with
  | Some clampedRate =>
      if negb (feq clampedRate (playbackRate next))
      then set_playbackRate clampedRate next else next
  | None => next
  end.

(** The value of [next] when [setOptions] stores it into [this._options]. *)
Definition next_options (current : options) (partial : list (string * value)) : options :=
  next_src partial
    (next_ariaLabelPrefix partial
       (next_downloadFilename partial
          (next_theme partial
             (next_showTime partial
                (reclamp_rate (swap_bounds (sanitized partial current))))))).

(** ** The player state *)

(** The media element, a collaborator: the model keeps the properties the
    player reads and writes.  An assignment stores the value and a read
    returns the stored value. *)
Module Audio.
Record t : Type := Build {
  src : string;
  currentTime : float64;
  duration : float64;
  volume : float64;
  muted : bool;
  playbackRate : float64;
  paused : bool
}.

Definition set_src (x : string) (a : t) : t :=
  Build x (currentTime a) (duration a) (volume a) (muted a) (playbackRate a) (paused a).
Definition set_currentTime (x : float64) (a : t) : t :=
  Build (src a) x (duration a) (volume a) (muted a) (playbackRate a) (paused a).
Definition set_duration (x : float64) (a : t) : t :=
  Build (src a) (currentTime a) x (volume a) (muted a) (playbackRate a) (paused a).
Definition set_volume (x : float64) (a : t) : t :=
  Build (src a) (currentTime a) (duration a) x (muted a) (playbackRate a) (paused a).
Definition set_muted (x : bool) (a : t) : t :=
  Build (src a) (currentTime a) (duration a) (volume a) x (playbackRate a) (paused a).
Definition set_playbackRate (x : float64) (a : t) : t :=
  Build (src a) (currentTime a) (duration a) (volume a) (muted a) x (paused a).
Definition set_paused (x : bool) (a : t) : t :=
  Build (src a) (currentTime a) (duration a) (volume a) (muted a) (playbackRate a) x.

(** [document.createElement("audio")]. *)
Definition create : t :=
  Build "" n0 NaN n1 false n1 true.

(** [load()]: resource selection restarts; the element is paused at
    position 0 and has no duration until its metadata arrives. *)
Definition load (a : t) : t :=
  set_paused true (set_duration NaN (set_currentTime n0 a)).

Definition pause (a : t) : t := set_paused true a.
Definition play (a : t) : t := set_paused false a.
End Audio.

(** Track metadata, replaced on each load. *)
Module Meta.
Record t : Type := Build {
  title : string;
  filename : option string;
  allowDownload : option bool      (* [None] is [undefined]: defer to the options *)
}.
End Meta.

(** The control surface.  Its construction and styling are presentation;
    the model keeps the position read-outs that [load] and [seek] write, and
    whether the root node is still in its container. *)
Module Dom.
Record t : Type := Build {
  currentTime : string;            (* currentTime.textContent *)
  duration : string;               (* duration.textContent *)
  progressValue : string;          (* progressRange.value *)
  progressMax : string;            (* progressRange.max *)
  attached : bool                  (* root.parentNode is set *)
}.

Definition create : t := Build "0:00" "0:00" "0" "0" true.
End Dom.

(** What an execution does that is visible from outside the player. *)
Inductive effect : Type :=
| Emit (name : value) (payload : value)     (* a call of [this.emit] *)
| Call (handler : nat) (payload : value)    (* [handler(payload)] *)
| ConsoleError (error : value).             (* [console.error] after a handler threw *)

Record player : Type := Build_player {
  _options : options;
  _meta : Meta.t;
  _audio : option Audio.t;                   (* [None] is [null] *)
  _dom : option Dom.t;                       (* [None] is [null] *)
  _events : gmap string (list nat);          (* Map of event name to Set of handlers *)
  _listeners : list (string * string);       (* bound DOM listeners: target, event *)
  _destroyed : bool;
  _rafId : option nat;
  trace : list effect
}.

Definition with_options (x : options) (p : player) : player :=
  Build_player x (_meta p) (_audio p) (_dom p) (_events p) (_listeners p)
    (_destroyed p) (_rafId p) (trace p).
Definition with_meta (x : Meta.t) (p : player) : player :=
  Build_player (_options p) x (_audio p) (_dom p) (_events p) (_listeners p)
    (_destroyed p) (_rafId p) (trace p).
Definition with_audio (x : option Audio.t) (p : player) : player :=
  Build_player (_options p) (_meta p) x (_dom p) (_events p) (_listeners p)
    (_destroyed p) (_rafId p) (trace p).
Definition with_dom (x : option Dom.t) (p : player) : player :=
  Build_player (_options p) (_meta p) (_audio p) x (_events p) (_listeners p)
    (_destroyed p) (_rafId p) (trace p).
Definition with_events (x : gmap string (list nat)) (p : player) : player :=
  Build_player (_options p) (_meta p) (_audio p) (_dom p) x (_listeners p)
    (_destroyed p) (_rafId p) (trace p).
Definition with_listeners (x : list (string * string)) (p : player) : player :=
  Build_player (_options p) (_meta p) (_audio p) (_dom p) (_events p) x
    (_destroyed p) (_rafId p) (trace p).
Definition with_destroyed (x : bool) (p : player) : player :=
  Build_player (_options p) (_meta p) (_audio p) (_dom p) (_events p) (_listeners p)
    x (_rafId p) (trace p).
Definition with_rafId (x : option nat) (p : player) : player :=
  Build_player (_options p) (_meta p) (_audio p) (_dom p) (_events p) (_listeners p)
    (_destroyed p) x (trace p).
Definition with_trace (x : list effect) (p : player) : player :=
  Build_player (_options p) (_meta p) (_audio p) (_dom p) (_events p) (_listeners p)
    (_destroyed p) (_rafId p) x.

(** ** Methods as state transformers that may throw *)

Inductive exn : Type :=
| TypeError (msg : string)
| Error (msg : string).

Inductive result (A : Type) : Type :=
| Ok (a : A)
| Throw (e : exn).
Arguments Ok {A} a.
Arguments Throw {A} e.

(** A method body: from the state before to an outcome and the state after
    (the state reached when the exception was thrown, if one was). *)
Definition M (A : Type) : Type := player -> result A * player.

Definition ret {A} (a : A) : M A := fun st => (Ok a, st).
Definition throw {A} (e : exn) : M A := fun st => (Throw e, st).
Definition bind {A B} (m : M A) (k : A -> M B) : M B :=
  fun st =>
    match m st with
    | (Ok a, st') => k a st'
    | (Throw e, st') => (Throw e, st')
    end.
Definition get : M player := fun st => (Ok st, st).
Definition modify (f : player -> player) : M unit := fun st => (Ok tt, f st).

Notation "'let!' x ':=' c 'in' k" := (bind c (fun x => k))
  (at level 10, x name, c at level 100, k at level 200).
Notation "c ;;; k" := (bind c (fun _ => k))
  (at level 100, k at level 200, right associativity).

(** [this._audio.p] and [this._dom.p] read through a reference that
    [destroy] sets to [null]. *)
Definition null_read : exn := TypeError "Cannot read properties of null".
Definition null_write : exn := TypeError "Cannot set properties of null".

Definition audio : M Audio.t :=
  fun st => match _audio st with
            | Some a => (Ok a, st)
            | None => (Throw null_read, st)
            end.
Definition set_audio (f : Audio.t -> Audio.t) : M unit :=
  fun st => match _audio st with
            | Some a => (Ok tt, with_audio (Some (f a)) st)
            | None => (Throw null_write, st)
            end.
Definition call_audio (f : Audio.t -> Audio.t) : M unit :=
  fun st => match _audio st with
            | Some a => (Ok tt, with_audio (Some (f a)) st)
            | None => (Throw null_read, st)
            end.
Definition dom : M Dom.t :=
  fun st => match _dom st with
            | Some d => (Ok d, st)
            | None => (Throw null_read, st)
            end.
Definition set_dom (f : Dom.t -> Dom.t) : M unit :=
  fun st => match _dom st with
            | Some d => (Ok tt, with_dom (Some (f d)) st)
            | None => (Throw null_read, st)
            end.
Definition options_ : M options := fun st => (Ok (_options st), st).
Definition set_options (f : options -> options) : M unit :=
  modify (fun st => with_options (f (_options st)) st).

Section Methods.

(** What calling a function does: [handler_throws h payload] is [Some e]
    when the call [h(payload)] throws [e] and [None] when it returns.
    A handler is taken by its outcome; one that calls back into the player
    while it runs is outside the model. *)
Variable handler_throws : nat -> value -> option value.

(** The constructor option [on] may be a function that is handed the
    [on] method; [callback_registers f] lists the [on(name, handler)]
    calls the function [f] then makes. *)
Variable callback_registers : nat -> list (value * value).

(** [document.querySelector(selector)] finds an element. *)
Variable querySelector : string -> bool.

(** *** Events *)

(** [on(name, handler)]. *)
Definition on (name handler : value) : M unit :=
  match name, handler with
  | VStr n, VFun h =>
      if bool_decide (n ∈ EVENTS) then
        modify (fun st =>
          let set := default [] (_events st !! n) in
          let set' := if bool_decide (h ∈ set) then set else (set ++ [h])%list in
          with_events (<[n := set']> (_events st)) st)
      else ret tt
  | _, _ => ret tt
  end.

(** [off(name, handler)]. *)
Definition off (name handler : value) : M unit :=
  match name with
  | VStr n =>
      modify (fun st =>
        match _events st !! n with
        | Some set =>
            match handler with
            | VFun h =>
                with_events (<[n := filter (fun h' => h' ≠ h) set]> (_events st)) st
            | _ => st
            end
        | None => st
        end)
  | _ => ret tt
  end.

(** One round of the [forEach] in [emit]: the [try { handler(payload) }
    catch (error) { console.error(...) }]. *)
Definition invoke (payload : value) (st : player) (h : nat) : player :=
  let st := with_trace (trace st ++ [Call h payload])%list st in
  match handler_throws h payload with
  | Some error => with_trace (trace st ++ [ConsoleError error])%list st
  | None => st
  end.

(** [emit(name, payload)]. *)
Definition emit (name payload : value) : M unit :=
  modify (fun st => with_trace (trace st ++ [Emit name payload])%list st) ;;;
  match name with
  | VStr n =>
      modify (fun st =>
        match _events st !! n with
        | Some set => fold_left (invoke payload) set st
        | None => st
        end)
  | _ => ret tt
  end.

(** *** Private helpers *)

Definition _updatePlayState : M unit :=
  let! _ := audio in
  let! _ := dom in
  ret tt.

Definition _stopProgressLoop : M unit :=
  modify (fun st => match _rafId st with
                    | Some _ => with_rafId None st
                    | None => st
                    end).

Definition _updateRateOptions : M unit := let! _ := dom in ret tt.
Definition _updateTitle : M unit := let! _ := dom in ret tt.
Definition _syncDownloadState : M unit := let! _ := dom in ret tt.

(** The [allow] that [_syncDownloadState] computes. *)
Definition download_allowed (st : player) : bool :=
  match Meta.allowDownload (_meta st) with
  | Some b => b
  | None => allowDownload (_options st)
  end.
Definition _updateSeekLabels : M unit := let! _ := dom in ret tt.

(** [_updateRateUI]: [rate = audio.playbackRate || options.playbackRate]
    is written back into the options. *)
Definition _updateRateUI : M unit :=
  let! _ := dom in
  let! a := audio in
  let! o := options_ in
  let rate := if ToBoolean (VNum (Audio.playbackRate a))
              then Audio.playbackRate a else playbackRate o in
  set_options (set_playbackRate rate).

(** [_updateVolumeUI(skipEmit)]. *)
Definition _updateVolumeUI (skipEmit : bool) : M unit :=
  let! a := audio in
  let vol := Math_round (fmul (Audio.volume a) n100) in
  let mut := Audio.muted a in
  let! _ := dom in
  if skipEmit then ret tt
  else
    let! o := options_ in
    (if negb (feq vol (volume o)) then
       set_options (set_volume vol) ;;;
       emit (VStr "volumechange") (VObj [("volume", VNum vol)])
     else ret tt) ;;;
    let! o := options_ in
    (if negb (Bool.eqb mut (muted o)) then
       set_options (set_muted mut) ;;;
       emit (VStr "mutechange") (VObj [("muted", VBool mut)])
     else ret tt).

(** [_syncProgress(currentTime)]; [None] is a call without argument. *)
Definition _syncProgress (currentTime : option float64) : M unit :=
  let! current :=
    match currentTime with
    | Some t => if isFinite t then ret t
                else let! a := audio in ret (Audio.currentTime a)
    | None => let! a := audio in ret (Audio.currentTime a)
    end in
  set_dom (fun d =>
    Dom.Build (formatTime (VNum current)) (Dom.duration d)
              (Number_toString current) (Dom.progressMax d) (Dom.attached d)).

(** [_applyOptions]. *)
Definition _applyOptions : M unit :=
  _updateRateOptions ;;;
  let! o := options_ in
  set_audio (Audio.set_playbackRate (playbackRate o)) ;;;
  _updateRateUI ;;;
  let! o := options_ in
  set_audio (Audio.set_volume (fdiv (volume o) n100)) ;;;
  set_audio (Audio.set_muted (muted o)) ;;;
  _updateVolumeUI true ;;;
  _syncDownloadState ;;;
  _updateSeekLabels ;;;
  let! _ := dom in
  let! o := options_ in
  (if negb (string_eqb (src o) "") then
     let! a := audio in
     (* getAttribute("src") || "" *)
     let currentSrc := Audio.src a in
     if negb (string_eqb currentSrc (src o))
     then set_audio (Audio.set_src (src o)) else ret tt
   else ret tt) ;;;
  _updateTitle.

(** *** Public methods *)

(** [getOptions()]: a copy of the record. *)
Definition getOptions : M options := options_.

(** [load(src, meta = {}, previousSrc = null)]. *)
Definition load (source meta previousSrc : value) : M unit :=
  match source with
  | VStr s =>
      if string_eqb s "" then ret tt
      else
        let meta := match meta with VUndefined => VObj [] | _ => meta end in
        let previousSrc :=
          match previousSrc with VUndefined => VNull | _ => previousSrc end in
        let! previous :=
          match previousSrc with
          | VNull | VUndefined => let! a := audio in ret (VStr (Audio.src a))
          | v => ret v
          end in
        call_audio Audio.pause ;;;
        _updatePlayState ;;;
        _stopProgressLoop ;;;
        (match meta with
         | VNull => throw null_read
         | _ => ret tt
         end) ;;;
        modify (with_meta
          {| Meta.title := match get_prop meta "title" with
                           | VStr t => trim t
                           | _ => ""
                           end;
             Meta.filename := trimmed (get_prop meta "filename");
             Meta.allowDownload := match get_prop meta "allowDownload" with
                                   | VBool b => Some b
                                   | _ => None
                                   end |}) ;;;
        set_options (set_src s) ;;;
        set_audio (Audio.set_src s) ;;;
        call_audio Audio.load ;;;
        let! o := options_ in
        set_audio (Audio.set_playbackRate (playbackRate o)) ;;;
        _updateRateUI ;;;
        let! o := options_ in
        set_audio (Audio.set_volume (fdiv (volume o) n100)) ;;;
        set_audio (Audio.set_muted (muted o)) ;;;
        _updateVolumeUI true ;;;
        _updateTitle ;;;
        _syncDownloadState ;;;
        set_dom (fun d => Dom.Build "0:00" "0:00" "0" "0" (Dom.attached d)) ;;;
        if negb (strict_eq (VStr s) previous)
        then emit (VStr "srcchange") (VObj [("src", VStr s)])
        else ret tt
  | _ => ret tt
  end.

(** [setOptions(partial = {})]. *)
Definition setOptions (partial : value) : M options :=
  let partial := match partial with VUndefined => VObj [] | _ => partial end in
  match partial with
  | VObj props =>
      let! previous := options_ in
      set_options (fun o => next_options o props) ;;;
      _applyOptions ;;;
      (match obj_get props "src" with
       | Some _ =>
           let! o := options_ in
           if negb (string_eqb (src o) "")
           then load (VStr (src o)) (VObj []) (VStr (src previous))
           else ret tt
       | None => ret tt
       end) ;;;
      getOptions
  | _ => getOptions
  end.

(** [resetOptions(partial = {})]: [{ ...DEFAULT_OPTIONS, ...partial }]. *)
Definition resetOptions (partial : value) : M options :=
  let partial := match partial with VUndefined => VObj [] | _ => partial end in
  setOptions
    (VObj (fold_left (fun acc kv => obj_set acc (fst kv) (snd kv))
                     (own_props partial) (known_props DEFAULT_OPTIONS))).

(** [play()]; the promise of the element settles later, see [play_rejected]. *)
Definition play : M unit :=
  let! st := get in
  if _destroyed st then ret tt
  else call_audio Audio.play.

(** The [catch] callback of [play()]. *)
Definition play_rejected (error : value) : M unit :=
  emit (VStr "error") (VObj [("error", error)]).

Definition pause : M unit :=
  let! st := get in
  if _destroyed st then ret tt
  else call_audio Audio.pause.

Definition toggle : M unit :=
  let! a := audio in
  if Audio.paused a then play else pause.

(** [seek(seconds)]. *)
Definition seek (seconds : value) : M unit :=
  let! a := audio in
  if negb (isFinite (Audio.duration a)) then ret tt
  else
    let from := Audio.currentTime a in
    let to := Math_max n0 (Math_min (Audio.duration a) (ToNumber seconds)) in
    if feq from to then ret tt
    else
      set_audio (Audio.set_currentTime to) ;;;
      _syncProgress None ;;;
      emit (VStr "seek") (VObj [("from", VNum from); ("to", VNum to)]).

Definition seekBy (deltaSeconds : value) : M unit :=
  let delta := ToNumber deltaSeconds in
  if negb (isFinite delta) then ret tt
  else
    let! a := audio in
    seek (VNum (fadd (Audio.currentTime a) delta)).

Definition setPlaybackRate (rate : value) : M unit :=
  let! o := options_ in
  match clampNumber rate (playbackRateMin o) (playbackRateMax o) with
  | None => ret tt
  | Some x => set_audio (Audio.set_playbackRate x)
  end.

(** [setVolume(volume0to100)]. *)
Definition setVolume (volume0to100 : value) : M unit :=
  match clampNumber volume0to100 n0 n100 with
  | None => ret tt
  | Some x =>
      set_audio (Audio.set_volume (fdiv x n100)) ;;;
      let! a := audio in
      if fgt x n0 && Audio.muted a
      then set_audio (Audio.set_muted false) else ret tt
  end.

Definition mute : M unit := set_audio (Audio.set_muted true).
Definition unmute : M unit := set_audio (Audio.set_muted false).
Definition toggleMute : M unit :=
  let! a := audio in
  set_audio (Audio.set_muted (negb (Audio.muted a))).

(** [destroy()]. *)
Definition destroy : M unit :=
  let! st := get in
  if _destroyed st then ret tt
  else
    modify (with_destroyed true) ;;;
    _stopProgressLoop ;;;
    modify (with_listeners []) ;;;
    modify (fun st =>
      match _audio st with
      | Some a => with_audio (Some (Audio.set_src "" (Audio.pause a))) st
      | None => st
      end) ;;;
    modify (fun st =>
      match _dom st with
      | Some d =>
          if Dom.attached d
          then with_dom (Some (Dom.Build (Dom.currentTime d) (Dom.duration d)
                                 (Dom.progressValue d) (Dom.progressMax d) false)) st
          else st
      | None => st
      end) ;;;
    modify (with_dom None) ;;;
    modify (with_audio None) ;;;
    modify (with_events ∅).

(** *** Handlers of the media element and of the control surface *)

(** [_getLiveOptions()]: the record with the three values the media element
    holds; on a destroyed player the record alone. *)
Definition _getLiveOptions : M options :=
  let! base := getOptions in
  let! st := get in
  match _audio st with
  | None => ret base
  | Some a =>
      ret (set_playbackRate (Audio.playbackRate a)
             (set_muted (Audio.muted a)
                (set_volume (Math_round (fmul (Audio.volume a) n100)) base)))
  end.



(** The listener of the element's [ratechange]. *)
Definition audio_ratechange : M unit :=
  _updateRateUI ;;;
  let! a := audio in
  emit (VStr "ratechange") (VObj [("rate", VNum (Audio.playbackRate a))]).

(** The listener of the element's [volumechange]. *)
Definition audio_volumechange : M unit := _updateVolumeUI false.

(** [_handleDownload()]; the click on the temporary link is the host's. *)
Definition _handleDownload : M unit :=
  let! a := audio in
  let src := Audio.src a in
  if string_eqb src "" then ret tt
  else
    let! st := get in
    let or_else (x : option string) (y : string) : string :=
      match x with
      | Some f => if string_eqb f "" then y else f
      | None => y
      end in
    let filename :=
      or_else (Meta.filename (_meta st))
              (or_else (downloadFilename (_options st)) "") in
    emit (VStr "download") (VObj [("src", VStr src); ("filename", VStr filename)]).

(** *** Construction *)

(** The listeners [_bindUI] registers through [_bind]: target and event. *)
Definition bound_listeners : list (string * string) :=
  [ ("playBtn", "click"); ("rewindBtn", "click"); ("forwardBtn", "click");
    ("rateButton", "click"); ("rateSlider", "input"); ("rateSlider", "keydown");
    ("document", "click"); ("muteBtn", "click"); ("volumeSlider", "input");
    ("downloadBtn", "click"); ("progressRange", "input");
    ("progressRange", "keydown"); ("audio", "loadedmetadata");
    ("audio", "timeupdate"); ("audio", "play"); ("audio", "pause");
    ("audio", "ended"); ("audio", "ratechange"); ("audio", "volumechange");
    ("audio", "error") ].

Definition register_all (entries : list (value * value)) : M unit :=
  fold_right (fun nh k => on (fst nh) (snd nh) ;;; k) (ret tt) entries.

(** [_registerOptionEvents(options)]. *)
Definition _registerOptionEvents (options : value) : M unit :=
  (match get_prop options "on" with
   | VFun f => register_all (callback_registers f)
   | VObj props => register_all (map (fun kv => (VStr (fst kv), snd kv)) (entries props))
   | _ => ret tt
   end) ;;;
  (match get_prop options "events" with
   | VObj props => register_all (map (fun kv => (VStr (fst kv), snd kv)) (entries props))
   | _ => ret tt
   end).

(** The fields as the constructor initialises them, with the control
    surface and the media element that [_buildUI] creates and the
    listeners that [_bindUI] binds. *)
Definition fresh (opts : options) : player :=
  {| _options := opts;
     _meta := {| Meta.title := ""; Meta.filename := None; Meta.allowDownload := None |};
     _audio := Some Audio.create;
     _dom := Some Dom.create;
     _events := ∅;
     _listeners := bound_listeners;
     _destroyed := false;
     _rafId := None;
     trace := [] |}.

(** [new AudioPlayer(container, options = {})]. *)
Definition constructor (container options : value) : result unit * player :=
  let resolved :=
    match container with
    | VStr selector => querySelector selector
    | v => ToBoolean v
    end in
  let options := match options with VUndefined => VObj [] | _ => options end in
  let st := fresh (_mergeOptions DEFAULT_OPTIONS options true) in
  if negb resolved then (Throw (Error "AudioPlayer: container not found."), st)
  else
    (let! o := options_ in
     setOptions (options_object o) ;;;
     _registerOptionEvents options ;;;
     let! o := options_ in
     if negb (string_eqb (src o) "") then
       let meta := get_prop options "meta" in
       load (VStr (src o)) (if ToBoolean meta then meta else VObj []) VUndefined
     else ret tt) st.

(** *** The throttle of [timeupdate] *)

(** The player with the field [_lastTimeEmit], which only the constructor
    and [_handleTimeUpdate] write; the constructor sets it to 0. *)
Record clocked : Type := Build_clocked {
  player_of : player;
  _lastTimeEmit : Z                 (* milliseconds, a value of [Date.now()] *)
}.

(** [_handleTimeUpdate()], with [now] the value [Date.now()] returns. *)
Definition _handleTimeUpdate (now : Z) (c : clocked) : result unit * clocked :=
  if now - _lastTimeEmit c <? 200 then (Ok tt, c)
  else
    let body : M unit :=
      let! a := audio in
      let current := Audio.currentTime a in
      let duration := Audio.duration a in
      set_dom (fun d =>
        Dom.Build (formatTime (VNum current)) (Dom.duration d) (Dom.progressValue d)
                  (Dom.progressMax d) (Dom.attached d)) ;;;
      emit (VStr "timeupdate")
           (VObj [("currentTime", VNum current); ("duration", VNum duration)]) in
    let (r, st) := body (player_of c) in
    (r, Build_clocked st now).

End Methods.

End AudioPlayer.

(* ===================================================================== *)
(** * unnamed/part_000: the functions that differ *)
(* ===================================================================== *)

Module Part000.
Import JS.

Definition n100 : float64 := AudioPlayer.n100.

Fixpoint all_zeros (s : string) : bool :=
  match s with
  | EmptyString => true
  | String c r => Ascii.eqb c "0" && all_zeros r
  end.

(** Whether the whole of [s] matches [\.?0+]. *)
Definition dot_zeros (s : string) : bool :=
  match s with
  | EmptyString => false
  | String "."%char r => negb (string_eqb r "") && all_zeros r
  | _ => all_zeros s
  end.

(** [s.replace(/\.?0+$/, "")]: the leftmost position from which the rest of
    the string matches is where the string is cut. *)
Fixpoint strip_zeros (s : string) : string :=
  if dot_zeros s then EmptyString
  else match s with
       | String c r => String c (strip_zeros r)
       | EmptyString => EmptyString
       end.

(** [formatRate(rate)]: trailing zeros are stripped. *)
Definition formatRate (rate : value) : string :=
  match rate with
  | VNum r =>
      if negb (isFinite r) then "1x"
      else
        let rounded := fdiv (Math_round (fmul r n100)) n100 in
        let text := strip_zeros (toFixed rounded 2) in
        text ++ "x"
  | _ => "1x"
  end.

(** [normalizeTheme(theme)]. *)
Definition normalizeTheme (theme : value) : string :=
  match theme with
  | VStr t =>
      if string_eqb t "light" || string_eqb t "dark" || string_eqb t "auto"
      then t else "auto"
  | _ => "auto"
  end.

(** [DEFAULT_OPTIONS.rates]. *)
Definition DEFAULT_rates : list float64 :=
  Eval vm_compute in map lit ["0.5"; "0.75"; "1"; "1.25"; "1.5"; "2"].

(** The comparison [Array.prototype.includes] makes, on numbers: equal, or
    both NaN. *)
Definition same_value_zero (x y : float64) : bool :=
  feq x y || (isNaN x && isNaN y).

Definition includes (l : list float64) (x : float64) : bool :=
  existsb (same_value_zero x) l.

(** [if (!unique.includes(rate)) unique.push(rate)]. *)
Definition push_unique (unique : list float64) (rate : float64) : list float64 :=
  if negb (includes unique rate) then (unique ++ [rate])%list else unique.

(** [normalizeRates(rates)]; [None] is an argument that is not an array. *)
Definition normalizeRates (rates : option (list value)) : list float64 :=
  match rates with
  | None => DEFAULT_rates
  | Some rates =>
      let cleaned :=
        List.filter (fun rate => isFinite rate && fgt rate AudioPlayer.n0)
                    (map ToNumber rates) in
      let unique := fold_left push_unique cleaned [] in
      match unique with
      | [] => DEFAULT_rates
      | _ => unique
      end
  end.

End Part000.

(* ===================================================================== *)
(** * Properties of the options model and of the player controller *)
(* ===================================================================== *)

Module AudioPlayerSpec.
Import JS AudioPlayer.

(** ** Vocabulary *)

(** [lo <= x <= hi] on numbers (none of the three is NaN then). *)
Definition in_range (lo hi x : float64) : Prop :=
  fle lo x = true /\ fle x hi = true.

(** A string the option guards accept: not blank and already trimmed. *)
Definition is_trimmed (t : string) : Prop := t <> "" /\ trim t = t.

(** The domain of the options record: every numeric field inside its
    interval, the rate bounds ordered, the rate between them, the theme a
    trimmed non-blank string. *)
Record well_formed (o : options) : Prop := {
  wf_volume : in_range n0 n100 (volume o);
  wf_seekStep : in_range n1 n120 (seekStep o);
  wf_min : in_range n0_2 n4 (playbackRateMin o);
  wf_max : in_range n0_2 n4 (playbackRateMax o);
  wf_step : in_range n0_01 n1 (playbackRateStep o);
  wf_bounds : fle (playbackRateMin o) (playbackRateMax o) = true;
  wf_rate : in_range (playbackRateMin o) (playbackRateMax o) (playbackRate o);
  wf_theme : is_trimmed (theme o)
}.

(** The same without the relation between the rate and its bounds, which
    [setOptions] re-establishes at its end. *)
Record well_typed (o : options) : Prop := {
  wt_volume : in_range n0 n100 (volume o);
  wt_seekStep : in_range n1 n120 (seekStep o);
  wt_min : in_range n0_2 n4 (playbackRateMin o);
  wt_max : in_range n0_2 n4 (playbackRateMax o);
  wt_step : in_range n0_01 n1 (playbackRateStep o);
  wt_rate : isFinite (playbackRate o) = true;
  wt_theme : is_trimmed (theme o)
}.

(** A player that has not been destroyed: the media element and the control
    surface are there. *)
Definition live (st : player) : Prop :=
  is_Some (_audio st) /\ is_Some (_dom st).

(** The listener registry maps catalogued names to sets (no handler twice). *)
Definition registry_ok (st : player) : Prop :=
  forall n set, _events st !! n = Some set -> n ∈ EVENTS /\ NoDup set.

(** The handlers registered for a name, in insertion order. *)
Definition registered (st : player) (name : value) : list nat :=
  match name with
  | VStr n => default [] (_events st !! n)
  | _ => []
  end.

(** The emissions recorded in a trace, and the number of calls of a handler. *)
Definition emissions (tr : list effect) : list (value * value) :=
  flat_map (fun e => match e with Emit n p => [(n, p)] | _ => [] end) tr.

Definition calls_to (h : nat) (tr : list effect) : nat :=
  length (List.filter (fun e => match e with Call h' _ => Nat.eqb h' h | _ => false end) tr).

(** [previousSrc ?? this._audio.src] in [load]. *)
Definition previous_src (previousSrc : value) (a : Audio.t) : value :=
  match previousSrc with
  | VUndefined | VNull => VStr (Audio.src a)
  | v => v
  end.

(** Whether [setOptions] reloads and announces a new source. *)
Definition src_announced (previous next : options) (props : list (string * value))
  : bool :=
  bool_decide (is_Some (obj_get props "src"))
  && negb (string_eqb (src next) "")
  && negb (string_eqb (src next) (src previous)).

(** The calls of the public interface. *)
Inductive call : Type :=
| Con (name handler : value)
| Coff (name handler : value)
| Cemit (name payload : value)
| CgetOptions
| CsetOptions (partial : value)
| CresetOptions (partial : value)
| Cload (source meta previousSrc : value)
| Cplay
| Cplay_rejected (error : value)
| Cpause
| Ctoggle
| Cseek (seconds : value)
| CseekBy (deltaSeconds : value)
| CsetPlaybackRate (rate : value)
| CsetVolume (volume0to100 : value)
| Cmute
| Cunmute
| CtoggleMute
| Cdestroy.

Section Environment.
Variable handler_throws : nat -> value -> option value.
Variable callback_registers : nat -> list (value * value).
Variable querySelector : string -> bool.

(** What one emission appends to the trace for one handler: the call, and
    the logged error if the call threw. *)
Definition invocation (payload : value) (h : nat) : list effect :=
  Call h payload ::
  match handler_throws h payload with
  | Some error => [ConsoleError error]
  | None => []
  end.

(** The state after a call (whether it returned or threw). *)
Definition exec (c : call) (st : player) : player :=
  match c with
  | Con name handler => snd (on name handler st)
  | Coff name handler => snd (off name handler st)
  | Cemit name payload => snd (emit handler_throws name payload st)
  | CgetOptions => snd (getOptions st)
  | CsetOptions partial => snd (setOptions handler_throws partial st)
  | CresetOptions partial => snd (resetOptions handler_throws partial st)
  | Cload source meta previousSrc =>
      snd (load handler_throws source meta previousSrc st)
  | Cplay => snd (play st)
  | Cplay_rejected error => snd (play_rejected handler_throws error st)
  | Cpause => snd (pause st)
  | Ctoggle => snd (toggle st)
  | Cseek seconds => snd (seek handler_throws seconds st)
  | CseekBy delta => snd (seekBy handler_throws delta st)
  | CsetPlaybackRate rate => snd (setPlaybackRate rate st)
  | CsetVolume v => snd (setVolume v st)
  | Cmute => snd (mute st)
  | Cunmute => snd (unmute st)
  | CtoggleMute => snd (toggleMute st)
  | Cdestroy => snd (destroy st)
  end.

(** The states a player goes through: the one a successful construction
    leaves, and the one after any call on a reachable state. *)
Inductive reachable : player -> Prop :=
| reachable_new container options st :
    constructor handler_throws callback_registers querySelector container options
    = (Ok tt, st) ->
    reachable st
| reachable_call st c :
    reachable st -> reachable (exec c st).
End Environment.

(** The set after [set.add(h)]. *)
Definition added (h : nat) (set : list nat) : list nat :=
  if bool_decide (h ∈ set) then set else (set ++ [h])%list.

(** The options record and the registry are the same in both states. *)
Definition same_config (st st' : player) : Prop :=
  _options st' = _options st /\ _events st' = _events st.

(** The rate and its bounds are the same in both records. *)
Definition same_rates (x y : options) : Prop :=
  playbackRateMin y = playbackRateMin x /\
  playbackRateMax y = playbackRateMax x /\
  playbackRate y = playbackRate x.

(** What holds of the options and of the registry in every reachable state. *)
Definition consistent (st : player) : Prop :=
  well_formed (_options st) /\ registry_ok st.

(** ** Instances: an environment and a player to run the methods on *)

(** Handlers that all return; handlers of which number 2 throws. *)
Definition quiet : nat -> value -> option value := fun _ _ => None.
Definition grumpy : nat -> value -> option value :=
  fun h _ => if Nat.eqb h 2 then Some (VStr "boom") else None.
Definition no_callbacks : nat -> list (value * value) := fun _ => [].
Definition found : string -> bool := fun _ => true.

(** [new AudioPlayer("#player")]. *)
Definition demo : player :=
  snd (constructor quiet no_callbacks found (VStr "#player") VUndefined).

(** The state once the media element has reported a duration. *)
Definition with_duration (x : float64) (st : player) : player :=
  with_audio (option_map (Audio.set_duration x) (_audio st)) st.

Definition n3 : float64 := Eval vm_compute in lit "3".
Definition n150 : float64 := Eval vm_compute in lit "150".

(** ** Vocabulary of the further properties *)

(** The text [M:SS] of a whole number of seconds, and the text of a rate
    given in hundredths. *)
Definition clock (n : Z) : string :=
  digits (n / 60) ++ ":" ++ padStart0 2 (digits (n mod 60)).
Definition two_decimals (k : Z) : string :=
  digits (k / 100) ++ "." ++ padStart0 2 (digits (k mod 100)).

(** The integers from 0 up to [n], [n] excluded. *)
Definition upto (n : nat) : list Z := map Z.of_nat (seq 0 n).

(** No two elements of the list are equal numbers. *)
Fixpoint distinct (l : list float64) : bool :=
  match l with
  | [] => true
  | x :: r => negb (Part000.includes r x) && distinct r
  end.

(** A rate the variant with a rate list accepts. *)
Definition is_rate (x : float64) : bool := isFinite x && fgt x n0.

(** Half a second. *)
Definition n0_5 : float64 := Eval vm_compute in lit "0.5".

(** The two text options are stored trimmed. *)
Definition tidy (o : options) : Prop :=
  (forall f, downloadFilename o = Some f -> is_trimmed f) /\
  is_trimmed (ariaLabelPrefix o).

(** [Math.min(max, Math.max(min, x))]. *)
Definition clamp (lo hi x : float64) : float64 := Math_min hi (Math_max lo x).

(** The metadata [load] stores for its argument [meta]. *)
Definition meta_of (meta : value) : Meta.t :=
  {| Meta.title := match get_prop meta "title" with VStr t => trim t | _ => "" end;
     Meta.filename := trimmed (get_prop meta "filename");
     Meta.allowDownload := match get_prop meta "allowDownload" with
                           | VBool b => Some b
                           | _ => None
                           end |}.

(** The calls that may write the options record or the registry. *)
Definition writes_config (c : call) : bool :=
  match c with
  | Con _ _ | Coff _ _ | CsetOptions _ | CresetOptions _ | Cload _ _ _ | Cdestroy => true
  | _ => false
  end.

(** Whether two numbers are the same value of the model. *)
#[local] Instance float64_eq_dec : EqDecision float64.
Proof. solve_decision. Defined.

(** What [setVolume(n)] and the element's [volumechange] make of a whole
    volume [n]: the clamp gives [n] back, and so does the rounding of
    [n / 100 * 100]. *)
Definition volume_round_trip (n : Z) : bool :=
  bool_decide (clamp n0 n100 (of_Z n) = of_Z n)
  && bool_decide (Math_round (fmul (fdiv (of_Z n) n100) n100) = of_Z n)
  && isFinite (of_Z n)
  && Bool.eqb (fgt (of_Z n) n0) (0 <? n).

(** The file name [_handleDownload] announces. *)
Definition download_name (st : player) : string :=
  match Meta.filename (_meta st), downloadFilename (_options st) with
  | Some f, _ => f
  | None, Some g => g
  | None, None => ""
  end.

(** The state after a burst of [timeupdate] events of the element at the
    clock values [nows]. *)
Definition after_timeupdates (handler_throws : nat -> value -> option value)
    (nows : list Z) (c : clocked) : clocked :=
  fold_left (fun c now => snd (_handleTimeUpdate handler_throws now c)) nows c.

(** [new AudioPlayer("#player", { src: "a.mp3", lang: "fr",
    events: { play: f5 } })]. *)
Definition tuned_options : value :=
  VObj [("src", VStr "a.mp3"); ("lang", VStr "fr");
        ("events", VObj [("play", VFun 5)])].
Definition tuned : player :=
  snd (constructor quiet no_callbacks found (VStr "#player") tuned_options).

(** The demo player once its rate bounds are [3, 4]. *)
Definition fast : player :=
  snd (setOptions quiet
         (VObj [("playbackRateMin", VNum n3); ("playbackRateMax", VNum n4)]) demo).

(** The three fields no numeric block writes. *)
Definition same_texts (x y : options) : Prop :=
  extra y = extra x /\ downloadFilename y = downloadFilename x
  /\ ariaLabelPrefix y = ariaLabelPrefix x.


(** ** Evaluation of method bodies *)

Ltac run_m :=
  cbv [setOptions getOptions _applyOptions seek seekBy setVolume setPlaybackRate
       mute unmute toggleMute toggle play pause destroy play_rejected
       bind ret modify get throw audio set_audio call_audio dom set_dom
       options_ set_options _updatePlayState _stopProgressLoop _updateRateUI
       _updateRateOptions _updateSeekLabels _syncProgress
       _updateVolumeUI _updateTitle _syncDownloadState
       with_options with_meta with_audio with_dom with_events with_listeners
       with_destroyed with_rafId with_trace
       _options _meta _audio _dom _events _listeners _destroyed _rafId trace
       null_read null_write].

Ltac simp_rec :=
  cbn [Audio.src Audio.currentTime Audio.duration Audio.volume Audio.muted
       Audio.playbackRate Audio.paused
       Audio.set_src Audio.set_currentTime Audio.set_duration Audio.set_volume
       Audio.set_muted Audio.set_playbackRate Audio.set_paused
       Audio.load Audio.pause Audio.play
       src volume muted playbackRate playbackRateMin playbackRateMax
       playbackRateStep seekStep allowDownload showTime theme downloadFilename
       ariaLabelPrefix extra
       set_src set_volume set_muted set_playbackRate
       with_trace with_options with_meta with_audio with_dom with_events
       with_listeners with_destroyed with_rafId
       _options _meta _audio _dom _events _listeners _destroyed _rafId trace
       fst snd].

Ltac eval_step :=
  first
    [ progress run_m
    | progress simp_rec
    | progress (cbv [negb])
    | match goal with
      | H : ?b = _ |- context [if ?b then _ else _] => rewrite H
      | H : ?x = _ |- context [match ?x with Some _ => _ | None => _ end] => rewrite H
      | |- context [(if ?b then _ else _) ?st] => destruct b eqn:?
      | |- context [match obj_get ?p ?k with Some _ => _ | None => _ end] =>
          destruct (obj_get p k) eqn:?
      end ].

Ltac eval_m := repeat eval_step.

Ltac fold_pos_compare :=
  repeat match goal with
  | |- context [Pos.compare_cont Eq ?a ?b] =>
      change (Pos.compare_cont Eq a b) with (Pos.compare a b)
  | H : context [Pos.compare_cont Eq ?a ?b] |- _ =>
      change (Pos.compare_cont Eq a b) with (Pos.compare a b) in H
  end.

Ltac block :=
  let H := fresh in
  intros H; destruct H;
  repeat match goal with
  | |- context [match ?x with _ => _ end] => destruct x eqn:?
  end;
  try (constructor; simpl; assumption).

Ltac unfold_blocks :=
  unfold next_volume, next_muted, next_playbackRate, next_seekStep,
    next_allowDownload, next_playbackRateMin, next_playbackRateMax,
    next_playbackRateStep, next_showTime, next_theme, next_downloadFilename,
    next_ariaLabelPrefix, next_src, swap_bounds, reclamp_rate.

Ltac one_block := intros; unfold_blocks; repeat case_match; repeat split; reflexivity.

(** ** Facts about numbers *)

Lemma SFcompare_antisym x y c :
  SFcompare x y = Some c -> SFcompare y x = Some (CompOpp c).
Proof.
  destruct x as [sx|sx| |sx mx ex], y as [sy|sy| |sy my ey]; simpl;
    try discriminate; intros [= <-];
    try (destruct sx; try destruct sy; reflexivity).
  fold_pos_compare.
  rewrite (Z.compare_antisym ex ey), (Pos.compare_antisym mx my).
  destruct sx, sy; simpl; try reflexivity;
    destruct (ex ?= ey); simpl; try reflexivity.
  all: try now rewrite CompOpp_involutive.
Qed.

Lemma SFcompare_total x y :
  isNaN x = false -> isNaN y = false -> is_Some (SFcompare x y).
Proof. destruct x, y; simpl; try discriminate; eauto. Qed.

Lemma SFcompare_refl x : isNaN x = false -> SFcompare x x = Some Eq.
Proof.
  destruct x as [s|s| |s m e]; simpl; try discriminate; intros _;
    try (destruct s; reflexivity).
  fold_pos_compare.
  destruct s; rewrite Z.compare_refl, Pos.compare_refl; reflexivity.
Qed.

(** Numerically equal values compare alike with any third value. *)
Lemma SFcompare_eq_r x a b :
  SFcompare a b = Some Eq -> SFcompare x a = SFcompare x b.
Proof.
  destruct a as [sa|sa| |sa ma ea], b as [sb|sb| |sb mb eb]; simpl;
    try discriminate; try (destruct sa, sb; discriminate).
  - destruct x; reflexivity.
  - destruct sa, sb; try discriminate; reflexivity.
  - intros H. fold_pos_compare.
    assert (sa = sb /\ ea = eb /\ ma = mb) as (-> & -> & ->); [|reflexivity].
    destruct sa, sb; try discriminate;
      destruct (ea ?= eb) eqn:E; try discriminate;
      apply Z.compare_eq in E; subst; (split; [reflexivity|split; [reflexivity|]]).
    + destruct (Pos.compare ma mb) eqn:E'; try discriminate.
      now apply Pos.compare_eq in E'.
    + injection H as H. now apply Pos.compare_eq.
Qed.

Lemma SFcompare_eq_l x a b :
  SFcompare a b = Some Eq -> SFcompare a x = SFcompare b x.
Proof.
  intros H. pose proof (SFcompare_eq_r x a b H) as Hr.
  destruct (SFcompare a x) eqn:E1.
  - apply SFcompare_antisym in E1. rewrite Hr in E1.
    apply SFcompare_antisym in E1. now rewrite CompOpp_involutive in E1.
  - destruct (SFcompare b x) eqn:E2; [|reflexivity].
    apply SFcompare_antisym in E2. rewrite <- Hr in E2.
    apply SFcompare_antisym in E2. congruence.
Qed.

(** ** The order on numbers *)

Lemma fle_refl x : isNaN x = false -> fle x x = true.
Proof. intros H. unfold fle, SFleb. now rewrite SFcompare_refl. Qed.

Lemma flt_fle x y : flt x y = true -> fle x y = true.
Proof. unfold flt, fle, SFltb, SFleb. destruct (SFcompare x y) as [[]|]; congruence. Qed.

Lemma feq_fle x y : feq x y = true -> fle x y = true.
Proof. unfold feq, fle, SFeqb, SFleb. destruct (SFcompare x y) as [[]|]; congruence. Qed.

Lemma fle_not_nan x y : fle x y = true -> isNaN x = false /\ isNaN y = false.
Proof. unfold fle, SFleb. destruct x, y; simpl; try discriminate; auto. Qed.

(** Of two numbers, one is below the other. *)
Lemma flt_false_fle x y :
  isNaN x = false -> isNaN y = false -> flt x y = false -> fle y x = true.
Proof.
  intros Hx Hy. unfold flt, fle, SFltb, SFleb.
  destruct (SFcompare_total x y Hx Hy) as [c Hc]. rewrite Hc.
  apply SFcompare_antisym in Hc. rewrite Hc. destruct c; simpl; congruence.
Qed.

Lemma feq_fle_r x a b : feq a b = true -> fle x a = fle x b.
Proof.
  unfold feq, SFeqb, fle, SFleb. intros H.
  destruct (SFcompare a b) as [[]|] eqn:E; try discriminate.
  now rewrite (SFcompare_eq_r x a b E).
Qed.

Lemma feq_fle_l x a b : feq a b = true -> fle a x = fle b x.
Proof.
  unfold feq, SFeqb, fle, SFleb. intros H.
  destruct (SFcompare a b) as [[]|] eqn:E; try discriminate.
  now rewrite (SFcompare_eq_l x a b E).
Qed.

Lemma feq_sym a b : feq a b = true -> feq b a = true.
Proof.
  unfold feq, SFeqb. destruct (SFcompare a b) as [[]|] eqn:E; try discriminate.
  apply SFcompare_antisym in E. now rewrite E.
Qed.

(** [Math.max] and [Math.min] return one of their arguments, up to the sign
    of a zero. *)
Lemma Math_max_cases a b :
  isNaN a = false -> isNaN b = false ->
  (flt a b = true /\ Math_max a b = b) \/
  (flt a b = false /\ feq (Math_max a b) a = true).
Proof.
  intros Ha Hb. destruct (flt a b) eqn:E.
  - left. split; [reflexivity|].
    destruct a, b; simpl in *; try discriminate; try rewrite E; try reflexivity.
  - right. split; [reflexivity|].
    destruct a, b; simpl in *; try discriminate; try rewrite E;
      try reflexivity; try (now apply (SFcompare_refl (S754_infinity _)));
      try (unfold feq, SFeqb; now rewrite SFcompare_refl).
Qed.

Lemma Math_min_cases a b :
  isNaN a = false -> isNaN b = false ->
  (flt b a = true /\ Math_min a b = b) \/
  (flt b a = false /\ feq (Math_min a b) a = true).
Proof.
  intros Ha Hb. destruct (flt b a) eqn:E.
  - left. split; [reflexivity|].
    destruct a, b; simpl in *; try discriminate; try rewrite E; try reflexivity.
  - right. split; [reflexivity|].
    destruct a, b; simpl in *; try discriminate; try rewrite E;
      try reflexivity; try (unfold feq, SFeqb; now rewrite SFcompare_refl).
Qed.

(** The clamp [Math.min(max, Math.max(min, num))] lands in [[min, max]]
    whenever [min <= max] and [num] is a number. *)
Lemma clamp_in_range lo hi num :
  fle lo hi = true -> isNaN num = false ->
  in_range lo hi (Math_min hi (Math_max lo num)).
Proof.
  intros Hlh Hn. destruct (fle_not_nan _ _ Hlh) as [Hlo Hhi].
  assert (Hm : isNaN (Math_max lo num) = false /\ fle lo (Math_max lo num) = true).
  { destruct (Math_max_cases lo num Hlo Hn) as [[H1 ->]|[H1 H2]].
    - split; [assumption|now apply flt_fle].
    - split.
      + destruct (Math_max lo num); try reflexivity.
        unfold feq, SFeqb in H2. simpl in H2. discriminate.
      + rewrite (feq_fle_r lo _ lo H2). now apply fle_refl. }
  destruct Hm as [Hm1 Hm2].
  destruct (Math_min_cases hi (Math_max lo num) Hhi Hm1) as [[H1 ->]|[H1 H2]].
  - split; [assumption|now apply flt_fle].
  - split.
    + now rewrite (feq_fle_r lo _ hi H2).
    + rewrite (feq_fle_l hi _ hi H2). now apply fle_refl.
Qed.

Lemma isFinite_not_nan x : isFinite x = true -> isNaN x = false.
Proof. destruct x; simpl; congruence. Qed.

Lemma in_range_finite lo hi x :
  isFinite lo = true -> isFinite hi = true -> in_range lo hi x -> isFinite x = true.
Proof.
  intros Hl Hh [H1 H2].
  destruct x as [s|s| |s m e]; try reflexivity.
  - destruct s.
    + destruct lo; simpl in *; try discriminate; destruct s; discriminate.
    + destruct hi; simpl in *; try discriminate; destruct s; discriminate.
  - destruct lo; discriminate.
Qed.

Lemma clampNumber_Some v lo hi x :
  clampNumber v lo hi = Some x ->
  isFinite (ToNumber v) = true /\ x = Math_min hi (Math_max lo (ToNumber v)).
Proof.
  unfold clampNumber. destruct (isFinite (ToNumber v)); simpl; [|discriminate].
  intros [= <-]. auto.
Qed.

Lemma clampNumber_range v lo hi x :
  fle lo hi = true -> clampNumber v lo hi = Some x -> in_range lo hi x.
Proof.
  intros H Hc. apply clampNumber_Some in Hc as [Hf ->].
  apply clamp_in_range; [assumption|now apply isFinite_not_nan].
Qed.

Lemma clampNumber_finite v lo hi :
  isFinite (ToNumber v) = true ->
  clampNumber v lo hi = Some (Math_min hi (Math_max lo (ToNumber v))).
Proof. unfold clampNumber. now intros ->. Qed.

Lemma clampNumber_not_finite v lo hi :
  isFinite (ToNumber v) = false -> clampNumber v lo hi = None.
Proof. unfold clampNumber. now intros ->. Qed.

(** ** [trim] *)

Lemma trimEnd_idem s : trimEnd (trimEnd s) = trimEnd s.
Proof.
  induction s as [|c r IH]; [reflexivity|]. simpl.
  destruct (trimEnd r) as [|c' r'] eqn:E.
  - destruct (is_space c) eqn:Ec; simpl; [reflexivity|now rewrite Ec].
  - simpl in *. now rewrite IH.
Qed.

Lemma trimStart_length s : (String.length (trimStart s) <= String.length s)%nat.
Proof.
  induction s as [|c r IH]; simpl; [lia|].
  destruct (is_space c); simpl; lia.
Qed.

Lemma trimStart_head s :
  match trimStart s with
  | String c _ => is_space c = false
  | EmptyString => True
  end.
Proof.
  induction s as [|c r IH]; simpl; [exact I|].
  destruct (is_space c) eqn:E; [assumption|]. simpl. assumption.
Qed.

Lemma trimEnd_head c r :
  is_space c = false -> exists r', trimEnd (String c r) = String c r'.
Proof.
  intros H. simpl. destruct (trimEnd r); rewrite ?H; eauto.
Qed.

Lemma trim_idem s : trim (trim s) = trim s.
Proof.
  unfold trim.
  assert (H : trimStart (trimEnd (trimStart s)) = trimEnd (trimStart s)).
  { pose proof (trimStart_head s) as Hh.
    destruct (trimStart s) as [|c r]; [reflexivity|].
    destruct (trimEnd_head c r Hh) as [r' ->]. simpl. now rewrite Hh. }
  rewrite H. apply trimEnd_idem.
Qed.

Lemma string_eqb_eq a b : string_eqb a b = true <-> a = b.
Proof. apply String.eqb_eq. Qed.

Lemma string_eqb_neq a b : string_eqb a b = false <-> a <> b.
Proof. apply String.eqb_neq. Qed.

Lemma trimmed_Some v t : trimmed v = Some t -> is_trimmed t.
Proof.
  destruct v; try discriminate. simpl.
  destruct (string_eqb (trim s) "") eqn:E; [discriminate|].
  intros [= <-]. split; [now apply string_eqb_neq|apply trim_idem].
Qed.

(** ** The domain of the options record *)

Lemma in_range_ordered lo hi x : in_range lo hi x -> isNaN x = false.
Proof. intros [H _]. now apply fle_not_nan in H. Qed.

Lemma in_range_feq lo hi x y : feq x y = true -> in_range lo hi x -> in_range lo hi y.
Proof.
  intros E [H1 H2]. split.
  - now rewrite <- (feq_fle_r lo x y E).
  - now rewrite <- (feq_fle_l hi x y E).
Qed.

Lemma finite_0_2 : isFinite n0_2 = true. Proof. reflexivity. Qed.
Lemma finite_4 : isFinite n4 = true. Proof. reflexivity. Qed.

Lemma bound_finite x : in_range n0_2 n4 x -> isFinite x = true.
Proof. apply in_range_finite; reflexivity. Qed.

Lemma well_formed_typed o : well_formed o -> well_typed o.
Proof.
  intros []. split; try assumption.
  eapply in_range_finite; [| |eassumption]; now apply bound_finite.
Qed.

Lemma Math_max_finite a b :
  isFinite a = true -> isFinite b = true -> isFinite (Math_max a b) = true.
Proof.
  destruct a, b; simpl; try discriminate; intros _ _; try reflexivity;
    match goal with |- context [if ?c then _ else _] => destruct c end; reflexivity.
Qed.

Lemma Math_min_finite a b :
  isFinite a = true -> isFinite b = true -> isFinite (Math_min a b) = true.
Proof.
  destruct a, b; simpl; try discriminate; intros _ _; try reflexivity;
    match goal with |- context [if ?c then _ else _] => destruct c end; reflexivity.
Qed.

Lemma clampNumber_isFinite v lo hi x :
  isFinite lo = true -> isFinite hi = true ->
  clampNumber v lo hi = Some x -> isFinite x = true.
Proof.
  intros Hl Hh Hc. apply clampNumber_Some in Hc as [Hf ->].
  apply Math_min_finite; [assumption|]. now apply Math_max_finite.
Qed.

(** *** Each block of [setOptions] keeps the fields in their types *)

Section Blocks.
Variable partial : list (string * value).

Lemma next_volume_typed o : well_typed o -> well_typed (next_volume partial o).
Proof.
  unfold next_volume. block. constructor; simpl; try assumption.
  eapply clampNumber_range; [|eassumption]. reflexivity.
Qed.

Lemma next_muted_typed o : well_typed o -> well_typed (next_muted partial o).
Proof. unfold next_muted. block. Qed.

Lemma next_playbackRate_typed o :
  well_typed o -> well_typed (next_playbackRate partial o).
Proof.
  unfold next_playbackRate. block. constructor; simpl; try assumption.
  eapply clampNumber_isFinite; [| |eassumption]; now apply bound_finite.
Qed.

Lemma next_seekStep_typed o : well_typed o -> well_typed (next_seekStep partial o).
Proof.
  unfold next_seekStep. block. constructor; simpl; try assumption.
  eapply clampNumber_range; [|eassumption]. reflexivity.
Qed.

Lemma next_allowDownload_typed o :
  well_typed o -> well_typed (next_allowDownload partial o).
Proof. unfold next_allowDownload. block. Qed.

Lemma next_playbackRateMin_typed o :
  well_typed o -> well_typed (next_playbackRateMin partial o).
Proof.
  unfold next_playbackRateMin. block. constructor; simpl; try assumption.
  eapply clampNumber_range; [|eassumption]. reflexivity.
Qed.

Lemma next_playbackRateMax_typed o :
  well_typed o -> well_typed (next_playbackRateMax partial o).
Proof.
  unfold next_playbackRateMax. block. constructor; simpl; try assumption.
  eapply clampNumber_range; [|eassumption]. reflexivity.
Qed.

Lemma next_playbackRateStep_typed o :
  well_typed o -> well_typed (next_playbackRateStep partial o).
Proof.
  unfold next_playbackRateStep. block. constructor; simpl; try assumption.
  eapply clampNumber_range; [|eassumption]. reflexivity.
Qed.

Lemma sanitized_typed o : well_typed o -> well_typed (sanitized partial o).
Proof.
  intros H. unfold sanitized.
  apply next_playbackRateStep_typed, next_playbackRateMax_typed,
    next_playbackRateMin_typed, next_allowDownload_typed, next_seekStep_typed,
    next_playbackRate_typed, next_muted_typed, next_volume_typed, H.
Qed.

Lemma next_showTime_wf o : well_formed o -> well_formed (next_showTime partial o).
Proof. unfold next_showTime. block. Qed.

Lemma next_theme_wf o : well_formed o -> well_formed (next_theme partial o).
Proof.
  unfold next_theme. block; constructor; simpl; try assumption.
  destruct (trimmed v) eqn:E; simpl.
  - eapply trimmed_Some; eassumption.
  - split; [discriminate|reflexivity].
Qed.

Lemma next_downloadFilename_wf o :
  well_formed o -> well_formed (next_downloadFilename partial o).
Proof. unfold next_downloadFilename. block. Qed.

Lemma next_ariaLabelPrefix_wf o :
  well_formed o -> well_formed (next_ariaLabelPrefix partial o).
Proof. unfold next_ariaLabelPrefix. block. Qed.

Lemma next_src_wf o : well_formed o -> well_formed (next_src partial o).
Proof. unfold next_src. block. Qed.
End Blocks.

(** *** The swap and the re-clamp *)

Lemma swap_bounds_min o :
  playbackRateMin (swap_bounds o) =
  if fgt (playbackRateMin o) (playbackRateMax o)
  then playbackRateMax o else playbackRateMin o.
Proof. unfold swap_bounds. now destruct (fgt _ _). Qed.

Lemma swap_bounds_max o :
  playbackRateMax (swap_bounds o) =
  if fgt (playbackRateMin o) (playbackRateMax o)
  then playbackRateMin o else playbackRateMax o.
Proof. unfold swap_bounds. now destruct (fgt _ _). Qed.

Lemma swap_bounds_rate o : playbackRate (swap_bounds o) = playbackRate o.
Proof. unfold swap_bounds. now destruct (fgt _ _). Qed.

Lemma swap_bounds_typed o : well_typed o -> well_typed (swap_bounds o).
Proof.
  intros []. unfold swap_bounds. destruct (fgt _ _); constructor; simpl; assumption.
Qed.

Lemma swap_bounds_ordered o :
  well_typed o ->
  fle (playbackRateMin (swap_bounds o)) (playbackRateMax (swap_bounds o)) = true.
Proof.
  intros H. rewrite swap_bounds_min, swap_bounds_max.
  destruct (fgt (playbackRateMin o) (playbackRateMax o)) eqn:E.
  - now apply flt_fle.
  - apply flt_false_fle; [| |exact E];
      eapply in_range_ordered; [apply (wt_max o H)|apply (wt_min o H)].
Qed.

Lemma reclamp_rate_min o : playbackRateMin (reclamp_rate o) = playbackRateMin o.
Proof. unfold reclamp_rate. repeat case_match; reflexivity. Qed.

Lemma reclamp_rate_max o : playbackRateMax (reclamp_rate o) = playbackRateMax o.
Proof. unfold reclamp_rate. repeat case_match; reflexivity. Qed.

(** The rate stored by the re-clamp is the clamp of the rate it found, up to
    the sign of a zero. *)
Lemma reclamp_rate_rate o :
  isFinite (playbackRate o) = true ->
  fle (playbackRateMin o) (playbackRateMax o) = true ->
  feq (Math_min (playbackRateMax o) (Math_max (playbackRateMin o) (playbackRate o)))
      (playbackRate (reclamp_rate o)) = true.
Proof.
  intros Hf Hb. unfold reclamp_rate. rewrite clampNumber_finite by exact Hf. simpl.
  destruct (feq _ (playbackRate o)) eqn:E; simpl; [assumption|].
  unfold feq, SFeqb. rewrite SFcompare_refl; [reflexivity|].
  eapply in_range_ordered, clamp_in_range; [eassumption|].
  now apply isFinite_not_nan.
Qed.

Lemma reclamp_rate_wf o :
  well_typed o -> fle (playbackRateMin o) (playbackRateMax o) = true ->
  well_formed (reclamp_rate o).
Proof.
  intros Ht Hb.
  assert (Hr : in_range (playbackRateMin o) (playbackRateMax o)
                 (playbackRate (reclamp_rate o))).
  { eapply in_range_feq; [apply reclamp_rate_rate; [apply (wt_rate o Ht)|exact Hb]|].
    apply clamp_in_range; [exact Hb|]. apply isFinite_not_nan, (wt_rate o Ht). }
  destruct Ht. unfold reclamp_rate in *.
  repeat case_match; constructor; simpl in *; assumption.
Qed.

(** [setOptions] keeps the record in its domain. *)
Lemma next_options_typed_wf o partial :
  well_typed o -> well_formed (next_options o partial).
Proof.
  intros H. unfold next_options.
  apply next_src_wf, next_ariaLabelPrefix_wf, next_downloadFilename_wf,
    next_theme_wf, next_showTime_wf.
  pose proof (swap_bounds_typed _ (sanitized_typed partial o H)).
  apply reclamp_rate_wf; [assumption|].
  apply swap_bounds_ordered, sanitized_typed, H.
Qed.

Lemma next_options_wf o partial :
  well_formed o -> well_formed (next_options o partial).
Proof. intros H. now apply next_options_typed_wf, well_formed_typed. Qed.

Lemma DEFAULT_OPTIONS_wf : well_formed DEFAULT_OPTIONS.
Proof. constructor; try (split; reflexivity); try reflexivity. split; [discriminate|reflexivity]. Qed.

Lemma well_typed_DEFAULT : well_typed DEFAULT_OPTIONS.
Proof. apply well_formed_typed, DEFAULT_OPTIONS_wf. Qed.

(** *** [_mergeOptions] *)

Lemma default_clamp_range v lo hi d :
  fle lo hi = true -> in_range lo hi d ->
  in_range lo hi (default d (clampNumber v lo hi)).
Proof.
  intros H Hd. destruct (clampNumber v lo hi) eqn:E; simpl; [|assumption].
  eapply clampNumber_range; eassumption.
Qed.

Lemma _mergeOptions_typed base override b :
  well_typed base -> well_typed (_mergeOptions base override b).
Proof.
  intros [Hv Hs Hmin Hmax Hst Hr Ht]. unfold _mergeOptions.
  constructor; simpl.
  - now apply default_clamp_range.
  - now apply default_clamp_range.
  - destruct (fgt _ _); now apply default_clamp_range.
  - destruct (fgt _ _); now apply default_clamp_range.
  - now apply default_clamp_range.
  - match goal with |- context [clampNumber ?v ?lo ?hi] =>
      destruct (clampNumber v lo hi) eqn:E end; simpl; [|reflexivity].
    eapply clampNumber_isFinite; [| |exact E];
      destruct (fgt _ _); apply bound_finite; now apply default_clamp_range.
  - destruct (trimmed _) eqn:E; simpl; [|assumption].
    eapply trimmed_Some; eassumption.
Qed.




(** ** Emission *)

Section Run.
Variable handler_throws : nat -> value -> option value.
Variable callback_registers : nat -> list (value * value).
Variable querySelector : string -> bool.

Lemma if_same {A} (b : bool) (x : A) : (if b then x else x) = x.
Proof. now destruct b. Qed.

Lemma with_trace_id st : with_trace (trace st) st = st.
Proof. now destruct st. Qed.

Lemma set_src_id o : set_src (src o) o = o.
Proof. now destruct o. Qed.

Lemma set_playbackRate_id o : set_playbackRate (playbackRate o) o = o.
Proof. now destruct o. Qed.

(** The [forEach] of [emit] runs every handler of the set, whatever the
    earlier ones did. *)
Lemma fold_invoke payload set st :
  fold_left (invoke handler_throws payload) set st =
  with_trace (trace st ++ flat_map (invocation handler_throws payload) set)%list st.
Proof.
  revert st. induction set as [|h set IH]; intros st; simpl.
  - now rewrite app_nil_r, with_trace_id.
  - rewrite IH. unfold invoke, invocation.
    destruct (handler_throws h payload); destruct st; simpl;
      now rewrite <- ?app_assoc.
Qed.

Lemma emit_run name payload st :
  emit handler_throws name payload st =
  (Ok tt, with_trace (trace st ++ Emit name payload
                        :: flat_map (invocation handler_throws payload)
                                    (registered st name))%list st).
Proof.
  unfold emit, bind, modify, registered. destruct name; simpl;
    try (destruct st; simpl; now rewrite ?app_nil_r).
  destruct (_events st !! s) as [set|] eqn:E.
  - destruct st; simpl in *. rewrite ?E, fold_invoke. simpl.
    now rewrite <- app_assoc.
  - destruct st; simpl in *. now rewrite ?E.
Qed.

Lemma emissions_app a b : emissions (a ++ b) = (emissions a ++ emissions b)%list.
Proof. unfold emissions. apply flat_map_app. Qed.

Lemma emissions_invocations payload set :
  emissions (flat_map (invocation handler_throws payload) set) = [].
Proof.
  induction set as [|h set IH]; [reflexivity|].
  simpl. unfold emissions in *. simpl.
  destruct (handler_throws h payload); simpl; exact IH.
Qed.

Lemma calls_to_app h a b : calls_to h (a ++ b) = (calls_to h a + calls_to h b)%nat.
Proof. unfold calls_to. now rewrite List.filter_app, length_app. Qed.

Lemma calls_to_invocations h payload set :
  calls_to h (flat_map (invocation handler_throws payload) set)
  = count_occ Nat.eq_dec set h.
Proof.
  induction set as [|h' set IH]; [reflexivity|].
  cbn [flat_map]. rewrite calls_to_app, IH. cbn [count_occ].
  unfold invocation, calls_to.
  destruct (handler_throws h' payload); cbn [List.filter length];
    destruct (Nat.eqb_spec h' h), (Nat.eq_dec h' h); try congruence; reflexivity.
Qed.

(** ** [load] on a live player *)

Lemma load_live st a d s meta previousSrc :
  _audio st = Some a -> _dom st = Some d -> s <> "" -> meta <> VNull ->
  exists st' a',
    load handler_throws (VStr s) meta previousSrc st = (Ok tt, st') /\
    _options st' = set_src s (_options st) /\
    _audio st' = Some a' /\ Audio.src a' = s /\
    Audio.playbackRate a' = playbackRate (_options st) /\
    is_Some (_dom st') /\
    _events st' = _events st /\
    _destroyed st' = _destroyed st /\
    trace st' = (trace st ++
      (if strict_eq (VStr s) (previous_src previousSrc a) then []
       else Emit (VStr "srcchange") (VObj [("src", VStr s)])
            :: flat_map (invocation handler_throws (VObj [("src", VStr s)]))
                        (registered st (VStr "srcchange"))))%list.
Proof.
  intros Ha Hd Hs Hm. destruct st; simpl in Ha, Hd; subst.
  apply String.eqb_neq in Hs.
  unfold load. run_m. unfold string_eqb. rewrite Hs.
  destruct _rafId0, meta; try contradiction.
  all: simp_rec; rewrite ?if_same.
  all: destruct previousSrc; cbv [previous_src].
  all: match goal with
       | |- context [strict_eq ?x ?y] => destruct (strict_eq x y) eqn:E
       end.
  all: cbv [negb]; rewrite ?emit_run.
  all: do 2 eexists; (split; [reflexivity|]).
  all: simp_rec; rewrite ?if_same; cbv [registered].
  all: repeat (split; [try reflexivity; try (eexists; reflexivity)|]).
  all: rewrite ?app_nil_r; reflexivity.
Qed.

(** ** [setOptions] on a live player *)

Lemma setOptions_live st a d props :
  _audio st = Some a -> _dom st = Some d ->
  let next := next_options (_options st) props in
  exists st' a',
    setOptions handler_throws (VObj props) st = (Ok next, st') /\
    _options st' = next /\
    _audio st' = Some a' /\
    Audio.playbackRate a' = playbackRate next /\
    is_Some (_dom st') /\
    _events st' = _events st /\
    _destroyed st' = _destroyed st /\
    trace st' = (trace st ++
      (if src_announced (_options st) next props
       then Emit (VStr "srcchange") (VObj [("src", VStr (src next))])
            :: flat_map (invocation handler_throws (VObj [("src", VStr (src next))]))
                        (registered st (VStr "srcchange"))
       else []))%list.
Proof.
  intros Ha Hd next. destruct st; simpl in Ha, Hd; subst.
  simpl in next. unfold src_announced.
  run_m. simp_rec. rewrite ?if_same. fold next. rewrite !set_playbackRate_id.
  eval_m.
  all: try (do 2 eexists; (split; [reflexivity|]); simp_rec;
            repeat (split; [try reflexivity; try (eexists; reflexivity)|]);
            cbn; rewrite ?andb_false_r; now rewrite app_nil_r).
  all: match goal with
       | H : (if string_eqb ?s "" then false else true) = true
         |- context [load handler_throws (VStr ?s) ?m ?p ?st0] =>
           let Hs := fresh "Hs" in
           assert (Hs : s <> "")
             by (apply String.eqb_neq; unfold string_eqb in H;
                 destruct (String.eqb s ""); [discriminate|reflexivity]);
           destruct (load_live st0 _ _ s m p eq_refl eq_refl Hs)
             as (st' & a' & Hl & Ho & Hau & Hsrc & Hr & Hdm & Hev & Hds & Htr);
           [discriminate|]
       end.
  all: rewrite Hl; destruct st'; simp_rec; cbn [_options _audio _dom _events _destroyed trace] in *.
  all: subst; rewrite set_src_id.
  all: do 2 eexists; (split; [reflexivity|]).
  all: repeat (split; [try reflexivity; try assumption|]).
  all: cbv [previous_src strict_eq registered]; simp_rec.
  all: unfold string_eqb; destruct (String.eqb (src next) (src _options0));
    reflexivity.
Qed.
End Run.


(** ** The registry *)

Section Registry.
Variable handler_throws : nat -> value -> option value.

Lemma on_valid n h st :
  n ∈ EVENTS ->
  on (VStr n) (VFun h) st =
  (Ok tt, with_events (<[n := added h (default [] (_events st !! n))]> (_events st)) st).
Proof.
  intros Hn. unfold on. rewrite bool_decide_eq_true_2 by exact Hn. reflexivity.
Qed.

Lemma on_invalid name handler st :
  ~ (exists n h, name = VStr n /\ n ∈ EVENTS /\ handler = VFun h) ->
  on name handler st = (Ok tt, st).
Proof.
  intros H. unfold on. destruct name; try reflexivity.
  destruct handler; try reflexivity.
  destruct (bool_decide (s ∈ EVENTS)) eqn:E; [|reflexivity].
  apply bool_decide_eq_true_1 in E. exfalso. apply H. eauto.
Qed.

Lemma added_elem h set : h ∈ added h set.
Proof.
  unfold added. destruct (bool_decide (h ∈ set)) eqn:E.
  - now apply bool_decide_eq_true_1 in E.
  - apply elem_of_app. right. now apply list_elem_of_singleton.
Qed.

Lemma added_NoDup h set : NoDup set -> NoDup (added h set).
Proof.
  intros H. unfold added. destruct (bool_decide (h ∈ set)) eqn:E; [assumption|].
  apply bool_decide_eq_false_1 in E.
  apply NoDup_app. split; [assumption|]. split.
  - intros x Hx Hx'. apply list_elem_of_singleton in Hx'. now subst.
  - apply NoDup_singleton.
Qed.

Lemma added_idem h set : added h (added h set) = added h set.
Proof.
  unfold added at 1. now rewrite bool_decide_eq_true_2 by apply added_elem.
Qed.

Lemma on_registry_ok name handler st :
  registry_ok st -> registry_ok (snd (on name handler st)).
Proof.
  intros Hok. unfold on. destruct name; try exact Hok.
  destruct handler; try exact Hok.
  destruct (bool_decide (s ∈ EVENTS)) eqn:E; [|exact Hok].
  apply bool_decide_eq_true_1 in E. intros n set. cbn.
  destruct (decide (s = n)) as [->|Hne].
  - rewrite lookup_insert_eq. intros [= <-]. split; [assumption|].
    apply added_NoDup.
    destruct (_events st !! n) eqn:El; simpl; [|apply NoDup_nil_2].
    now apply (Hok n l).
  - rewrite lookup_insert_ne by exact Hne. apply Hok.
Qed.

Lemma on_frame name handler st :
  fst (on name handler st) = Ok tt /\
  _options (snd (on name handler st)) = _options st /\
  _audio (snd (on name handler st)) = _audio st /\
  _dom (snd (on name handler st)) = _dom st /\
  _destroyed (snd (on name handler st)) = _destroyed st /\
  trace (snd (on name handler st)) = trace st.
Proof.
  unfold on. destruct name; try (repeat split; reflexivity).
  destruct handler; try (repeat split; reflexivity).
  destruct (bool_decide (s ∈ EVENTS)); repeat split; reflexivity.
Qed.

Lemma off_registry_ok name handler st :
  registry_ok st -> registry_ok (snd (off name handler st)).
Proof.
  intros Hok. unfold off. destruct name; try exact Hok. cbn.
  destruct (_events st !! s) as [set0|] eqn:El; [|exact Hok].
  destruct handler; try exact Hok.
  intros n set. cbn.
  destruct (decide (s = n)) as [->|Hne].
  - rewrite lookup_insert_eq. intros [= <-].
    destruct (Hok n set0 El) as [H1 H2]. split; [assumption|].
    now apply NoDup_filter.
  - rewrite lookup_insert_ne by exact Hne. apply Hok.
Qed.

Lemma off_options name handler st :
  _options (snd (off name handler st)) = _options st.
Proof.
  unfold off. destruct name; try reflexivity. cbn.
  destruct (_events st !! s); [|reflexivity]. now destruct handler.
Qed.

Lemma register_all_cons n h entries st :
  register_all ((n, h) :: entries) st =
  match on n h st with
  | (Ok _, st') => register_all entries st'
  | (Throw e, st') => (Throw e, st')
  end.
Proof. reflexivity. Qed.

Lemma register_all_frame entries st :
  fst (register_all entries st) = Ok tt /\
  _options (snd (register_all entries st)) = _options st /\
  _audio (snd (register_all entries st)) = _audio st /\
  _dom (snd (register_all entries st)) = _dom st /\
  _destroyed (snd (register_all entries st)) = _destroyed st /\
  trace (snd (register_all entries st)) = trace st /\
  (registry_ok st -> registry_ok (snd (register_all entries st))).
Proof.
  revert st. induction entries as [|[n h] entries IH]; intros st.
  - cbn. repeat (split; [reflexivity|]). auto.
  - rewrite register_all_cons.
    destruct (on_frame n h st) as (H0 & H1 & H2 & H3 & H4 & H5).
    pose proof (on_registry_ok n h st) as H6.
    destruct (on n h st) as [r st1]. cbn [fst snd] in *. subst r.
    destruct (IH st1) as (I0 & I1 & I2 & I3 & I4 & I5 & I6).
    repeat (split; [congruence|]). auto.
Qed.
End Registry.


(** ** What each call leaves alone *)

Section Frames.
Variable handler_throws : nat -> value -> option value.
Variable callback_registers : nat -> list (value * value).
Variable querySelector : string -> bool.

Lemma emit_config name payload st :
  same_config st (snd (emit handler_throws name payload st)).
Proof. rewrite emit_run. split; reflexivity. Qed.

Lemma play_config st : same_config st (snd (play st)).
Proof. unfold same_config. destruct st as [o m [a|] [d|] ev ls [|] raf tr]; split; reflexivity. Qed.

Lemma pause_config st : same_config st (snd (pause st)).
Proof. unfold same_config. destruct st as [o m [a|] [d|] ev ls [|] raf tr]; split; reflexivity. Qed.

Lemma toggle_config st : same_config st (snd (toggle st)).
Proof.
  unfold same_config.
  destruct st as [o m [[? ? ? ? ? ? []]|] [d|] ev ls [|] raf tr]; split; reflexivity.
Qed.

Lemma seek_config seconds st :
  same_config st (snd (seek handler_throws seconds st)).
Proof.
  unfold same_config. destruct st as [o m [a|] [d|] ev ls ds raf tr];
    eval_m; rewrite ?(emit_run handler_throws); simp_rec; auto.
Qed.

Lemma seekBy_config delta st :
  same_config st (snd (seekBy handler_throws delta st)).
Proof.
  unfold same_config, seekBy. destruct (negb (isFinite (ToNumber delta))); [split; reflexivity|].
  destruct st as [o m [a|] [d|] ev ls ds raf tr]; cbn [bind audio _audio];
    try (split; reflexivity); apply seek_config.
Qed.

Lemma setPlaybackRate_config rate st : same_config st (snd (setPlaybackRate rate st)).
Proof.
  unfold same_config, setPlaybackRate, bind, options_.
  destruct (clampNumber _ _ _); [|split; reflexivity].
  destruct st as [o m [a|] [d|] ev ls ds raf tr]; split; reflexivity.
Qed.

Lemma setVolume_config v st : same_config st (snd (setVolume v st)).
Proof.
  unfold same_config, setVolume.
  destruct (clampNumber _ _ _); [|split; reflexivity].
  destruct st as [o m [a|] [d|] ev ls ds raf tr]; try (split; reflexivity).
  all: eval_m; simp_rec; split; reflexivity.
Qed.

Lemma mute_config st : same_config st (snd (mute st)).
Proof. unfold same_config. destruct st as [o m [a|] [d|] ev ls ds raf tr]; split; reflexivity. Qed.

Lemma unmute_config st : same_config st (snd (unmute st)).
Proof. unfold same_config. destruct st as [o m [a|] [d|] ev ls ds raf tr]; split; reflexivity. Qed.

Lemma toggleMute_config st : same_config st (snd (toggleMute st)).
Proof. unfold same_config. destruct st as [o m [a|] [d|] ev ls ds raf tr]; split; reflexivity. Qed.

Lemma set_src_wf s o : well_formed o -> well_formed (set_src s o).
Proof. intros []. constructor; assumption. Qed.

(** [load] touches the options only through [src]. *)
Lemma load_config source meta previousSrc st :
  _events (snd (load handler_throws source meta previousSrc st)) = _events st /\
  (_options (snd (load handler_throws source meta previousSrc st)) = _options st \/
   exists s, _options (snd (load handler_throws source meta previousSrc st))
             = set_src s (_options st)).
Proof.
  destruct source as [| | | |s| |]; try (split; [reflexivity|left; reflexivity]).
  destruct (string_eqb s "") eqn:Es.
  { unfold load. rewrite Es. split; [reflexivity|left; reflexivity]. }
  destruct (_audio st) as [a|] eqn:Ha, (_dom st) as [d|] eqn:Hd.
  - assert (Hdec : meta = VNull \/ meta <> VNull)
      by (destruct meta; (now left) || (right; discriminate)).
    destruct Hdec as [->|Hm].
    + destruct st as [o m a' d' ev ls ds raf tr]. cbn in Ha, Hd. subst a' d'.
      unfold load. rewrite Es.
      destruct previousSrc, raf; eval_m; simp_rec; (split; [reflexivity|left; reflexivity]).
    + apply String.eqb_neq in Es.
      destruct (load_live handler_throws st a d s meta previousSrc Ha Hd Es Hm)
        as (st' & a' & Hl & Ho & _ & _ & _ & _ & Hev & _).
      rewrite Hl. cbn [snd]. split; [assumption|right; eauto].
  - destruct st as [o m a' d' ev ls ds raf tr]. cbn in Ha, Hd. subst a' d'.
    unfold load. rewrite Es.
    destruct previousSrc, raf; eval_m; simp_rec; (split; [reflexivity|left; reflexivity]).
  - destruct st as [o m a' d' ev ls ds raf tr]. cbn in Ha, Hd. subst a' d'.
    unfold load. rewrite Es.
    destruct previousSrc, raf; eval_m; simp_rec; (split; [reflexivity|left; reflexivity]).
  - destruct st as [o m a' d' ev ls ds raf tr]. cbn in Ha, Hd. subst a' d'.
    unfold load. rewrite Es.
    destruct previousSrc, raf; eval_m; simp_rec; (split; [reflexivity|left; reflexivity]).
Qed.

(** [setOptions] leaves the registry alone and the options in their
    domain, in whatever state it is called. *)
Lemma setOptions_props_config props st :
  _events (snd (setOptions handler_throws (VObj props) st)) = _events st /\
  _options (snd (setOptions handler_throws (VObj props) st))
  = next_options (_options st) props.
Proof.
  destruct (_audio st) as [a|] eqn:Ha, (_dom st) as [d|] eqn:Hd.
  - destruct (setOptions_live handler_throws st a d props Ha Hd)
      as (st' & a' & Hl & Ho & _ & _ & _ & Hev & _).
    rewrite Hl. cbn [snd]. split; assumption.
  - destruct st as [o m a' d' ev ls ds raf tr]. cbn in Ha, Hd. subst a' d'.
    eval_m; simp_rec; split; reflexivity.
  - destruct st as [o m a' d' ev ls ds raf tr]. cbn in Ha, Hd. subst a' d'.
    eval_m; simp_rec; split; reflexivity.
  - destruct st as [o m a' d' ev ls ds raf tr]. cbn in Ha, Hd. subst a' d'.
    eval_m; simp_rec; split; reflexivity.
Qed.

Lemma setOptions_config partial st :
  well_formed (_options st) ->
  _events (snd (setOptions handler_throws partial st)) = _events st /\
  well_formed (_options (snd (setOptions handler_throws partial st))).
Proof.
  intros Hwf.
  destruct partial as [| | | | |props|];
    try (split; [reflexivity|exact Hwf]).
  - change (setOptions handler_throws VUndefined st)
      with (setOptions handler_throws (VObj []) st).
    destruct (setOptions_props_config [] st) as [-> ->].
    split; [reflexivity|now apply next_options_wf].
  - destruct (setOptions_props_config props st) as [-> ->].
    split; [reflexivity|now apply next_options_wf].
Qed.

Lemma resetOptions_config partial st :
  well_formed (_options st) ->
  _events (snd (resetOptions handler_throws partial st)) = _events st /\
  well_formed (_options (snd (resetOptions handler_throws partial st))).
Proof. intros Hwf. unfold resetOptions. now apply setOptions_config. Qed.

Lemma destroy_config st :
  _options (snd (destroy st)) = _options st /\
  (_events (snd (destroy st)) = _events st \/ _events (snd (destroy st)) = ∅).
Proof.
  destruct st as [o m [a|] [[? ? ? ? []]|] ev ls [|] [r|] tr];
    (split; [reflexivity|(left; reflexivity) || (right; reflexivity)]).
Qed.

(** ** Construction *)

Lemma ret_frame st :
  fst (ret tt st) = Ok tt /\
  _options (snd (ret tt st)) = _options st /\
  _audio (snd (ret tt st)) = _audio st /\
  _dom (snd (ret tt st)) = _dom st /\
  _destroyed (snd (ret tt st)) = _destroyed st /\
  trace (snd (ret tt st)) = trace st /\
  (registry_ok st -> registry_ok (snd (ret tt st))).
Proof. cbn. repeat (split; [reflexivity|]). auto. Qed.

Lemma _registerOptionEvents_frame options st :
  fst (_registerOptionEvents callback_registers options st) = Ok tt /\
  _options (snd (_registerOptionEvents callback_registers options st)) = _options st /\
  _audio (snd (_registerOptionEvents callback_registers options st)) = _audio st /\
  _dom (snd (_registerOptionEvents callback_registers options st)) = _dom st /\
  _destroyed (snd (_registerOptionEvents callback_registers options st)) = _destroyed st /\
  trace (snd (_registerOptionEvents callback_registers options st)) = trace st /\
  (registry_ok st ->
   registry_ok (snd (_registerOptionEvents callback_registers options st))).
Proof.
  unfold _registerOptionEvents, bind.
  assert (H1 : exists m1 : M unit,
    (match get_prop options "on" with
     | VFun f => register_all (callback_registers f)
     | VObj props =>
         register_all (map (fun kv => (VStr (fst kv), snd kv)) (entries props))
     | _ => ret tt
     end) = m1 /\ (m1 = ret tt \/ exists l, m1 = register_all l)).
  { destruct (get_prop options "on"); eexists; (split; [reflexivity|]); eauto. }
  destruct H1 as (m1 & -> & H1).
  assert (H2 : exists m2 : M unit,
    (match get_prop options "events" with
     | VObj props =>
         register_all (map (fun kv => (VStr (fst kv), snd kv)) (entries props))
     | _ => ret tt
     end) = m2 /\ (m2 = ret tt \/ exists l, m2 = register_all l)).
  { destruct (get_prop options "events"); eexists; (split; [reflexivity|]); eauto. }
  destruct H2 as (m2 & -> & H2).
  assert (F1 : fst (m1 st) = Ok tt /\ _options (snd (m1 st)) = _options st /\
               _audio (snd (m1 st)) = _audio st /\ _dom (snd (m1 st)) = _dom st /\
               _destroyed (snd (m1 st)) = _destroyed st /\
               trace (snd (m1 st)) = trace st /\
               (registry_ok st -> registry_ok (snd (m1 st)))).
  { destruct H1 as [->|[l ->]]; [apply ret_frame|apply register_all_frame]. }
  destruct (m1 st) as [r1 st1]. cbn [fst snd] in F1.
  destruct F1 as (-> & F1 & F2 & F3 & F4 & F5 & F6).
  assert (G1 : fst (m2 st1) = Ok tt /\ _options (snd (m2 st1)) = _options st1 /\
               _audio (snd (m2 st1)) = _audio st1 /\ _dom (snd (m2 st1)) = _dom st1 /\
               _destroyed (snd (m2 st1)) = _destroyed st1 /\
               trace (snd (m2 st1)) = trace st1 /\
               (registry_ok st1 -> registry_ok (snd (m2 st1)))).
  { destruct H2 as [->|[l ->]]; [apply ret_frame|apply register_all_frame]. }
  destruct G1 as (G0 & G1 & G2 & G3 & G4 & G5 & G6).
  repeat (split; [congruence|]). auto.
Qed.

Lemma registry_ok_empty st : _events st = ∅ -> registry_ok st.
Proof. intros H n set. rewrite H, lookup_empty. discriminate. Qed.

(** The state a successful construction leaves. *)
Lemma constructor_ok container options r st :
  constructor handler_throws callback_registers querySelector container options
  = (r, st) ->
  r = Ok tt ->
  well_formed (_options st) /\ registry_ok st /\ live st /\ _destroyed st = false.
Proof.
  unfold constructor.
  set (opts := match options with VUndefined => VObj [] | _ => options end).
  set (st0 := fresh (_mergeOptions DEFAULT_OPTIONS opts true)).
  destruct (negb _); [intros [= <- _]; discriminate|].
  unfold bind at 1. unfold options_ at 1. unfold bind at 1.
  destruct (setOptions_live handler_throws st0 Audio.create Dom.create
              (known_props (_options st0) ++ extra (_options st0))%list
              eq_refl eq_refl)
    as (st1 & a1 & Hl & Ho & Ha & _ & Hd & Hev & Hds & _).
  change (options_object (_options st0))
    with (VObj (known_props (_options st0) ++ extra (_options st0))%list).
  rewrite Hl.
  assert (Hwf1 : well_formed (_options st1)).
  { rewrite Ho. apply next_options_typed_wf, _mergeOptions_typed, well_typed_DEFAULT. }
  assert (Hreg1 : registry_ok st1) by (apply registry_ok_empty; now rewrite Hev).
  unfold bind at 1.
  destruct (_registerOptionEvents_frame opts st1)
    as (F0 & F1 & F2 & F3 & F4 & _ & F6).
  destruct (_registerOptionEvents callback_registers opts st1) as [r2 st2].
  cbn [fst snd] in *. subst r2.
  unfold bind, options_.
  destruct (negb (string_eqb (src (_options st2)) "")) eqn:Es.
  - destruct Hd as [d1 Hd].
    assert (Hs : src (_options st2) <> "").
    { apply String.eqb_neq. unfold string_eqb in Es.
      now destruct (String.eqb (src (_options st2)) ""). }
    match goal with |- load _ _ ?m ?p _ = _ -> _ =>
      destruct (load_live handler_throws st2 a1 d1 (src (_options st2)) m p)
        as (st3 & a3 & Hl3 & Ho3 & Ha3 & _ & _ & Hd3 & Hev3 & Hds3 & _)
    end; try congruence.
    { destruct (ToBoolean (get_prop opts "meta")) eqn:Em; [|discriminate].
      intros E. rewrite E in Em. discriminate. }
    rewrite Hl3. intros [= <- <-] _.
    split; [rewrite Ho3, F1; now apply set_src_wf|].
    split; [intros n set; rewrite Hev3; now apply F6|].
    split; [split; [rewrite Ha3; eauto|assumption]|].
    rewrite Hds3, F4, Hds. reflexivity.
  - intros [= <- <-] _.
    split; [now rewrite F1|]. split; [now apply F6|].
    split; [split; [rewrite F2, Ha; eauto|now rewrite F3]|].
    rewrite F4, Hds. reflexivity.
Qed.

(** ** What holds in every reachable state *)

Lemma same_config_consistent st st' :
  same_config st st' -> consistent st -> consistent st'.
Proof.
  intros [Ho He] [H1 H2]. split; [now rewrite Ho|].
  intros n set. rewrite He. apply H2.
Qed.

Lemma exec_consistent c st :
  consistent st -> consistent (exec handler_throws c st).
Proof.
  intros Hc. destruct c; cbn [exec].
  - destruct Hc as [H1 H2]. split.
    + destruct (on_frame name handler st) as (_ & -> & _). exact H1.
    + now apply on_registry_ok.
  - destruct Hc as [H1 H2]. split.
    + now rewrite off_options.
    + now apply off_registry_ok.
  - eapply same_config_consistent; [apply emit_config|exact Hc].
  - exact Hc.
  - destruct Hc as [H1 H2].
    destruct (setOptions_config partial st H1) as [He Hw].
    split; [exact Hw|]. intros n set. rewrite He. apply H2.
  - destruct Hc as [H1 H2].
    destruct (resetOptions_config partial st H1) as [He Hw].
    split; [exact Hw|]. intros n set. rewrite He. apply H2.
  - destruct Hc as [H1 H2].
    destruct (load_config source meta previousSrc st) as [He [Ho|[s Ho]]].
    + split; [now rewrite Ho|]. intros n set. rewrite He. apply H2.
    + split; [rewrite Ho; now apply set_src_wf|].
      intros n set. rewrite He. apply H2.
  - eapply same_config_consistent; [apply play_config|exact Hc].
  - eapply same_config_consistent; [apply emit_config|exact Hc].
  - eapply same_config_consistent; [apply pause_config|exact Hc].
  - eapply same_config_consistent; [apply toggle_config|exact Hc].
  - eapply same_config_consistent; [apply seek_config|exact Hc].
  - eapply same_config_consistent; [apply seekBy_config|exact Hc].
  - eapply same_config_consistent; [apply setPlaybackRate_config|exact Hc].
  - eapply same_config_consistent; [apply setVolume_config|exact Hc].
  - eapply same_config_consistent; [apply mute_config|exact Hc].
  - eapply same_config_consistent; [apply unmute_config|exact Hc].
  - eapply same_config_consistent; [apply toggleMute_config|exact Hc].
  - destruct Hc as [H1 H2]. destruct (destroy_config st) as [Ho [He|He]].
    + split; [now rewrite Ho|]. intros n set. rewrite He. apply H2.
    + split; [now rewrite Ho|]. now apply registry_ok_empty.
Qed.

Lemma reachable_consistent st :
  reachable handler_throws callback_registers querySelector st -> consistent st.
Proof.
  induction 1 as [container options st H|st c _ IH].
  - destruct (constructor_ok container options (Ok tt) st H eq_refl) as (H1 & H2 & _).
    split; assumption.
  - now apply exec_consistent.
Qed.
End Frames.


(** ** Events: registration and emission *)

Section Events.
Variable handler_throws : nat -> value -> option value.
Variable callback_registers : nat -> list (value * value).
Variable querySelector : string -> bool.

(** C8.  Emission isolates handlers: [emit] returns normally whatever the
    handlers do, touches nothing but the trace, and the trace shows the
    call of every handler registered for the event, in registration order,
    each followed by the logged error when that handler threw; so a
    handler that throws stops neither the handlers after it nor the
    caller. *)
Theorem emit_isolates_handlers name payload st :
  emit handler_throws name payload st =
    (Ok tt,
     with_trace (trace st ++ Emit name payload
                   :: flat_map (invocation handler_throws payload)
                               (registered st name))%list st)
  /\ forall h, h ∈ registered st name ->
       In (Call h payload) (trace (snd (emit handler_throws name payload st))).
Proof.
  split; [apply emit_run|].
  intros h Hh. rewrite emit_run. cbn [snd]. destruct st; cbn [with_trace trace].
  apply in_or_app. right. right. apply in_flat_map.
  exists h. split; [now apply list_elem_of_In|]. now left.
Qed.

Lemma count_occ_NoDup (l : list nat) x :
  NoDup l -> x ∈ l -> count_occ Nat.eq_dec l x = 1%nat.
Proof.
  induction 1 as [|y l Hy Hn IH]; intros Hx.
  - now apply elem_of_nil in Hx.
  - cbn [count_occ]. destruct (Nat.eq_dec y x) as [->|Hne].
    + f_equal. apply count_occ_not_In. intros Hin. apply Hy.
      now apply list_elem_of_In.
    + apply IH. apply elem_of_cons in Hx as [->|Hx]; [congruence|exact Hx].
Qed.

(** C7.  Registration is idempotent: a second [on(e, h)] returns the state
    the first one left, and when [e] is a catalogued name and [h] a
    function, emitting [e] afterwards calls [h] exactly once. *)
Theorem on_twice_is_on_once e h st :
  on e h (snd (on e h st)) = on e h st
  /\ forall n f payload,
       e = VStr n -> n ∈ EVENTS -> h = VFun f -> registry_ok st ->
       let st2 := snd (on e h (snd (on e h st))) in
       calls_to f (trace (snd (emit handler_throws e payload st2)))
       = S (calls_to f (trace st2)).
Proof.
  assert (Hidem : on e h (snd (on e h st)) = on e h st).
  { destruct e as [| | | |n| |]; try reflexivity.
    destruct h as [| | | | | |f]; try reflexivity.
    destruct (bool_decide (n ∈ EVENTS)) eqn:E;
      [|unfold on; rewrite E; reflexivity].
    apply bool_decide_eq_true_1 in E. rewrite !(on_valid n f _ E).
    cbn [snd modify with_events _events]. f_equal.
    rewrite lookup_insert_eq. cbn [default]. unfold id.
    rewrite added_idem, insert_insert_eq. reflexivity. }
  split; [exact Hidem|].
  intros n f payload -> Hn -> Hok st2. subst st2. rewrite Hidem.
  rewrite emit_run, (on_valid n f st Hn). cbn [snd with_trace trace].
  rewrite calls_to_app. change (Emit ?a ?b :: ?l) with ([Emit a b] ++ l)%list.
  rewrite calls_to_app, calls_to_invocations.
  cbn [registered with_events _events]. rewrite lookup_insert_eq. cbn [default].
  unfold id. rewrite count_occ_NoDup.
  - cbn. lia.
  - apply added_NoDup. destruct (_events st !! n) eqn:El; cbn; [|apply NoDup_nil_2].
    now apply (Hok n l).
  - apply added_elem.
Qed.

(** C10.  [on] ignores a name outside the catalogue and a handler that is
    not a function; in every reachable state the registry has catalogued
    names only; and after a registration under any other name, emitting
    that name calls no handler. *)
Theorem on_ignores_unknown_names :
  (forall name handler st,
     ~ (exists n h, name = VStr n /\ n ∈ EVENTS /\ handler = VFun h) ->
     on name handler st = (Ok tt, st))
  /\ (forall st n set,
        reachable handler_throws callback_registers querySelector st ->
        _events st !! n = Some set -> n ∈ EVENTS)
  /\ (forall st name handler payload,
        reachable handler_throws callback_registers querySelector st ->
        (forall n, name = VStr n -> n ∉ EVENTS) ->
        emit handler_throws name payload (snd (on name handler st))
        = (Ok tt, with_trace (trace st ++ [Emit name payload])%list st)).
Proof.
  split; [apply on_invalid|]. split.
  - intros st n set Hr Hl.
    destruct (reachable_consistent _ _ _ st Hr) as [_ Hok]. now apply (Hok n set).
  - intros st name handler payload Hr Hn.
    rewrite on_invalid.
    2:{ intros (n & h & -> & Hin & _). now apply (Hn n). }
    rewrite emit_run. cbn [snd]. do 3 f_equal.
    destruct name as [| | | |n| |]; try reflexivity. cbn [registered].
    destruct (_events st !! n) as [set|] eqn:El; [|reflexivity].
    destruct (reachable_consistent _ _ _ st Hr) as [_ Hok].
    destruct (Hok n set El) as [Hin _]. now destruct (Hn n eq_refl).
Qed.
End Events.


(** ** Options: [setOptions] and [_mergeOptions] *)

Section Options.
Variable handler_throws : nat -> value -> option value.
Variable callback_registers : nat -> list (value * value).
Variable querySelector : string -> bool.

Lemma next_showTime_rates p x : same_rates x (next_showTime p x).
Proof. unfold next_showTime. repeat case_match; repeat split. Qed.
Lemma next_theme_rates p x : same_rates x (next_theme p x).
Proof. unfold next_theme. repeat case_match; repeat split. Qed.
Lemma next_downloadFilename_rates p x : same_rates x (next_downloadFilename p x).
Proof. unfold next_downloadFilename. repeat case_match; repeat split. Qed.
Lemma next_ariaLabelPrefix_rates p x : same_rates x (next_ariaLabelPrefix p x).
Proof. unfold next_ariaLabelPrefix. repeat case_match; repeat split. Qed.
Lemma next_src_rates p x : same_rates x (next_src p x).
Proof. unfold next_src. repeat case_match; repeat split. Qed.

Lemma same_rates_trans x y z : same_rates x y -> same_rates y z -> same_rates x z.
Proof. intros (?&?&?) (?&?&?). repeat split; congruence. Qed.

Lemma next_options_rates o props :
  same_rates (reclamp_rate (swap_bounds (sanitized props o))) (next_options o props).
Proof.
  unfold next_options.
  eapply same_rates_trans; [|apply next_src_rates].
  eapply same_rates_trans; [|apply next_ariaLabelPrefix_rates].
  eapply same_rates_trans; [|apply next_downloadFilename_rates].
  eapply same_rates_trans; [|apply next_theme_rates].
  apply next_showTime_rates.
Qed.




(** C2.  On a live player whose options are in their domain, whenever the
    sanitized playbackRateMin exceeds the sanitized playbackRateMax the
    record [setOptions] stores has the two exchanged; in every case the
    stored bounds are ordered and the stored playbackRate is the clamp of
    the sanitized rate into them.  The bounds are ordered in every
    reachable state. *)
Theorem setOptions_swaps_inverted_bounds :
  (forall st props,
     live st -> well_formed (_options st) ->
     let s := sanitized props (_options st) in
     exists o st',
       setOptions handler_throws (VObj props) st = (Ok o, st') /\
       _options st' = o /\
       (fgt (playbackRateMin s) (playbackRateMax s) = true ->
        playbackRateMin o = playbackRateMax s /\
        playbackRateMax o = playbackRateMin s) /\
       fle (playbackRateMin o) (playbackRateMax o) = true /\
       in_range (playbackRateMin o) (playbackRateMax o) (playbackRate o) /\
       feq (Math_min (playbackRateMax o) (Math_max (playbackRateMin o) (playbackRate s)))
           (playbackRate o) = true)
  /\ (forall st,
        reachable handler_throws callback_registers querySelector st ->
        fle (playbackRateMin (_options st)) (playbackRateMax (_options st)) = true).
Proof.
  split.
  - intros st props [[a Ha] [d Hd]] Hwf s.
    destruct (setOptions_live handler_throws st a d props Ha Hd)
      as (st' & a' & Hl & Ho & _).
    exists (next_options (_options st) props), st'.
    split; [exact Hl|]. split; [exact Ho|].
    pose proof (next_options_wf _ props Hwf) as Hn.
    destruct (next_options_rates (_options st) props) as (Hmin & Hmax & Hrate).
    fold s in Hmin, Hmax, Hrate.
    rewrite reclamp_rate_min in Hmin. rewrite reclamp_rate_max in Hmax.
    split; [|split; [apply (wf_bounds _ Hn)|split; [apply (wf_rate _ Hn)|]]].
    + intros Hgt. rewrite Hmin, Hmax, swap_bounds_min, swap_bounds_max, Hgt. auto.
    + rewrite Hmin, Hmax, Hrate, <- (swap_bounds_rate s).
      pose proof (sanitized_typed props _ (well_formed_typed _ Hwf)) as Ht.
      fold s in Ht.
      apply reclamp_rate_rate.
      * rewrite swap_bounds_rate. apply (wt_rate _ Ht).
      * now apply swap_bounds_ordered.
  - intros st Hr.
    destruct (reachable_consistent _ _ _ st Hr) as [Hwf _]. apply (wf_bounds _ Hwf).
Qed.
End Options.


(** ** Playback methods *)

Section Playback.
Variable handler_throws : nat -> value -> option value.

(** C3.  [destroy] on a player that is not destroyed returns, and a second
    [destroy], [play] and [pause] then change nothing; every other
    playback method then fails with a TypeError on the [null] media
    element instead of doing nothing. *)
Theorem destroyed_player_throws st :
  _destroyed st = false ->
  let st' := snd (destroy st) in
  fst (destroy st) = Ok tt
  /\ destroy st' = (Ok tt, st')
  /\ play st' = (Ok tt, st')
  /\ pause st' = (Ok tt, st')
  /\ (forall seconds, seek handler_throws seconds st' = (Throw null_read, st'))
  /\ toggle st' = (Throw null_read, st')
  /\ (forall delta, isFinite (ToNumber delta) = true ->
        seekBy handler_throws delta st' = (Throw null_read, st'))
  /\ (forall rate, isFinite (ToNumber rate) = true ->
        setPlaybackRate rate st' = (Throw null_write, st'))
  /\ (forall v, isFinite (ToNumber v) = true ->
        setVolume v st' = (Throw null_write, st'))
  /\ mute st' = (Throw null_write, st')
  /\ unmute st' = (Throw null_write, st')
  /\ toggleMute st' = (Throw null_read, st').
Proof.
  intros Hd. destruct st as [o m a d ev ls ds raf tr]. cbn in Hd. subst ds.
  assert (E : snd (destroy (Build_player o m a d ev ls false raf tr))
              = Build_player o m None None ∅ [] true None tr).
  { destruct a, d as [[? ? ? ? []]|], raf; reflexivity. }
  cbn zeta. rewrite E.
  split; [destruct a, d as [[? ? ? ? []]|], raf; reflexivity|].
  repeat (split; [reflexivity|]).
  split; [intros delta Hf; unfold seekBy; rewrite Hf; reflexivity|].
  split; [intros rate Hf; unfold setPlaybackRate, bind, options_;
          rewrite clampNumber_finite by exact Hf; reflexivity|].
  split; [intros v Hf; unfold setVolume;
          rewrite clampNumber_finite by exact Hf; reflexivity|].
  repeat split.
Qed.



(** [seek] for a target that is a number: the clamp into [0, duration],
    no-op on an equal position, one [seek] event otherwise. *)
Lemma seek_clamps st a d seconds :
  _audio st = Some a -> _dom st = Some d ->
  isFinite (Audio.duration a) = true ->
  fle n0 (Audio.duration a) = true ->
  isNaN (ToNumber seconds) = false ->
  let to := Math_max n0 (Math_min (Audio.duration a) (ToNumber seconds)) in
  in_range n0 (Audio.duration a) to /\
  (feq (Audio.currentTime a) to = true ->
   seek handler_throws seconds st = (Ok tt, st)) /\
  (feq (Audio.currentTime a) to = false ->
   exists st' a',
     seek handler_throws seconds st = (Ok tt, st') /\
     _audio st' = Some a' /\ Audio.currentTime a' = to /\
     emissions (trace st') =
       (emissions (trace st) ++
        [(VStr "seek", VObj [("from", VNum (Audio.currentTime a)); ("to", VNum to)])])%list).
Proof.
  intros Ha Hd Hf H0 Hn to. split; [|split].
  - subst to.
    assert (Hm : isNaN (Math_min (Audio.duration a) (ToNumber seconds)) = false
                 /\ fle (Math_min (Audio.duration a) (ToNumber seconds))
                        (Audio.duration a) = true).
    { destruct (Math_min_cases (Audio.duration a) (ToNumber seconds)
                  (isFinite_not_nan _ Hf) Hn) as [[H1 ->]|[H1 H2]].
      - split; [exact Hn|now apply flt_fle].
      - split.
        + destruct (Math_min _ _); try reflexivity. discriminate.
        + rewrite (feq_fle_l _ _ _ H2). apply fle_refl, isFinite_not_nan, Hf. }
    destruct Hm as [Hm1 Hm2].
    destruct (Math_max_cases n0 _ eq_refl Hm1) as [[H1 ->]|[H1 H2]].
    + split; [now apply flt_fle|exact Hm2].
    + split.
      * rewrite (feq_fle_r n0 _ _ H2). reflexivity.
      * rewrite (feq_fle_l _ _ _ H2). exact H0.
  - intros He. destruct st as [o m a0 d0 ev ls ds raf tr].
    cbn in Ha, Hd. subst a0 d0. run_m. simp_rec. rewrite Hf. fold to. rewrite He.
    reflexivity.
  - intros He. destruct st as [o m a0 d0 ev ls ds raf tr].
    cbn in Ha, Hd. subst a0 d0. run_m. simp_rec. rewrite Hf. fold to. rewrite He.
    cbv [negb]. cbv beta iota. simp_rec. rewrite emit_run.
    do 2 eexists. split; [reflexivity|]. simp_rec.
    split; [reflexivity|]. split; [reflexivity|].
    rewrite emissions_app. f_equal.
    change (emissions (?e :: ?l))
      with ((VStr "seek", VObj [("from", VNum (Audio.currentTime a)); ("to", VNum to)])
            :: emissions l).
    now rewrite emissions_invocations.
Qed.

End Playback.

(** ** Formatting *)

(** C9, as amended.  [formatTime(65)] is "1:05" and [formatTime(-1)] is
    "0:00"; [formatRate(1.005)] is "1.00x" in [src/audio-player.js], which
    keeps two decimals, and "1x" in the variant that strips trailing zeros. *)
Theorem format_examples :
  formatTime (VNum (lit "65")) = "1:05"
  /\ formatTime (VNum (lit "-1")) = "0:00"
  /\ formatRate (VNum (lit "1.005")) = "1.00x"
  /\ Part000.formatRate (VNum (lit "1.005")) = "1x".
Proof. repeat split; vm_compute; reflexivity. Qed.

(** C9 as stated fails on [src/audio-player.js]. *)
Lemma formatRate_keeps_zeros : formatRate (VNum (lit "1.005")) <> "1x".
Proof. vm_compute. discriminate. Qed.

(** ** Instances *)

Lemma demo_constructed :
  constructor quiet no_callbacks found (VStr "#player") VUndefined = (Ok tt, demo).
Proof. vm_compute. reflexivity. Defined.

Lemma demo_reachable : reachable quiet no_callbacks found demo.
Proof. exact (reachable_new _ _ _ _ _ _ demo_constructed). Defined.

Lemma demo_live : live demo.
Proof. split; eexists; vm_compute; reflexivity. Defined.

Lemma demo_well_formed : well_formed (_options demo).
Proof.
  constructor; vm_compute; try (split; reflexivity); try reflexivity.
  split; [discriminate|reflexivity].
Defined.

Lemma demo_registry_ok : registry_ok demo.
Proof. intros n set H. vm_compute in H. discriminate. Defined.

Lemma play_catalogued : "play" ∈ EVENTS.
Proof. apply (bool_decide_unpack _). vm_compute. exact I. Defined.



Lemma setOptions_swaps_inverted_bounds_witness :
  exists o st',
    setOptions quiet (VObj [("playbackRateMin", VNum n4)]) demo = (Ok o, st') /\
    playbackRateMin o = n2 /\ playbackRateMax o = n4 /\
    in_range (playbackRateMin o) (playbackRateMax o) (playbackRate o).
Proof.
  destruct (proj1 (setOptions_swaps_inverted_bounds quiet no_callbacks found) demo
              [("playbackRateMin", VNum n4)] demo_live demo_well_formed)
    as (o & st' & H1 & _ & H3 & _ & H5 & _).
  exists o, st'. split; [exact H1|].
  destruct (H3 ltac:(vm_compute; reflexivity)) as [Hmin Hmax].
  split; [rewrite Hmin; vm_compute; reflexivity|].
  split; [rewrite Hmax; vm_compute; reflexivity|exact H5].
Defined.

Lemma destroyed_player_throws_witness :
  seek quiet (VNum n10) (snd (destroy demo)) = (Throw null_read, snd (destroy demo))
  /\ play (snd (destroy demo)) = (Ok tt, snd (destroy demo)).
Proof.
  destruct (destroyed_player_throws quiet demo ltac:(vm_compute; reflexivity))
    as (_ & _ & Hplay & _ & Hseek & _).
  split; [apply Hseek|exact Hplay].
Defined.




Lemma on_twice_is_on_once_witness :
  let st2 := snd (on (VStr "play") (VFun 7) (snd (on (VStr "play") (VFun 7) demo))) in
  calls_to 7%nat (trace (snd (emit quiet (VStr "play") VUndefined st2)))
  = S (calls_to 7%nat (trace st2)).
Proof.
  exact (proj2 (on_twice_is_on_once quiet (VStr "play") (VFun 7) demo)
           "play" 7%nat VUndefined eq_refl play_catalogued eq_refl demo_registry_ok).
Defined.

Lemma emit_isolates_handlers_witness :
  let st := snd (on (VStr "play") (VFun 3) (snd (on (VStr "play") (VFun 2) demo))) in
  In (Call 3%nat VUndefined) (trace (snd (emit grumpy (VStr "play") VUndefined st))).
Proof.
  apply (proj2 (emit_isolates_handlers grumpy (VStr "play") VUndefined _)).
  apply (bool_decide_unpack _). vm_compute. exact I.
Defined.

Lemma on_ignores_unknown_names_witness :
  emit quiet (VStr "bogus") VUndefined (snd (on (VStr "bogus") (VFun 7) demo))
  = (Ok tt, with_trace (trace demo ++ [Emit (VStr "bogus") VUndefined])%list demo).
Proof.
  apply (proj2 (proj2 (on_ignores_unknown_names quiet no_callbacks found))
           demo (VStr "bogus") (VFun 7) VUndefined demo_reachable).
  intros n [= <-] H. apply (bool_decide_pack _) in H. vm_compute in H. exact H.
Defined.

(* ===================================================================== *)
(** * Further properties of the code *)
(* ===================================================================== *)

(** ** [clampNumber] *)

Lemma feq_trans a b c : feq a b = true -> feq b c = true -> feq a c = true.
Proof.
  unfold feq, SFeqb. intros H1 H2.
  destruct (SFcompare b c) as [[]|] eqn:E; try discriminate.
  now rewrite <- (SFcompare_eq_r a b c E).
Qed.

Lemma fle_not_flt_feq a b : fle a b = true -> flt a b = false -> feq a b = true.
Proof.
  unfold fle, flt, feq, SFleb, SFltb, SFeqb.
  destruct (SFcompare a b) as [[]|]; congruence.
Qed.

Lemma clamp_identity lo hi num :
  in_range lo hi num -> feq (Math_min hi (Math_max lo num)) num = true.
Proof.
  intros [H1 H2].
  destruct (fle_not_nan _ _ H1) as [Hlo Hn], (fle_not_nan _ _ H2) as [_ Hhi].
  assert (Hm : feq (Math_max lo num) num = true).
  { destruct (Math_max_cases lo num Hlo Hn) as [[_ ->]|[Hlt He]].
    - unfold feq, SFeqb. now rewrite SFcompare_refl.
    - eapply feq_trans; [exact He|]. now apply fle_not_flt_feq. }
  assert (Hmn : isNaN (Math_max lo num) = false).
  { destruct (Math_max lo num); try reflexivity. discriminate. }
  destruct (Math_min_cases hi _ Hhi Hmn) as [[_ ->]|[Hlt He]]; [exact Hm|].
  eapply feq_trans; [exact He|]. eapply feq_trans; [|exact Hm].
  apply feq_sym, fle_not_flt_feq; [|exact Hlt].
  now rewrite (feq_fle_l hi _ _ Hm).
Qed.

(** X1.  [clampNumber] answers [null] exactly for the values that do not
    convert to a finite number.  When [min <= max], every other answer lies
    in [[min, max]], and a value that is already inside the interval comes
    back as the same number. *)
Theorem clampNumber_clamps v lo hi :
  (clampNumber v lo hi = None <-> isFinite (ToNumber v) = false)
  /\ (fle lo hi = true ->
      forall x, clampNumber v lo hi = Some x ->
        in_range lo hi x /\
        (in_range lo hi (ToNumber v) -> feq x (ToNumber v) = true)).
Proof.
  split.
  - unfold clampNumber. destruct (isFinite (ToNumber v)); simpl; split; congruence.
  - intros Hb x Hx. split; [now apply (clampNumber_range v)|].
    apply clampNumber_Some in Hx as [_ ->]. apply clamp_identity.
Qed.

Lemma clampNumber_clamps_witness :
  in_range n0 n100 n100 /\
  (in_range n0 n100 (ToNumber (VStr "150")) -> feq n100 (ToNumber (VStr "150")) = true).
Proof.
  apply (clampNumber_clamps (VStr "150") n0 n100); [reflexivity|vm_compute; reflexivity].
Defined.

(** ** [normalizeRates] *)

Lemma same_value_zero_sym x y :
  Part000.same_value_zero x y = Part000.same_value_zero y x.
Proof.
  unfold Part000.same_value_zero. f_equal; [|apply andb_comm].
  destruct (feq x y) eqn:E.
  - symmetry. now apply feq_sym.
  - destruct (feq y x) eqn:E'; [|reflexivity].
    apply feq_sym in E'. congruence.
Qed.

Lemma includes_app l1 l2 x :
  Part000.includes (l1 ++ l2) x = Part000.includes l1 x || Part000.includes l2 x.
Proof. unfold Part000.includes. apply existsb_app. Qed.

Lemma distinct_snoc l x :
  distinct l = true -> Part000.includes l x = false -> distinct (l ++ [x]) = true.
Proof.
  induction l as [|y l IH]; intros Hd Hi; [reflexivity|].
  cbn [distinct app] in *. apply andb_prop in Hd as [H1 H2].
  cbn [Part000.includes existsb] in Hi. apply orb_false_elim in Hi as [Hi1 Hi2].
  apply andb_true_intro. split; [|now apply IH].
  rewrite includes_app. apply negb_true_iff in H1. rewrite H1.
  cbn [Part000.includes existsb orb]. rewrite same_value_zero_sym, Hi1. reflexivity.
Qed.


Lemma unique_invariant cleaned acc :
  distinct acc = true -> forallb is_rate acc = true -> forallb is_rate cleaned = true ->
  distinct (fold_left Part000.push_unique cleaned acc) = true
  /\ forallb is_rate (fold_left Part000.push_unique cleaned acc) = true
  /\ (forall x, In x acc \/ In x cleaned ->
        Part000.includes (fold_left Part000.push_unique cleaned acc) x = true)
  /\ (acc <> [] -> fold_left Part000.push_unique cleaned acc <> []).
Proof.
  revert acc. induction cleaned as [|r cleaned IH]; intros acc Hd Ha Hc.
  - cbn [fold_left]. split; [exact Hd|]. split; [exact Ha|]. split; [|auto].
    intros x [Hx|[]]. unfold Part000.includes. apply existsb_exists.
    exists x. split; [exact Hx|].
    unfold Part000.same_value_zero.
    rewrite forallb_forall in Ha. specialize (Ha x Hx).
    apply andb_prop in Ha as [Hf _].
    unfold feq, SFeqb. rewrite SFcompare_refl by now apply isFinite_not_nan.
    reflexivity.
  - cbn [fold_left forallb] in *. apply andb_prop in Hc as [Hr Hc].
    assert (Hp : distinct (Part000.push_unique acc r) = true /\ forallb is_rate (Part000.push_unique acc r) = true
                 /\ (forall x, In x acc -> In x (Part000.push_unique acc r))
                 /\ Part000.includes (Part000.push_unique acc r) r = true
                 /\ Part000.push_unique acc r <> []).
    { unfold Part000.push_unique. destruct (Part000.includes acc r) eqn:E; cbn [negb].
      - repeat split; try assumption; auto.
        intros ->. discriminate.
      - split; [now apply distinct_snoc|]. split.
        + rewrite forallb_app, Ha. cbn. now rewrite Hr.
        + split; [intros x Hx; apply in_or_app; now left|]. split.
          * rewrite includes_app. cbn [Part000.includes existsb].
            unfold Part000.same_value_zero at 1.
            apply andb_prop in Hr as [Hf _].
            unfold feq, SFeqb. rewrite SFcompare_refl by now apply isFinite_not_nan.
            cbn. apply orb_true_r.
          * destruct acc; discriminate. }
    destruct Hp as (P1 & P2 & P3 & P4 & P5).
    destruct (IH (Part000.push_unique acc r) P1 P2 Hc) as (I1 & I2 & I3 & I4).
    repeat split; try assumption.
    + intros x [Hx|[<-|Hx]].
      * apply I3. left. now apply P3.
      * assert (Hin : exists y, In y (Part000.push_unique acc r) /\ Part000.same_value_zero r y = true)
          by (now apply existsb_exists).
        destruct Hin as (y & Hy & Hs).
        specialize (I3 y (or_introl Hy)).
        unfold Part000.includes in *. apply existsb_exists in I3 as (z & Hz & Hyz).
        apply existsb_exists. exists z. split; [exact Hz|].
        rewrite forallb_forall in P2. specialize (P2 y Hy).
        unfold Part000.same_value_zero in *.
        apply andb_prop in Hr as [Hrf _]. apply andb_prop in P2 as [Hyf _].
        apply isFinite_not_nan in Hrf, Hyf.
        rewrite Hrf in *. rewrite Hyf in *. cbn [andb] in *.
        rewrite orb_false_r in *.
        now apply (feq_trans _ y).
      * apply I3. now right.
    + intros _. now apply I4.
Qed.

Lemma unique_fixed l acc :
  distinct (acc ++ l) = true -> fold_left Part000.push_unique l acc = (acc ++ l)%list.
Proof.
  revert acc. induction l as [|x l IH]; intros acc Hd.
  - now rewrite app_nil_r.
  - cbn [fold_left]. unfold Part000.push_unique at 2.
    assert (Hi : Part000.includes acc x = false).
    { clear IH. induction acc as [|y acc IHa]; [reflexivity|].
      cbn [app distinct] in Hd. apply andb_prop in Hd as [H1 H2].
      cbn [Part000.includes existsb]. apply orb_false_intro.
      - apply negb_true_iff in H1. rewrite includes_app in H1.
        apply orb_false_elim in H1 as [_ H1].
        cbn [Part000.includes existsb] in H1. apply orb_false_elim in H1 as [H1 _].
        now rewrite same_value_zero_sym.
      - now apply IHa. }
    rewrite Hi. cbn [negb]. rewrite IH; rewrite <- app_assoc; [reflexivity|exact Hd].
Qed.

Lemma normalizeRates_cases l :
  let cleaned := List.filter is_rate (map ToNumber l) in
  forallb is_rate cleaned = true /\
  ((Part000.normalizeRates (Some l) = Part000.DEFAULT_rates /\
    forall x, In x cleaned -> False) \/
   (Part000.normalizeRates (Some l) <> [] /\
    distinct (Part000.normalizeRates (Some l)) = true /\
    forallb is_rate (Part000.normalizeRates (Some l)) = true /\
    forall x, In x cleaned -> Part000.includes (Part000.normalizeRates (Some l)) x = true)).
Proof.
  intros cleaned.
  assert (Hc : forallb is_rate cleaned = true).
  { apply forallb_forall. intros x Hx. apply filter_In in Hx as [_ Hx]. exact Hx. }
  split; [exact Hc|].
  destruct (unique_invariant cleaned [] eq_refl eq_refl Hc) as (I1 & I2 & I3 & _).
  unfold Part000.normalizeRates.
  change (List.filter (fun rate => isFinite rate && fgt rate n0) (map ToNumber l))
    with cleaned.
  destruct (fold_left Part000.push_unique cleaned []) as [|u0 us] eqn:Eu.
  - left. split; [reflexivity|]. intros x Hx.
    specialize (I3 x (or_intror Hx)). discriminate.
  - right. split; [discriminate|]. split; [exact I1|].
    split; [exact I2|]. intros x Hx. apply I3. now right.
Qed.

Lemma normalizeRates_fixed r :
  r <> [] -> forallb is_rate r = true -> distinct r = true ->
  Part000.normalizeRates (Some (map VNum r)) = r.
Proof.
  intros Hne Hr Hd. unfold Part000.normalizeRates.
  rewrite map_map. cbn [ToNumber]. rewrite map_id.
  assert (Hf : List.filter (fun rate => isFinite rate && fgt rate n0) r = r).
  { clear Hne Hd. induction r as [|x r IH]; [reflexivity|].
    cbn [forallb] in Hr. apply andb_prop in Hr as [H1 H2].
    cbn [List.filter]. unfold is_rate in H1. rewrite H1. f_equal. now apply IH. }
  rewrite Hf. rewrite (unique_fixed r []) by exact Hd.
  cbn [app]. destruct r; [congruence|reflexivity].
Qed.

(** X2.  [normalizeRates] (in the variant with a rate list) always returns
    a list that is not empty, holds finite rates above zero only and holds
    no rate twice; the list it returns is a fixed point, normalizing it
    again gives it back; and every acceptable rate of the argument is in
    it. *)
Theorem normalizeRates_is_a_rate_list rates :
  let r := Part000.normalizeRates rates in
  r <> []
  /\ forallb is_rate r = true
  /\ distinct r = true
  /\ Part000.normalizeRates (Some (map VNum r)) = r
  /\ (forall l v, rates = Some l -> In v l -> is_rate (ToNumber v) = true ->
        Part000.includes r (ToNumber v) = true).
Proof.
  cbn zeta.
  assert (Hd : Part000.DEFAULT_rates <> [] /\
               forallb is_rate Part000.DEFAULT_rates = true /\
               distinct Part000.DEFAULT_rates = true)
    by (split; [discriminate|split; reflexivity]).
  destruct Hd as (D1 & D2 & D3).
  destruct rates as [l|].
  - destruct (normalizeRates_cases l) as [Hc [[E Hno]|(N1 & N2 & N3 & N4)]].
    + rewrite E. repeat (split; [assumption|]).
      split; [now apply normalizeRates_fixed|].
      intros l' v [= <-] Hv Hr. destruct (Hno (ToNumber v)).
      apply filter_In. split; [now apply in_map|exact Hr].
    + repeat (split; [assumption|]).
      split; [now apply normalizeRates_fixed|].
      intros l' v [= <-] Hv Hr. apply N4.
      apply filter_In. split; [now apply in_map|exact Hr].
  - change (Part000.normalizeRates None) with Part000.DEFAULT_rates.
    repeat (split; [assumption|]).
    split; [now apply normalizeRates_fixed|]. intros l v [=].
Qed.

Lemma normalizeRates_is_a_rate_list_witness :
  Part000.includes
    (Part000.normalizeRates (Some [VNum n2; VStr "x"; VNum n1; VStr "2"; VNum n0]))
    (ToNumber (VStr "2")) = true.
Proof.
  destruct (normalizeRates_is_a_rate_list
              (Some [VNum n2; VStr "x"; VNum n1; VStr "2"; VNum n0]))
    as (_ & _ & _ & _ & H).
  apply (H [VNum n2; VStr "x"; VNum n1; VStr "2"; VNum n0] (VStr "2"));
    [reflexivity|simpl; tauto|vm_compute; reflexivity].
Defined.

(** ** Formatting, over a range of arguments *)

Lemma upto_spec (P : Z -> bool) m :
  forallb P (upto m) = true -> forall n, 0 <= n < Z.of_nat m -> P n = true.
Proof.
  intros H n Hn. rewrite forallb_forall in H. apply H. unfold upto.
  apply in_map_iff. exists (Z.to_nat n). split; [lia|]. apply in_seq. lia.
Qed.

(** X3.  For every whole number of seconds below ten minutes, [formatTime]
    prints the minutes, a colon and the seconds on two digits; half a second
    more prints the same text, the fraction is dropped. *)
Theorem formatTime_prints_minutes_and_seconds n :
  0 <= n < 600 ->
  formatTime (VNum (of_Z n)) = clock n
  /\ formatTime (VNum (fadd (of_Z n) n0_5)) = clock n.
Proof.
  intros Hn.
  pose (P := fun n => string_eqb (formatTime (VNum (of_Z n))) (clock n)
                      && string_eqb (formatTime (VNum (fadd (of_Z n) n0_5))) (clock n)).
  assert (H : P n = true).
  { apply (upto_spec P 600); [vm_compute; reflexivity|lia]. }
  apply andb_prop in H as [H1 H2]. split; now apply string_eqb_eq.
Qed.

Lemma formatTime_prints_minutes_and_seconds_witness :
  formatTime (VNum (of_Z 354)) = clock 354
  /\ formatTime (VNum (fadd (of_Z 354) n0_5)) = clock 354.
Proof. apply (formatTime_prints_minutes_and_seconds 354). lia. Defined.

(** X4.  A rate written with two decimals, from 0.00 up to 4.00 (the
    largest bound a rate can have), is printed back by [formatRate] digit
    for digit, followed by "x"; the variant that strips zeros prints
    the same digits without the trailing zeros. *)
Theorem formatRate_prints_two_decimals k :
  0 <= k <= 400 ->
  let rate := VNum (ToNumber (VStr (two_decimals k))) in
  formatRate rate = two_decimals k ++ "x"
  /\ Part000.formatRate rate = Part000.strip_zeros (two_decimals k) ++ "x".
Proof.
  intros Hk.
  pose (P := fun k =>
    let rate := VNum (ToNumber (VStr (two_decimals k))) in
    string_eqb (formatRate rate) (two_decimals k ++ "x")
    && string_eqb (Part000.formatRate rate)
                  (Part000.strip_zeros (two_decimals k) ++ "x")).
  assert (H : P k = true).
  { apply (upto_spec P 401); [vm_compute; reflexivity|lia]. }
  apply andb_prop in H as [H1 H2]. split; now apply string_eqb_eq.
Qed.

Lemma formatRate_prints_two_decimals_witness :
  formatRate (VNum (ToNumber (VStr (two_decimals 125)))) = two_decimals 125 ++ "x"
  /\ Part000.formatRate (VNum (ToNumber (VStr (two_decimals 125))))
     = Part000.strip_zeros (two_decimals 125) ++ "x".
Proof. apply (formatRate_prints_two_decimals 125). lia. Defined.

(** ** [normalizeTheme] *)

(** X5.  [normalizeTheme] (in the variant with a theme list) returns one
    of "light", "dark" and "auto" for every argument, returns such a theme
    unchanged, and maps its own result to itself. *)
Theorem normalizeTheme_is_a_theme theme :
  Part000.normalizeTheme theme ∈ ["light"; "dark"; "auto"]
  /\ (forall t, theme = VStr t -> t ∈ ["light"; "dark"; "auto"] ->
        Part000.normalizeTheme theme = t)
  /\ Part000.normalizeTheme (VStr (Part000.normalizeTheme theme))
     = Part000.normalizeTheme theme.
Proof.
  assert (H : Part000.normalizeTheme theme ∈ ["light"; "dark"; "auto"]).
  { unfold Part000.normalizeTheme. destruct theme as [| | | |t| |];
      try (rewrite !elem_of_cons; now auto).
    destruct (string_eqb t "light") eqn:E1; cbn [orb].
    { apply string_eqb_eq in E1 as ->. rewrite !elem_of_cons. auto. }
    destruct (string_eqb t "dark") eqn:E2; cbn [orb].
    { apply string_eqb_eq in E2 as ->. rewrite !elem_of_cons. auto. }
    destruct (string_eqb t "auto") eqn:E3.
    { apply string_eqb_eq in E3 as ->. rewrite !elem_of_cons. auto. }
    rewrite !elem_of_cons. auto. }
  assert (Hid : forall t, t ∈ ["light"; "dark"; "auto"] ->
                  Part000.normalizeTheme (VStr t) = t).
  { intros t Ht. repeat (apply elem_of_cons in Ht as [->|Ht]; [reflexivity|]).
    now apply elem_of_nil in Ht. }
  split; [exact H|]. split; [|now apply Hid].
  intros t -> Ht. now apply Hid.
Qed.

Lemma normalizeTheme_is_a_theme_witness :
  Part000.normalizeTheme (VStr "dark") = "dark".
Proof.
  destruct (normalizeTheme_is_a_theme (VStr "dark")) as (_ & H & _).
  apply (H "dark"); [reflexivity|]. rewrite !elem_of_cons. auto.
Defined.

(** ** Assignments guarded by [!==] *)

Lemma feq_eq x y : feq x y = true -> ToBoolean (VNum x) = true -> y = x.
Proof.
  unfold feq, SFeqb. intros H Hx.
  destruct x as [sx|sx| |sx mx ex], y as [sy|sy| |sy my ey]; simpl in *;
    try discriminate; try (destruct sx, sy; discriminate || reflexivity).
  fold_pos_compare.
  assert (sx = sy /\ ex = ey /\ mx = my) as (-> & -> & ->); [|reflexivity].
  destruct sx, sy; try discriminate;
    destruct (ex ?= ey) eqn:E; try discriminate;
    apply Z.compare_eq in E; subst; (split; [reflexivity|split; [reflexivity|]]).
  - destruct (Pos.compare mx my) eqn:E'; try discriminate.
    now apply Pos.compare_eq in E'.
  - destruct (Pos.compare mx my) eqn:E'; try discriminate.
    now apply Pos.compare_eq in E'.
Qed.

Lemma fle_flt_false a b : fle a b = true -> flt b a = false.
Proof.
  unfold fle, flt, SFleb, SFltb. destruct (SFcompare a b) as [c|] eqn:E; [|discriminate].
  apply SFcompare_antisym in E. rewrite E. destruct c; simpl; congruence.
Qed.

Lemma above_0_2_truthy x : fle n0_2 x = true -> ToBoolean (VNum x) = true.
Proof. destruct x as [[]|[]| |s m e]; try reflexivity; discriminate. Qed.

Lemma clampNumber_same lo hi x :
  isFinite lo = true -> isFinite hi = true -> in_range lo hi x ->
  exists c, clampNumber (VNum x) lo hi = Some c /\ feq c x = true.
Proof.
  intros Hl Hh Hr. exists (Math_min hi (Math_max lo x)). split.
  - apply clampNumber_finite. cbn [ToNumber]. now apply (in_range_finite lo hi).
  - now apply clamp_identity.
Qed.

(** An assignment [if (x !== next.k) next.k = x] leaves [next.k] equal to
    [x], whichever branch is taken, for every [x] that [===] does not
    identify with a different value (any number but a zero and NaN). *)
Lemma assign_volume x o :
  ToBoolean (VNum x) = true ->
  (if negb (feq x (volume o)) then set_volume x o else o) = set_volume x o.
Proof.
  intros Hx. destruct (feq x (volume o)) eqn:E; [|reflexivity].
  cbn [negb]. rewrite <- (feq_eq _ _ E Hx). now destruct o.
Qed.
Lemma assign_playbackRate x o :
  ToBoolean (VNum x) = true ->
  (if negb (feq x (playbackRate o)) then set_playbackRate x o else o)
  = set_playbackRate x o.
Proof.
  intros Hx. destruct (feq x (playbackRate o)) eqn:E; [|reflexivity].
  cbn [negb]. rewrite <- (feq_eq _ _ E Hx). now destruct o.
Qed.
Lemma assign_seekStep x o :
  ToBoolean (VNum x) = true ->
  (if negb (feq x (seekStep o)) then set_seekStep x o else o) = set_seekStep x o.
Proof.
  intros Hx. destruct (feq x (seekStep o)) eqn:E; [|reflexivity].
  cbn [negb]. rewrite <- (feq_eq _ _ E Hx). now destruct o.
Qed.
Lemma assign_playbackRateMin x o :
  ToBoolean (VNum x) = true ->
  (if negb (feq x (playbackRateMin o)) then set_playbackRateMin x o else o)
  = set_playbackRateMin x o.
Proof.
  intros Hx. destruct (feq x (playbackRateMin o)) eqn:E; [|reflexivity].
  cbn [negb]. rewrite <- (feq_eq _ _ E Hx). now destruct o.
Qed.
Lemma assign_playbackRateMax x o :
  ToBoolean (VNum x) = true ->
  (if negb (feq x (playbackRateMax o)) then set_playbackRateMax x o else o)
  = set_playbackRateMax x o.
Proof.
  intros Hx. destruct (feq x (playbackRateMax o)) eqn:E; [|reflexivity].
  cbn [negb]. rewrite <- (feq_eq _ _ E Hx). now destruct o.
Qed.
Lemma assign_playbackRateStep x o :
  ToBoolean (VNum x) = true ->
  (if negb (feq x (playbackRateStep o)) then set_playbackRateStep x o else o)
  = set_playbackRateStep x o.
Proof.
  intros Hx. destruct (feq x (playbackRateStep o)) eqn:E; [|reflexivity].
  cbn [negb]. rewrite <- (feq_eq _ _ E Hx). now destruct o.
Qed.
Lemma assign_muted x o :
  (if negb (Bool.eqb x (muted o)) then set_muted x o else o) = set_muted x o.
Proof. destruct o as [? ? m]; destruct x, m; reflexivity. Qed.
Lemma assign_allowDownload x o :
  (if negb (Bool.eqb x (allowDownload o)) then set_allowDownload x o else o)
  = set_allowDownload x o.
Proof. destruct o as [? ? ? ? ? ? ? ? m]; destruct x, m; reflexivity. Qed.
Lemma assign_showTime x o :
  (if negb (Bool.eqb x (showTime o)) then set_showTime x o else o) = set_showTime x o.
Proof. destruct o as [? ? ? ? ? ? ? ? ? m]; destruct x, m; reflexivity. Qed.
Lemma assign_theme x o :
  (if negb (string_eqb x (theme o)) then set_theme x o else o) = set_theme x o.
Proof.
  destruct (string_eqb x (theme o)) eqn:E; [|reflexivity].
  apply string_eqb_eq in E. subst x. now destruct o.
Qed.
Lemma assign_ariaLabelPrefix x o :
  (if negb (string_eqb x (ariaLabelPrefix o)) then set_ariaLabelPrefix x o else o)
  = set_ariaLabelPrefix x o.
Proof.
  destruct (string_eqb x (ariaLabelPrefix o)) eqn:E; [|reflexivity].
  apply string_eqb_eq in E. subst x. now destruct o.
Qed.
Lemma assign_src x o :
  (if negb (string_eqb x (src o)) then set_src x o else o) = set_src x o.
Proof.
  destruct (string_eqb x (src o)) eqn:E; [|reflexivity].
  apply string_eqb_eq in E. subst x. now destruct o.
Qed.
Lemma assign_downloadFilename x o :
  (if negb (bool_decide (x = downloadFilename o)) then set_downloadFilename x o else o)
  = set_downloadFilename x o.
Proof.
  destruct (bool_decide (x = downloadFilename o)) eqn:E; [|reflexivity].
  apply bool_decide_eq_true_1 in E. subst x. now destruct o.
Qed.

(** ** [setOptions(getOptions())] *)

Lemma trimmed_of_trimmed t : is_trimmed t -> trimmed (VStr t) = Some t.
Proof.
  intros [Hne Ht]. unfold trimmed. rewrite Ht.
  destruct (string_eqb t "") eqn:E; [|reflexivity].
  now apply string_eqb_eq in E.
Qed.

Lemma next_options_own o :
  well_formed o -> tidy o ->
  next_options o (known_props o ++ extra o) = o.
Proof.
  intros [Hv Hs Hmin Hmax Hst Hb Hr Ht] [Hf Ha].
  unfold next_options, sanitized.
  assert (E1 : next_volume (known_props o ++ extra o) o = o).
  { unfold next_volume. change (obj_get _ "volume") with (Some (VNum (volume o))).
    destruct (clampNumber_same n0 n100 _ eq_refl eq_refl Hv) as (c & -> & ->).
    reflexivity. }
  rewrite E1.
  assert (E2 : next_muted (known_props o ++ extra o) o = o).
  { unfold next_muted. change (obj_get _ "muted") with (Some (VBool (muted o))).
    cbn [ToBoolean]. now rewrite Bool.eqb_reflx. }
  rewrite E2.
  assert (E3 : next_playbackRate (known_props o ++ extra o) o = o).
  { unfold next_playbackRate.
    change (obj_get _ "playbackRate") with (Some (VNum (playbackRate o))).
    destruct (clampNumber_same _ _ _ (bound_finite _ Hmin) (bound_finite _ Hmax) Hr)
      as (c & -> & ->).
    reflexivity. }
  rewrite E3.
  assert (E4 : next_seekStep (known_props o ++ extra o) o = o).
  { unfold next_seekStep. change (obj_get _ "seekStep") with (Some (VNum (seekStep o))).
    destruct (clampNumber_same n1 n120 _ eq_refl eq_refl Hs) as (c & -> & ->).
    reflexivity. }
  rewrite E4.
  assert (E5 : next_allowDownload (known_props o ++ extra o) o = o).
  { unfold next_allowDownload.
    change (obj_get _ "allowDownload") with (Some (VBool (allowDownload o))).
    cbn [ToBoolean]. now rewrite Bool.eqb_reflx. }
  rewrite E5.
  assert (E6 : next_playbackRateMin (known_props o ++ extra o) o = o).
  { unfold next_playbackRateMin.
    change (obj_get _ "playbackRateMin") with (Some (VNum (playbackRateMin o))).
    destruct (clampNumber_same n0_2 n4 _ eq_refl eq_refl Hmin) as (c & -> & ->).
    reflexivity. }
  rewrite E6.
  assert (E7 : next_playbackRateMax (known_props o ++ extra o) o = o).
  { unfold next_playbackRateMax.
    change (obj_get _ "playbackRateMax") with (Some (VNum (playbackRateMax o))).
    destruct (clampNumber_same n0_2 n4 _ eq_refl eq_refl Hmax) as (c & -> & ->).
    reflexivity. }
  rewrite E7.
  assert (E8 : next_playbackRateStep (known_props o ++ extra o) o = o).
  { unfold next_playbackRateStep.
    change (obj_get _ "playbackRateStep") with (Some (VNum (playbackRateStep o))).
    destruct (clampNumber_same n0_01 n1 _ eq_refl eq_refl Hst) as (c & -> & ->).
    reflexivity. }
  rewrite E8.
  assert (E9 : swap_bounds o = o).
  { unfold swap_bounds. change (fgt (playbackRateMin o) (playbackRateMax o))
      with (flt (playbackRateMax o) (playbackRateMin o)).
    now rewrite (fle_flt_false _ _ Hb). }
  rewrite E9.
  assert (E10 : reclamp_rate o = o).
  { unfold reclamp_rate.
    destruct (clampNumber_same _ _ _ (bound_finite _ Hmin) (bound_finite _ Hmax) Hr)
      as (c & -> & ->).
    reflexivity. }
  rewrite E10.
  assert (E11 : next_showTime (known_props o ++ extra o) o = o).
  { unfold next_showTime. change (obj_get _ "showTime") with (Some (VBool (showTime o))).
    cbn [ToBoolean]. now rewrite Bool.eqb_reflx. }
  rewrite E11.
  assert (E12 : next_theme (known_props o ++ extra o) o = o).
  { unfold next_theme. change (obj_get _ "theme") with (Some (VStr (theme o))).
    cbv beta iota zeta.
    rewrite (trimmed_of_trimmed _ Ht). cbn [default].
    unfold string_eqb. now rewrite String.eqb_refl. }
  rewrite E12.
  assert (E13 : next_downloadFilename (known_props o ++ extra o) o = o).
  { unfold next_downloadFilename.
    change (obj_get _ "downloadFilename")
      with (Some (from_option VStr VNull (downloadFilename o))).
    cbv beta iota zeta.
    destruct (downloadFilename o) as [f|] eqn:Ef; cbn [from_option].
    - rewrite (trimmed_of_trimmed _ (Hf f eq_refl)).
      now rewrite bool_decide_eq_true_2 by reflexivity.
    - cbn [trimmed]. now rewrite bool_decide_eq_true_2 by reflexivity. }
  rewrite E13.
  assert (E14 : next_ariaLabelPrefix (known_props o ++ extra o) o = o).
  { unfold next_ariaLabelPrefix.
    change (obj_get _ "ariaLabelPrefix") with (Some (VStr (ariaLabelPrefix o))).
    cbv beta iota zeta.
    rewrite (trimmed_of_trimmed _ Ha). cbn [default].
    unfold string_eqb. now rewrite String.eqb_refl. }
  rewrite E14.
  unfold next_src. change (obj_get _ "src") with (Some (VStr (src o))).
  cbv beta iota zeta.
  unfold string_eqb. now rewrite String.eqb_refl.
Qed.

(** ** What the blocks of [setOptions] leave alone *)

Section Untouched.
Variable p : list (string * value).

Lemma same_texts_trans x y z : same_texts x y -> same_texts y z -> same_texts x z.
Proof. intros (?&?&?) (?&?&?). repeat split; congruence. Qed.

Lemma next_volume_texts x : same_texts x (next_volume p x). Proof. one_block. Qed.
Lemma next_muted_texts x : same_texts x (next_muted p x). Proof. one_block. Qed.
Lemma next_playbackRate_texts x : same_texts x (next_playbackRate p x).
Proof. one_block. Qed.
Lemma next_seekStep_texts x : same_texts x (next_seekStep p x). Proof. one_block. Qed.
Lemma next_allowDownload_texts x : same_texts x (next_allowDownload p x).
Proof. one_block. Qed.
Lemma next_playbackRateMin_texts x : same_texts x (next_playbackRateMin p x).
Proof. one_block. Qed.
Lemma next_playbackRateMax_texts x : same_texts x (next_playbackRateMax p x).
Proof. one_block. Qed.
Lemma next_playbackRateStep_texts x : same_texts x (next_playbackRateStep p x).
Proof. one_block. Qed.
Lemma swap_bounds_texts x : same_texts x (swap_bounds x). Proof. one_block. Qed.
Lemma reclamp_rate_texts x : same_texts x (reclamp_rate x). Proof. one_block. Qed.
Lemma next_showTime_texts x : same_texts x (next_showTime p x). Proof. one_block. Qed.
Lemma next_theme_texts x : same_texts x (next_theme p x). Proof. one_block. Qed.

Lemma before_texts o :
  same_texts o (next_theme p (next_showTime p (reclamp_rate (swap_bounds (sanitized p o))))).
Proof.
  unfold sanitized.
  eapply same_texts_trans; [|apply next_theme_texts].
  eapply same_texts_trans; [|apply next_showTime_texts].
  eapply same_texts_trans; [|apply reclamp_rate_texts].
  eapply same_texts_trans; [|apply swap_bounds_texts].
  eapply same_texts_trans; [|apply next_playbackRateStep_texts].
  eapply same_texts_trans; [|apply next_playbackRateMax_texts].
  eapply same_texts_trans; [|apply next_playbackRateMin_texts].
  eapply same_texts_trans; [|apply next_allowDownload_texts].
  eapply same_texts_trans; [|apply next_seekStep_texts].
  eapply same_texts_trans; [|apply next_playbackRate_texts].
  eapply same_texts_trans; [|apply next_muted_texts].
  apply next_volume_texts.
Qed.

Lemma early_blocks_bounds o :
  playbackRateMin (next_muted p (next_volume p o)) = playbackRateMin o /\
  playbackRateMax (next_muted p (next_volume p o)) = playbackRateMax o.
Proof.
  assert (H1 : forall x, playbackRateMin (next_muted p x) = playbackRateMin x
                         /\ playbackRateMax (next_muted p x) = playbackRateMax x)
    by one_block.
  assert (H2 : forall x, playbackRateMin (next_volume p x) = playbackRateMin x
                         /\ playbackRateMax (next_volume p x) = playbackRateMax x)
    by one_block.
  destruct (H1 (next_volume p o)) as [-> ->]. apply H2.
Qed.

Lemma late_blocks_rate o :
  playbackRate
    (next_playbackRateStep p
       (next_playbackRateMax p
          (next_playbackRateMin p (next_allowDownload p (next_seekStep p o)))))
  = playbackRate o.
Proof.
  assert (H1 : forall x, playbackRate (next_playbackRateStep p x) = playbackRate x)
    by one_block.
  assert (H2 : forall x, playbackRate (next_playbackRateMax p x) = playbackRate x)
    by one_block.
  assert (H3 : forall x, playbackRate (next_playbackRateMin p x) = playbackRate x)
    by one_block.
  assert (H4 : forall x, playbackRate (next_allowDownload p x) = playbackRate x)
    by one_block.
  assert (H5 : forall x, playbackRate (next_seekStep p x) = playbackRate x)
    by one_block.
  now rewrite H1, H2, H3, H4, H5.
Qed.

Lemma next_options_extra o : extra (next_options o p) = extra o.
Proof.
  unfold next_options.
  assert (H1 : forall x, extra (next_src p x) = extra x) by one_block.
  assert (H2 : forall x, extra (next_ariaLabelPrefix p x) = extra x) by one_block.
  assert (H3 : forall x, extra (next_downloadFilename p x) = extra x) by one_block.
  rewrite H1, H2, H3. apply before_texts.
Qed.

Lemma next_options_tidy o : tidy o -> tidy (next_options o p).
Proof.
  intros [Hf Ha]. unfold next_options.
  destruct (before_texts o) as (_ & Y1 & Y2).
  set (y := next_theme p _) in *.
  set (z := next_downloadFilename p y).
  assert (Hz : (forall f, downloadFilename z = Some f -> is_trimmed f)
               /\ ariaLabelPrefix z = ariaLabelPrefix o).
  { subst z. unfold next_downloadFilename.
    destruct (obj_get p "downloadFilename") as [v|]; [|rewrite Y1, Y2; auto].
    cbv zeta. destruct (negb _); cbn [downloadFilename ariaLabelPrefix set_downloadFilename].
    - split; [|exact Y2]. intros f Ef. now apply (trimmed_Some v).
    - rewrite Y1, Y2. auto. }
  destruct Hz as [Z1 Z2].
  set (w := next_ariaLabelPrefix p z).
  assert (Hw : (forall f, downloadFilename w = Some f -> is_trimmed f)
               /\ is_trimmed (ariaLabelPrefix w)).
  { subst w. unfold next_ariaLabelPrefix.
    destruct (obj_get p "ariaLabelPrefix") as [v|]; [|rewrite Z2; auto].
    cbv zeta. destruct (negb _); cbn [downloadFilename ariaLabelPrefix set_ariaLabelPrefix].
    - split; [exact Z1|]. destruct (trimmed v) as [t|] eqn:Et; cbn [default].
      + now apply (trimmed_Some v).
      + split; [discriminate|reflexivity].
    - rewrite Z2. auto. }
  destruct Hw as [W1 W2].
  unfold tidy, next_src. repeat case_match; cbn [downloadFilename ariaLabelPrefix set_src];
    auto.
Qed.
End Untouched.

Lemma tidy_DEFAULT : tidy DEFAULT_OPTIONS.
Proof. split; [discriminate|]. split; [discriminate|reflexivity]. Qed.

Lemma _mergeOptions_tidy base override b :
  tidy base -> tidy (_mergeOptions base override b).
Proof.
  intros [Hf Ha]. unfold _mergeOptions. split; cbn [downloadFilename ariaLabelPrefix].
  - intros f Ef. eapply trimmed_Some; eassumption.
  - destruct (trimmed _) as [t|] eqn:Et; cbn [default]; [|exact Ha].
    eapply trimmed_Some; eassumption.
Qed.

Lemma set_src_tidy s o : tidy o -> tidy (set_src s o).
Proof. intros H. exact H. Qed.

(** ** A rate that arrives together with new bounds *)

Lemma above_truthy lo c :
  fle n0_2 lo = true -> fle lo c = true -> ToBoolean (VNum c) = true.
Proof.
  intros Hlo H1. destruct c as [sc|sc| |sc mc ec]; try reflexivity.
  - destruct lo as [[]|[]| |[] ml el]; try discriminate;
      destruct sc; discriminate.
  - destruct lo; discriminate.
Qed.

Lemma clamp_truthy lo hi x :
  fle n0_2 lo = true -> fle lo hi = true -> isNaN x = false ->
  ToBoolean (VNum (clamp lo hi x)) = true.
Proof.
  intros Hlo Hb Hx. destruct (clamp_in_range lo hi x Hb Hx) as [H1 _].
  now apply (above_truthy lo).
Qed.

Lemma sanitized_rate o p v :
  well_formed o -> obj_get p "playbackRate" = Some v -> isFinite (ToNumber v) = true ->
  playbackRate (sanitized p o)
  = clamp (playbackRateMin o) (playbackRateMax o) (ToNumber v).
Proof.
  intros Hwf Hv Hf. unfold sanitized. rewrite late_blocks_rate.
  destruct (early_blocks_bounds p o) as [E1 E2].
  unfold next_playbackRate at 1. rewrite Hv, E1, E2.
  rewrite clampNumber_finite by exact Hf. fold (clamp (playbackRateMin o) (playbackRateMax o) (ToNumber v)).
  rewrite assign_playbackRate; [reflexivity|].
  apply clamp_truthy; [apply (wf_min o Hwf)|apply (wf_bounds o Hwf)|].
  now apply isFinite_not_nan.
Qed.

Lemma next_options_rate o p v :
  well_formed o -> obj_get p "playbackRate" = Some v -> isFinite (ToNumber v) = true ->
  let o' := next_options o p in
  feq (clamp (playbackRateMin o') (playbackRateMax o')
             (clamp (playbackRateMin o) (playbackRateMax o) (ToNumber v)))
      (playbackRate o') = true.
Proof.
  intros Hwf Hv Hf o'.
  destruct (next_options_rates o p) as (Hmin & Hmax & Hrate).
  fold o' in Hmin, Hmax, Hrate.
  rewrite reclamp_rate_min in Hmin. rewrite reclamp_rate_max in Hmax.
  rewrite Hmin, Hmax, Hrate, <- (sanitized_rate o p v Hwf Hv Hf),
    <- (swap_bounds_rate (sanitized p o)).
  pose proof (sanitized_typed p _ (well_formed_typed _ Hwf)) as Ht.
  apply reclamp_rate_rate.
  - rewrite swap_bounds_rate. apply (wt_rate _ Ht).
  - now apply swap_bounds_ordered.
Qed.

(** ** [resetOptions()] *)

Lemma next_options_defaults o :
  well_formed o ->
  next_options o (known_props DEFAULT_OPTIONS)
  = set_playbackRate
      (clamp n0_2 n2 (clamp (playbackRateMin o) (playbackRateMax o) n1))
      (set_extra (extra o) DEFAULT_OPTIONS).
Proof.
  intros Hwf. set (p := known_props DEFAULT_OPTIONS).
  set (c1 := clamp (playbackRateMin o) (playbackRateMax o) n1).
  assert (Hc1 : in_range (playbackRateMin o) (playbackRateMax o) c1)
    by (apply clamp_in_range; [apply (wf_bounds o Hwf)|reflexivity]).
  assert (Hf1 : isFinite c1 = true).
  { eapply in_range_finite; [| |exact Hc1]; apply bound_finite;
      [apply (wf_min o Hwf)|apply (wf_max o Hwf)]. }
  assert (Ht1 : ToBoolean (VNum c1) = true).
  { apply clamp_truthy; [apply (wf_min o Hwf)|apply (wf_bounds o Hwf)|reflexivity]. }
  assert (E1 : next_volume p o = set_volume n100 o).
  { unfold next_volume. change (obj_get p "volume") with (Some (VNum n100)).
    change (clampNumber (VNum n100) n0 n100) with (Some n100).
    now apply assign_volume. }
  assert (E2 : forall x, next_muted p x = set_muted false x).
  { intros x. unfold next_muted. change (obj_get p "muted") with (Some (VBool false)).
    cbv beta iota zeta. apply assign_muted. }
  assert (E3 : next_playbackRate p (set_muted false (set_volume n100 o))
               = set_playbackRate c1 (set_muted false (set_volume n100 o))).
  { unfold next_playbackRate.
    change (obj_get p "playbackRate") with (Some (VNum n1)).
    cbn [playbackRateMin playbackRateMax set_muted set_volume].
    rewrite clampNumber_finite by reflexivity. cbn [ToNumber]. fold c1.
    now apply assign_playbackRate. }
  assert (E4 : forall x, next_seekStep p x = set_seekStep n10 x).
  { intros x. unfold next_seekStep. change (obj_get p "seekStep") with (Some (VNum n10)).
    change (clampNumber (VNum n10) n1 n120) with (Some n10).
    now apply assign_seekStep. }
  assert (E5 : forall x, next_allowDownload p x = set_allowDownload true x).
  { intros x. unfold next_allowDownload.
    change (obj_get p "allowDownload") with (Some (VBool true)).
    cbv beta iota zeta. apply assign_allowDownload. }
  assert (E6 : forall x, next_playbackRateMin p x = set_playbackRateMin n0_2 x).
  { intros x. unfold next_playbackRateMin.
    change (obj_get p "playbackRateMin") with (Some (VNum n0_2)).
    change (clampNumber (VNum n0_2) n0_2 n4) with (Some n0_2).
    now apply assign_playbackRateMin. }
  assert (E7 : forall x, next_playbackRateMax p x = set_playbackRateMax n2 x).
  { intros x. unfold next_playbackRateMax.
    change (obj_get p "playbackRateMax") with (Some (VNum n2)).
    change (clampNumber (VNum n2) n0_2 n4) with (Some n2).
    now apply assign_playbackRateMax. }
  assert (E8 : forall x, next_playbackRateStep p x = set_playbackRateStep n0_05 x).
  { intros x. unfold next_playbackRateStep.
    change (obj_get p "playbackRateStep") with (Some (VNum n0_05)).
    change (clampNumber (VNum n0_05) n0_01 n1) with (Some n0_05).
    now apply assign_playbackRateStep. }
  assert (E9 : forall x, next_showTime p x = set_showTime true x).
  { intros x. unfold next_showTime. change (obj_get p "showTime") with (Some (VBool true)).
    cbv beta iota zeta. apply assign_showTime. }
  assert (E10 : forall x, next_theme p x = set_theme "auto" x).
  { intros x. unfold next_theme. change (obj_get p "theme") with (Some (VStr "auto")).
    cbv beta iota zeta. change (trimmed (VStr "auto")) with (Some "auto").
    apply assign_theme. }
  assert (E11 : forall x, next_downloadFilename p x = set_downloadFilename None x).
  { intros x. unfold next_downloadFilename.
    change (obj_get p "downloadFilename") with (Some VNull).
    cbv beta iota zeta. apply assign_downloadFilename. }
  assert (E12 : forall x, next_ariaLabelPrefix p x = set_ariaLabelPrefix "Audio player" x).
  { intros x. unfold next_ariaLabelPrefix.
    change (obj_get p "ariaLabelPrefix") with (Some (VStr "Audio player")).
    cbv beta iota zeta. change (trimmed (VStr "Audio player")) with (Some "Audio player").
    apply assign_ariaLabelPrefix. }
  assert (E13 : forall x, next_src p x = set_src "" x).
  { intros x. unfold next_src. change (obj_get p "src") with (Some (VStr "")).
    cbv beta iota zeta. apply assign_src. }
  unfold next_options, sanitized.
  rewrite E1, E2, E3, E4, E5, E6, E7, E8, E13, E12, E11, E10, E9.
  unfold swap_bounds.
  cbn [playbackRateMin playbackRateMax set_playbackRateStep set_playbackRateMax
       set_playbackRateMin].
  change (fgt n0_2 n2) with false. cbv iota.
  match goal with |- context [reclamp_rate ?x] => set (X := x) end.
  assert (E14 : reclamp_rate X = set_playbackRate (clamp n0_2 n2 c1) X).
  { unfold reclamp_rate.
    replace (clampNumber (VNum (playbackRate X)) (playbackRateMin X) (playbackRateMax X))
      with (Some (clamp n0_2 n2 c1))
      by (symmetry; subst X;
          cbn [playbackRate playbackRateMin playbackRateMax set_playbackRateStep
               set_playbackRateMax set_playbackRateMin set_allowDownload set_seekStep
               set_playbackRate];
          now apply clampNumber_finite).
    apply assign_playbackRate, clamp_truthy;
      [reflexivity|reflexivity|now apply isFinite_not_nan]. }
  rewrite E14. subst X. destruct o. reflexivity.
Qed.

(** ** Keys outside the documented options *)

Lemma obj_get_set_eq acc k v : obj_get (obj_set acc k v) k = Some v.
Proof.
  induction acc as [|[k' v'] acc IH]; cbn [obj_set obj_get].
  - unfold string_eqb. now rewrite String.eqb_refl.
  - destruct (string_eqb k' k) eqn:E; cbn [obj_get].
    + unfold string_eqb. now rewrite String.eqb_refl.
    + now rewrite E.
Qed.

Lemma obj_get_set_ne acc k k' v : k' <> k -> obj_get (obj_set acc k' v) k = obj_get acc k.
Proof.
  intros Hne. induction acc as [|[k2 v2] acc IH]; cbn [obj_set obj_get].
  - apply string_eqb_neq in Hne. now rewrite Hne.
  - destruct (string_eqb k2 k') eqn:E; cbn [obj_get].
    + apply string_eqb_eq in E. subst k2.
      apply string_eqb_neq in Hne. now rewrite Hne.
    + now rewrite IH.
Qed.

Lemma obj_get_In props k v : obj_get props k = Some v -> In k (map fst props).
Proof.
  induction props as [|[k' v'] props IH]; cbn [obj_get]; [discriminate|].
  destruct (string_eqb k' k) eqn:E.
  - apply string_eqb_eq in E. subst. intros _. now left.
  - intros H. right. now apply IH.
Qed.

Lemma merged_extra_keeps (props : list (string * value)) base k v :
  known_key k = false -> obj_get props k = Some v ->
  forall (l : list (string * value)) acc,
    obj_get acc k = Some v \/ In k (map fst l) ->
    obj_get
      (fold_left
         (fun acc (kv : string * value) =>
            if (true || has_key base (fst kv)) && negb (known_key (fst kv))
            then obj_set acc (fst kv) (default VUndefined (obj_get props (fst kv)))
            else acc)
         l acc) k = Some v.
Proof.
  intros Hk Hv. induction l as [|[k' v'] l IH]; intros acc H; cbn [fold_left].
  - destruct H as [H|[]]. exact H.
  - apply IH. cbn [fst orb andb].
    destruct (decide (k' = k)) as [->|Hne].
    + left. rewrite Hk. cbn [negb]. rewrite Hv. cbn [default]. apply obj_get_set_eq.
    + destruct H as [H|[H|H]]; [|contradiction|now right].
      left. destruct (negb (known_key k')); [|exact H].
      now rewrite obj_get_set_ne.
Qed.

Lemma _mergeOptions_keeps_unknown base props k v :
  known_key k = false -> obj_get props k = Some v ->
  obj_get (extra (_mergeOptions base (VObj props) true)) k = Some v.
Proof.
  intros Hk Hv. unfold _mergeOptions. cbn [extra own_props].
  apply (merged_extra_keeps props base k v Hk Hv). right.
  now apply (obj_get_In props k v).
Qed.

Lemma In_obj_get props k : In k (map fst props) -> is_Some (obj_get props k).
Proof.
  induction props as [|[k' v'] props IH]; cbn [map fst In obj_get]; [tauto|].
  intros [->|H].
  - unfold string_eqb. rewrite String.eqb_refl. eauto.
  - destruct (string_eqb k' k); [eauto|now apply IH].
Qed.

(** The documented keys are the same in every record. *)
Lemma known_props_keys o k :
  is_Some (obj_get (known_props o) k) -> known_key k = true.
Proof.
  intros [v Hv]. unfold known_key. apply bool_decide_eq_true_2.
  apply In_obj_get. apply obj_get_In in Hv. exact Hv.
Qed.

(** ** The state [load] leaves *)

Section LoadState.
Variable handler_throws : nat -> value -> option value.
Variable callback_registers : nat -> list (value * value).
Variable querySelector : string -> bool.

Lemma load_state st a d s meta previousSrc :
  _audio st = Some a -> _dom st = Some d -> s <> "" -> meta <> VNull ->
  exists st',
    load handler_throws (VStr s) meta previousSrc st = (Ok tt, st') /\
    _meta st' = meta_of meta /\
    _audio st' =
      Some (Audio.Build s n0 NaN (fdiv (volume (_options st)) n100)
                        (muted (_options st)) (playbackRate (_options st)) true) /\
    _dom st' = Some (Dom.Build "0:00" "0:00" "0" "0" (Dom.attached d)) /\
    _rafId st' = None /\
    _listeners st' = _listeners st.
Proof.
  intros Ha Hd Hs Hm. destruct st; simpl in Ha, Hd; subst.
  apply String.eqb_neq in Hs.
  unfold load. run_m. unfold string_eqb. rewrite Hs.
  destruct _rafId0, meta; try contradiction.
  all: simp_rec; rewrite ?if_same.
  all: destruct previousSrc; cbv [previous_src].
  all: match goal with
       | |- context [strict_eq ?x ?y] => destruct (strict_eq x y) eqn:E
       end.
  all: cbv [negb]; rewrite ?emit_run.
  all: eexists; (split; [reflexivity|]).
  all: simp_rec; rewrite ?if_same.
  all: repeat (split; [try reflexivity|]); reflexivity.
Qed.
End LoadState.

(** ** The options a construction leaves, and what stays true of them *)

Section Shape.
Variable handler_throws : nat -> value -> option value.
Variable callback_registers : nat -> list (value * value).
Variable querySelector : string -> bool.

(** The options a successful construction leaves: the merged record passed
    through [setOptions], with the source [load] has written. *)
Lemma constructor_options container options st :
  constructor handler_throws callback_registers querySelector container options
  = (Ok tt, st) ->
  let opts := match options with VUndefined => VObj [] | _ => options end in
  let m := _mergeOptions DEFAULT_OPTIONS opts true in
  let x := next_options m (known_props m ++ extra m) in
  _options st = x \/ exists s, _options st = set_src s x.
Proof.
  unfold constructor.
  set (opts := match options with VUndefined => VObj [] | _ => options end).
  set (st0 := fresh (_mergeOptions DEFAULT_OPTIONS opts true)).
  destruct (negb _); [discriminate|].
  unfold bind at 1. unfold options_ at 1. unfold bind at 1.
  destruct (setOptions_live handler_throws st0 Audio.create Dom.create
              (known_props (_options st0) ++ extra (_options st0))%list
              eq_refl eq_refl)
    as (st1 & a1 & Hl & Ho & Ha & _ & Hd & Hev & Hds & _).
  change (options_object (_options st0))
    with (VObj (known_props (_options st0) ++ extra (_options st0))%list).
  rewrite Hl.
  unfold bind at 1.
  destruct (_registerOptionEvents_frame callback_registers opts st1)
    as (F0 & F1 & F2 & F3 & F4 & _ & F6).
  destruct (_registerOptionEvents callback_registers opts st1) as [r2 st2].
  cbn [fst snd] in *. subst r2.
  unfold bind, options_.
  destruct (negb (string_eqb (src (_options st2)) "")) eqn:Es.
  - destruct Hd as [d1 Hd].
    assert (Hs : src (_options st2) <> "").
    { apply String.eqb_neq. unfold string_eqb in Es.
      now destruct (String.eqb (src (_options st2)) ""). }
    match goal with |- load _ _ ?m ?p _ = _ -> _ =>
      destruct (load_live handler_throws st2 a1 d1 (src (_options st2)) m p)
        as (st3 & a3 & Hl3 & Ho3 & _)
    end; try congruence.
    { destruct (ToBoolean (get_prop opts "meta")) eqn:Em; [|discriminate].
      intros E. rewrite E in Em. discriminate. }
    rewrite Hl3. intros [= <-]. cbv zeta. right.
    exists (src (_options st2)). rewrite Ho3, F1, Ho. reflexivity.
  - intros [= <-]. cbv zeta. left. rewrite F1, Ho. reflexivity.
Qed.

(** The text options are stored trimmed in every reachable state. *)
Lemma exec_tidy c st :
  tidy (_options st) -> tidy (_options (exec handler_throws c st)).
Proof.
  intros Ht. destruct c; cbn [exec].
  - destruct (on_frame name handler st) as (_ & -> & _). exact Ht.
  - now rewrite off_options.
  - now destruct (emit_config handler_throws name payload st) as [-> _].
  - exact Ht.
  - destruct partial as [| | | | |props|]; try exact Ht.
    + change (setOptions handler_throws VUndefined st)
        with (setOptions handler_throws (VObj []) st).
      destruct (setOptions_props_config handler_throws [] st) as [_ ->].
      now apply next_options_tidy.
    + destruct (setOptions_props_config handler_throws props st) as [_ ->].
      now apply next_options_tidy.
  - unfold resetOptions.
    destruct (setOptions_props_config handler_throws
                (fold_left (fun acc kv => obj_set acc (fst kv) (snd kv))
                   (own_props (match partial with VUndefined => VObj [] | _ => partial end))
                   (known_props DEFAULT_OPTIONS)) st) as [_ ->].
    now apply next_options_tidy.
  - destruct (load_config handler_throws source meta previousSrc st) as [_ [->|[s ->]]];
      exact Ht.
  - now destruct (play_config st) as [-> _].
  - unfold play_rejected.
    now destruct (emit_config handler_throws (VStr "error") (VObj [("error", error)]) st)
      as [-> _].
  - now destruct (pause_config st) as [-> _].
  - now destruct (toggle_config st) as [-> _].
  - now destruct (seek_config handler_throws seconds st) as [-> _].
  - now destruct (seekBy_config handler_throws deltaSeconds st) as [-> _].
  - now destruct (setPlaybackRate_config rate st) as [-> _].
  - now destruct (setVolume_config volume0to100 st) as [-> _].
  - now destruct (mute_config st) as [-> _].
  - now destruct (unmute_config st) as [-> _].
  - now destruct (toggleMute_config st) as [-> _].
  - now destruct (destroy_config st) as [-> _].
Qed.

Lemma reachable_tidy st :
  reachable handler_throws callback_registers querySelector st -> tidy (_options st).
Proof.
  induction 1 as [container options st H|st c _ IH].
  - destruct (constructor_options container options st H) as [->|[s ->]];
      [|apply set_src_tidy]; apply next_options_tidy, _mergeOptions_tidy, tidy_DEFAULT.
  - now apply exec_tidy.
Qed.
End Shape.

(** ** [setOptions], [resetOptions] and the keys they ignore *)

Section OptionsCalls.
Variable handler_throws : nat -> value -> option value.
Variable callback_registers : nat -> list (value * value).
Variable querySelector : string -> bool.

(** [setOptions] with a [src] key and a source to play loads it: whatever
    was playing, the element ends paused at the start of the new source,
    with the options applied, and the metadata is the empty metadata. *)
Lemma setOptions_reloads st a d props :
  _audio st = Some a -> _dom st = Some d ->
  let next := next_options (_options st) props in
  is_Some (obj_get props "src") -> src next <> "" ->
  exists st',
    setOptions handler_throws (VObj props) st = (Ok next, st') /\
    _meta st' = meta_of (VObj []) /\
    _audio st' =
      Some (Audio.Build (src next) n0 NaN (fdiv (volume next) n100)
                        (muted next) (playbackRate next) true) /\
    _dom st' = Some (Dom.Build "0:00" "0:00" "0" "0" (Dom.attached d)).
Proof.
  intros Ha Hd next [v Hv] Hsrc. destruct st; simpl in Ha, Hd; subst.
  simpl in next.
  apply String.eqb_neq in Hsrc.
  run_m. simp_rec. rewrite ?if_same. fold next. rewrite !set_playbackRate_id.
  rewrite Hv. unfold string_eqb. rewrite Hsrc. cbv [negb]. cbv beta iota.
  eval_m.
  all: match goal with
       | |- context [load handler_throws (VStr ?s) ?m ?p ?st0] =>
           destruct (load_state handler_throws st0 _ _ s m p eq_refl eq_refl)
             as (st' & Hl & Hmeta & Hau & Hdm & _);
           [now apply String.eqb_neq|discriminate|];
           destruct (load_live handler_throws st0 _ _ s m p eq_refl eq_refl)
             as (st'' & a'' & Hl' & Ho & _);
           [now apply String.eqb_neq|discriminate|]
       end.
  all: rewrite Hl in Hl'; injection Hl' as <-.
  all: rewrite Hl; destruct st'; simp_rec;
    cbn [_options _meta _audio _dom _events _destroyed trace] in *.
  all: subst; rewrite set_src_id.
  all: eexists; (split; [reflexivity|]).
  all: repeat (split; [try reflexivity|]); reflexivity.
Qed.

(** X6.  In every reachable state of a player that is not destroyed,
    handing the record [getOptions] returns back to [setOptions] leaves the
    options and the registry as they are and announces nothing.  It is not
    a no-op when a source is set: the source is loaded again, which leaves
    the element paused at position 0 and replaces the metadata of the track
    by the empty metadata. *)
Theorem setOptions_of_getOptions st :
  reachable handler_throws callback_registers querySelector st -> live st ->
  let o := _options st in
  getOptions st = (Ok o, st) /\
  exists st',
    setOptions handler_throws (options_object o) st = (Ok o, st') /\
    _options st' = o /\ _events st' = _events st /\ trace st' = trace st /\
    (src o <> "" ->
     _meta st' = meta_of (VObj []) /\
     exists a', _audio st' = Some a' /\ Audio.paused a' = true
                /\ Audio.currentTime a' = n0).
Proof.
  intros Hr [[a Ha] [d Hd]] o. split; [reflexivity|].
  destruct (reachable_consistent _ _ _ st Hr) as [Hwf _].
  pose proof (reachable_tidy _ _ _ st Hr) as Ht.
  pose proof (next_options_own o Hwf Ht) as Hown.
  destruct (setOptions_live handler_throws st a d (known_props o ++ extra o)%list Ha Hd)
    as (st' & a' & Hl & Ho & Ha' & _ & _ & Hev & _ & Htr).
  cbv zeta in Hl, Ho, Htr. fold o in Hl, Ho, Htr. rewrite Hown in Hl, Ho, Htr.
  exists st'. split; [exact Hl|]. split; [exact Ho|]. split; [exact Hev|]. split.
  - rewrite Htr. unfold src_announced. unfold string_eqb at 2.
    rewrite String.eqb_refl, andb_false_r. apply app_nil_r.
  - intros Hsrc.
    destruct (setOptions_reloads st a d (known_props o ++ extra o)%list Ha Hd)
      as (st2 & Hl2 & Hm & Hau & _).
    { now exists (VStr (src o)). }
    { fold o. now rewrite Hown. }
    fold o in Hl2. rewrite Hown in Hl2.
    change (options_object o) with (VObj (known_props o ++ extra o)%list) in Hl.
    rewrite Hl in Hl2. injection Hl2 as <-.
    split; [exact Hm|]. eexists. split; [exact Hau|]. split; reflexivity.
Qed.

(** X7.  A rate passed to [setOptions] is clamped against the bounds in
    force before the call, also when the same call changes the bounds; the
    new bounds are applied to that result afterwards, and the element plays
    at the rate that comes out. *)
Theorem setOptions_clamps_rate_to_old_bounds st props v :
  live st -> well_formed (_options st) ->
  obj_get props "playbackRate" = Some v -> isFinite (ToNumber v) = true ->
  let o := _options st in
  exists o' st' a',
    setOptions handler_throws (VObj props) st = (Ok o', st') /\
    _options st' = o' /\
    playbackRate (sanitized props o)
    = clamp (playbackRateMin o) (playbackRateMax o) (ToNumber v) /\
    feq (clamp (playbackRateMin o') (playbackRateMax o')
               (clamp (playbackRateMin o) (playbackRateMax o) (ToNumber v)))
        (playbackRate o') = true /\
    _audio st' = Some a' /\ Audio.playbackRate a' = playbackRate o'.
Proof.
  intros [[a Ha] [d Hd]] Hwf Hv Hf o.
  destruct (setOptions_live handler_throws st a d props Ha Hd)
    as (st' & a' & Hl & Ho & Ha' & Hr & _).
  exists (next_options o props), st', a'.
  split; [exact Hl|]. split; [exact Ho|].
  split; [now apply sanitized_rate|].
  split; [now apply next_options_rate|]. split; [exact Ha'|exact Hr].
Qed.

(** X8.  [resetOptions()] on a live player whose options are in their
    domain returns every documented option to its default and keeps the
    undocumented keys, with one exception: the default rate 1 is clamped
    against the bounds in force before the call, so that the rate comes
    back as 1 exactly when those bounds contain 1.  Nothing is announced. *)
Theorem resetOptions_restores_defaults st :
  live st -> well_formed (_options st) ->
  let o := _options st in
  let rate := clamp n0_2 n2 (clamp (playbackRateMin o) (playbackRateMax o) n1) in
  exists st',
    resetOptions handler_throws VUndefined st = (Ok (_options st'), st') /\
    _options st' = set_playbackRate rate (set_extra (extra o) DEFAULT_OPTIONS) /\
    (in_range (playbackRateMin o) (playbackRateMax o) n1 -> rate = n1) /\
    trace st' = trace st.
Proof.
  intros [[a Ha] [d Hd]] Hwf o rate.
  change (resetOptions handler_throws VUndefined st)
    with (setOptions handler_throws (VObj (known_props DEFAULT_OPTIONS)) st).
  destruct (setOptions_live handler_throws st a d (known_props DEFAULT_OPTIONS) Ha Hd)
    as (st' & a' & Hl & Ho & _ & _ & _ & _ & _ & Htr).
  cbv zeta in Hl, Ho, Htr. fold o in Hl, Ho, Htr.
  rewrite (next_options_defaults o Hwf) in Hl, Ho, Htr. fold rate in Hl, Ho, Htr.
  exists st'. rewrite Ho. split; [exact Hl|]. split; [reflexivity|]. split.
  - intros Hin. subst rate.
    pose proof (clamp_identity _ _ _ Hin) as E.
    apply feq_sym in E. apply feq_eq in E; [|reflexivity].
    unfold clamp at 2. rewrite E. reflexivity.
  - rewrite Htr. apply app_nil_r.
Qed.

(** X9.  Keys outside the documented options: the constructor keeps every
    such key of its argument with its value, [getOptions] shows them, and
    no [setOptions] or [resetOptions] adds, changes or removes one. *)
Theorem undocumented_keys_are_kept :
  (forall container props st k v,
     constructor handler_throws callback_registers querySelector container (VObj props)
     = (Ok tt, st) ->
     known_key k = false -> obj_get props k = Some v ->
     obj_get (extra (_options st)) k = Some v
     /\ get_prop (options_object (_options st)) k = v)
  /\ (forall partial st,
        extra (_options (snd (setOptions handler_throws partial st)))
        = extra (_options st))
  /\ (forall partial st,
        extra (_options (snd (resetOptions handler_throws partial st)))
        = extra (_options st)).
Proof.
  assert (Hset : forall partial st,
            extra (_options (snd (setOptions handler_throws partial st)))
            = extra (_options st)).
  { intros partial st. destruct partial as [| | | | |props|]; try reflexivity.
    - change (setOptions handler_throws VUndefined st)
        with (setOptions handler_throws (VObj []) st).
      destruct (setOptions_props_config handler_throws [] st) as [_ ->].
      apply next_options_extra.
    - destruct (setOptions_props_config handler_throws props st) as [_ ->].
      apply next_options_extra. }
  split; [|split; [exact Hset|intros partial st; apply Hset]].
  intros container props st k v Hc Hk Hv.
  assert (He : obj_get (extra (_options st)) k = Some v).
  { destruct (constructor_options _ _ _ container (VObj props) st Hc) as [->|[s ->]];
      cbn [extra set_src]; rewrite next_options_extra;
      now apply _mergeOptions_keeps_unknown. }
  split; [exact He|].
  unfold options_object, get_prop.
  assert (Happ : forall l1 l2, obj_get l1 k = None ->
                   obj_get (l1 ++ l2)%list k = obj_get l2 k).
  { induction l1 as [|[k' v'] l1 IH]; intros l2 H; [reflexivity|].
    cbn [app obj_get] in *. destruct (string_eqb k' k); [discriminate|now apply IH]. }
  rewrite Happ, He; [reflexivity|].
  destruct (obj_get (known_props (_options st)) k) eqn:E; [|reflexivity].
  rewrite (known_props_keys (_options st) k) in Hk by eauto. discriminate.
Qed.

(** X10.  In every state a player goes through, from its construction and
    through any sequence of calls of its public methods, the options are in
    their domain (volume in [0,100], seekStep in [1,120], the rate bounds in
    [0.2,4] and ordered, the rate step in [0.01,1], the rate between the
    bounds, the theme a trimmed non-blank string), the download file name and
    the label prefix are stored trimmed, and no handler is registered twice
    for an event. *)
Theorem every_state_is_consistent st :
  reachable handler_throws callback_registers querySelector st ->
  well_formed (_options st)
  /\ tidy (_options st)
  /\ (forall n set, _events st !! n = Some set -> NoDup set).
Proof.
  intros Hr. destruct (reachable_consistent _ _ _ st Hr) as [Hwf Hreg].
  split; [exact Hwf|]. split; [exact (reachable_tidy _ _ _ st Hr)|].
  intros n set Hn. now destruct (Hreg n set Hn).
Qed.
End OptionsCalls.

(** ** [off], the calls that leave the configuration alone, [destroy] *)

Section Unregistering.
Variable handler_throws : nat -> value -> option value.
Variable callback_registers : nat -> list (value * value).
Variable querySelector : string -> bool.

Lemma emit_calls_none h name payload st :
  h ∉ registered st name ->
  calls_to h (trace (snd (emit handler_throws name payload st))) = calls_to h (trace st).
Proof.
  intros Hnot. rewrite emit_run. cbn [snd].
  assert (Ht : forall l, trace (with_trace l st) = l) by (now destruct st).
  rewrite Ht, calls_to_app. change (Emit ?a ?b :: ?l) with ([Emit a b] ++ l)%list.
  rewrite calls_to_app, calls_to_invocations.
  assert (E0 : count_occ Nat.eq_dec (registered st name) h = 0%nat).
  { apply count_occ_not_In. intros Hin. apply Hnot. now apply list_elem_of_In. }
  rewrite E0. cbn. lia.
Qed.

Lemma off_unchanged name st h :
  registered st name = [] ->
  registered st name = filter (fun h' => h' <> h) (registered st name)
  /\ (h ∉ registered st name)
  /\ forall payload,
       calls_to h (trace (snd (emit handler_throws name payload st)))
       = calls_to h (trace st).
Proof.
  intros E. split; [now rewrite E|].
  assert (Hnot : h ∉ registered st name) by (rewrite E; apply not_elem_of_nil).
  split; [exact Hnot|]. intros payload. now apply emit_calls_none.
Qed.

(** X11.  [off(name, handler)] always returns; it removes [handler] from
    the handlers of [name] and keeps the others in their order, leaves the
    handlers of every other event alone, and an [emit] of [name] afterwards
    does not call [handler].  With a value that is not a function it
    changes nothing. *)
Theorem off_unregisters name handler st :
  let st' := snd (off name handler st) in
  fst (off name handler st) = Ok tt
  /\ (forall other, other <> name -> registered st' other = registered st other)
  /\ _options st' = _options st /\ trace st' = trace st
  /\ ((forall h, handler <> VFun h) -> st' = st)
  /\ (forall h, handler = VFun h ->
        registered st' name = filter (fun h' => h' <> h) (registered st name)
        /\ (h ∉ registered st' name)
        /\ forall payload,
             calls_to h (trace (snd (emit handler_throws name payload st')))
             = calls_to h (trace st)).
Proof.
  cbv zeta.
  assert (Hsame : off name handler st = (Ok tt, st) -> registered st name = [] ->
    fst (off name handler st) = Ok tt
    /\ (forall other, other <> name ->
          registered (snd (off name handler st)) other = registered st other)
    /\ _options (snd (off name handler st)) = _options st
    /\ trace (snd (off name handler st)) = trace st
    /\ ((forall h, handler <> VFun h) -> snd (off name handler st) = st)
    /\ (forall h, handler = VFun h ->
          registered (snd (off name handler st)) name
          = filter (fun h' => h' <> h) (registered st name)
          /\ (h ∉ registered (snd (off name handler st)) name)
          /\ forall payload,
               calls_to h (trace (snd (emit handler_throws name payload
                                         (snd (off name handler st)))))
               = calls_to h (trace st))).
  { intros -> E. cbn [fst snd]. split; [reflexivity|]. split; [reflexivity|].
    split; [reflexivity|]. split; [reflexivity|]. split; [reflexivity|].
    intros h Hh. now apply off_unchanged. }
  destruct name as [| | | |n| |]; try (apply Hsame; reflexivity).
  destruct (_events st !! n) as [set|] eqn:El.
  2:{ apply Hsame; [unfold off, modify; now rewrite El|].
      cbn [registered]. now rewrite El. }
  destruct handler as [| | | | | |h0].
  1-6: unfold off, modify; rewrite El; cbn [fst snd];
       (split; [reflexivity|]); (split; [reflexivity|]); (split; [reflexivity|]);
       (split; [reflexivity|]); (split; [reflexivity|]); intros h [=].
  unfold off, modify. rewrite El. cbn [fst snd].
  split; [reflexivity|]. split.
  { intros other Ho. destruct other as [| | | |m| |]; try reflexivity.
    cbn [registered with_events _events].
    rewrite lookup_insert_ne; [reflexivity|]. intros ->. now apply Ho. }
  split; [now destruct st|]. split; [now destruct st|]. split.
  { intros H. now destruct (H h0). }
  intros h [= <-].
  assert (Hreg : registered
                   (with_events (<[n:=filter (fun h' => h' <> h0) set]> (_events st)) st)
                   (VStr n)
                 = filter (fun h' => h' <> h0) (registered st (VStr n))).
  { cbn [registered with_events _events]. rewrite lookup_insert_eq, El. reflexivity. }
  split; [exact Hreg|].
  assert (Hnot : h0 ∉ filter (fun h' => h' <> h0) (registered st (VStr n))).
  { intros Hin. apply list_elem_of_filter in Hin as [Hne _]. now apply Hne. }
  split; [rewrite Hreg; exact Hnot|].
  intros payload. rewrite emit_calls_none; [now destruct st|].
  rewrite Hreg. exact Hnot.
Qed.

(** X12.  Only [on], [off], [setOptions], [resetOptions], [load] and
    [destroy] can change the options record or the registry: every other
    public call (reading the options, emitting, and all of play, pause,
    toggle, seek, seekBy, setPlaybackRate, setVolume, mute, unmute and
    toggleMute) leaves both exactly as they were, whether it returns or
    throws. *)
Theorem playback_calls_keep_the_configuration c st :
  writes_config c = false -> same_config st (exec handler_throws c st).
Proof.
  destruct c; cbn [writes_config exec]; try discriminate; intros _.
  - apply emit_config.
  - split; reflexivity.
  - apply play_config.
  - apply emit_config.
  - apply pause_config.
  - apply toggle_config.
  - apply seek_config.
  - apply seekBy_config.
  - apply setPlaybackRate_config.
  - apply setVolume_config.
  - apply mute_config.
  - apply unmute_config.
  - apply toggleMute_config.
Qed.

(** X13.  On a live player [toggleMute] twice gives back the state it
    started from; one [toggleMute] is [unmute] on a muted element and [mute]
    otherwise; [mute] and [unmute] are idempotent and each undoes the other's
    effect on the element. *)
Theorem toggleMute_is_an_involution st :
  is_Some (_audio st) ->
  toggleMute (snd (toggleMute st)) = (Ok tt, st)
  /\ (forall a, _audio st = Some a ->
        toggleMute st = if Audio.muted a then unmute st else mute st)
  /\ mute (snd (mute st)) = mute st
  /\ unmute (snd (unmute st)) = unmute st
  /\ unmute (snd (mute st)) = unmute st
  /\ mute (snd (unmute st)) = mute st.
Proof.
  intros [a Ha]. destruct st as [o m a0 d ev ls ds raf tr]. cbn in Ha. subst a0.
  destruct a as [s t du v mu r p].
  split; [destruct mu; reflexivity|].
  split; [intros a' [= <-]; destruct mu; reflexivity|].
  repeat split.
Qed.

(** X14.  [destroy] on a player that is not destroyed empties the
    registry, the list of bound listeners and the animation frame, and keeps
    the options; afterwards an [emit] calls no handler, [off] changes
    nothing, and [getOptions] and [_getLiveOptions] still return the stored
    options. *)
Theorem destroy_silences_the_player st :
  _destroyed st = false ->
  let st' := snd (destroy st) in
  _destroyed st' = true /\ _events st' = ∅ /\ _listeners st' = [] /\ _rafId st' = None
  /\ _audio st' = None /\ _dom st' = None
  /\ _options st' = _options st /\ _meta st' = _meta st /\ trace st' = trace st
  /\ (forall name payload,
        emit handler_throws name payload st'
        = (Ok tt, with_trace (trace st' ++ [Emit name payload])%list st'))
  /\ (forall name handler, off name handler st' = (Ok tt, st'))
  /\ getOptions st' = (Ok (_options st), st')
  /\ _getLiveOptions st' = (Ok (_options st), st').
Proof.
  intros Hd. destruct st as [o m a d ev ls ds raf tr]. cbn in Hd. subst ds.
  assert (E : snd (destroy (Build_player o m a d ev ls false raf tr))
              = Build_player o m None None ∅ [] true None tr).
  { destruct a, d as [[? ? ? ? []]|], raf; reflexivity. }
  cbv zeta. rewrite E. repeat (split; [reflexivity|]).
  split.
  { intros name payload. rewrite emit_run. destruct name; reflexivity. }
  split; [|split; reflexivity].
  intros name handler. destruct name; reflexivity.
Qed.
End Unregistering.

(** ** [load] and the metadata of the track *)

Section Loading.
Variable handler_throws : nat -> value -> option value.
Variable callback_registers : nat -> list (value * value).
Variable querySelector : string -> bool.

(** X15.  [load] replaces the metadata wholesale: on a live player the
    metadata after [load(source, meta)] is a function of [meta] alone (the
    trimmed title or "", the trimmed file name or null, the download
    override if it is a boolean), so nothing of the previous track is left;
    the download permission is that override and else the option; and the
    element is left paused at position 0 with the volume, muting and rate of
    the options, the read-outs at [0:00] and no animation frame pending. *)
Theorem load_replaces_the_metadata st source meta previousSrc :
  live st -> source <> "" -> meta <> VNull ->
  exists st' a',
    load handler_throws (VStr source) meta previousSrc st = (Ok tt, st') /\
    _meta st' = meta_of meta /\
    download_allowed st' =
      match get_prop meta "allowDownload" with
      | VBool b => b
      | _ => allowDownload (_options st)
      end /\
    _audio st' = Some a' /\
    Audio.src a' = source /\ Audio.paused a' = true /\ Audio.currentTime a' = n0 /\
    Audio.volume a' = fdiv (volume (_options st)) n100 /\
    Audio.muted a' = muted (_options st) /\
    Audio.playbackRate a' = playbackRate (_options st) /\
    (exists attached, _dom st' = Some (Dom.Build "0:00" "0:00" "0" "0" attached)) /\
    _rafId st' = None.
Proof.
  intros [[a Ha] [d Hd]] Hs Hm.
  destruct (load_state handler_throws st a d source meta previousSrc Ha Hd Hs Hm)
    as (st' & Hl & Hmeta & Hau & Hdm & Hraf & _).
  destruct (load_live handler_throws st a d source meta previousSrc Ha Hd Hs Hm)
    as (st2 & a2 & Hl2 & Ho & _).
  rewrite Hl in Hl2. injection Hl2 as <-.
  eexists st', _. split; [exact Hl|]. split; [exact Hmeta|]. split.
  - unfold download_allowed. rewrite Hmeta, Ho. cbn [meta_of Meta.allowDownload].
    destruct (get_prop meta "allowDownload"); reflexivity.
  - split; [exact Hau|]. repeat (split; [reflexivity|]).
    split; [eauto|exact Hraf].
Qed.

(** X16.  [load(source, null)] with a non-empty string does not return:
    reading a property of [null] throws a TypeError.  By then the element
    has been paused and the animation frame cancelled; the options, the
    metadata, the source of the element and the trace are as before, so no
    [srcchange] is announced. *)
Theorem load_with_null_metadata_throws st a source previousSrc :
  _audio st = Some a -> is_Some (_dom st) -> source <> "" ->
  load handler_throws (VStr source) VNull previousSrc st
  = (Throw null_read,
     with_rafId None (with_audio (Some (Audio.pause a)) st)).
Proof.
  intros Ha [d Hd] Hs. destruct st as [o m a0 d0 ev ls ds raf tr].
  cbn in Ha, Hd. subst a0 d0. apply String.eqb_neq in Hs.
  unfold load. unfold string_eqb. rewrite Hs.
  destruct previousSrc, raf; reflexivity.
Qed.
End Loading.

(** ** From a setter to the options, through the events of the element *)

Lemma volume_round_trip_ok n : 0 <= n <= 100 -> volume_round_trip n = true.
Proof.
  intros Hn. apply (upto_spec volume_round_trip 101); [vm_compute; reflexivity|lia].
Qed.

Section ElementEvents.
Variable handler_throws : nat -> value -> option value.

Lemma set_playbackRate_wf x o :
  well_formed o -> in_range (playbackRateMin o) (playbackRateMax o) x ->
  well_formed (set_playbackRate x o).
Proof. intros [] H. constructor; assumption. Qed.

(** X17.  [setPlaybackRate(rate)] does nothing when [rate] does not convert
    to a finite number.  Otherwise, on a live player with options in their
    domain, it sets the rate of the element to [rate] clamped into the stored
    bounds and leaves the options alone; the element's [ratechange] listener
    then copies that rate into the options, which stay in their domain, and
    announces it with one [ratechange] event. *)
Theorem setPlaybackRate_reaches_the_options rate st a :
  (isFinite (ToNumber rate) = false -> setPlaybackRate rate st = (Ok tt, st))
  /\ (isFinite (ToNumber rate) = true ->
      _audio st = Some a -> is_Some (_dom st) -> well_formed (_options st) ->
      let o := _options st in
      let x := clamp (playbackRateMin o) (playbackRateMax o) (ToNumber rate) in
      let st1 := with_audio (Some (Audio.set_playbackRate x a)) st in
      in_range (playbackRateMin o) (playbackRateMax o) x
      /\ setPlaybackRate rate st = (Ok tt, st1)
      /\ audio_ratechange handler_throws st1
         = (Ok tt,
            with_trace
              (trace st ++ Emit (VStr "ratechange") (VObj [("rate", VNum x)])
                 :: flat_map (invocation handler_throws (VObj [("rate", VNum x)]))
                             (registered st (VStr "ratechange")))%list
              (with_options (set_playbackRate x o) st1))
      /\ well_formed (set_playbackRate x o)).
Proof.
  split.
  - intros Hf. unfold setPlaybackRate, bind, options_.
    now rewrite clampNumber_not_finite.
  - intros Hf Ha [d Hd] Hwf o x st1.
    assert (Hx : in_range (playbackRateMin o) (playbackRateMax o) x).
    { apply clamp_in_range; [apply (wf_bounds _ Hwf)|now apply isFinite_not_nan]. }
    assert (Ht : ToBoolean (VNum x) = true).
    { apply clamp_truthy; [apply (wf_min _ Hwf)|apply (wf_bounds _ Hwf)|].
      now apply isFinite_not_nan. }
    split; [exact Hx|]. split; [|split; [|now apply set_playbackRate_wf]].
    + unfold setPlaybackRate, bind, options_.
      rewrite clampNumber_finite by exact Hf. fold o. fold x.
      unfold set_audio. now rewrite Ha.
    + subst st1. destruct st as [o0 m a0 d0 ev ls ds raf tr].
      cbn in Ha, Hd, o. subst a0 d0. subst o.
      unfold audio_ratechange. run_m. simp_rec.
      change (match x with S754_zero _ | S754_nan => false | _ => true end)
        with (ToBoolean (VNum x)).
      rewrite Ht. rewrite emit_run. reflexivity.
Qed.

Lemma emissions_snoc tr n p l :
  emissions (tr ++ Emit n p :: flat_map (invocation handler_throws p) l)
  = (emissions tr ++ [(n, p)])%list.
Proof.
  rewrite emissions_app. f_equal.
  change (emissions (Emit n p :: ?r)) with ((n, p) :: emissions r).
  now rewrite emissions_invocations.
Qed.

(** X18.  For every whole volume [n] from 0 to 100, [setVolume(n)] on a
    live player leaves the options alone, and the element's [volumechange]
    listener then stores exactly [n] in the options (the division by 100
    and the rounding of the product with 100 give [n] back; in between,
    [_getLiveOptions] already shows [n]) together with
    the muting of the element, announcing [volumechange] only if the volume
    differs from the stored one and [mutechange] only if the muting does. *)
Theorem setVolume_reaches_the_options n st a :
  0 <= n <= 100 -> _audio st = Some a -> is_Some (_dom st) ->
  let o := _options st in
  let m' := if (0 <? n) && Audio.muted a then false else Audio.muted a in
  exists st1 st2,
    setVolume (VNum (of_Z n)) st = (Ok tt, st1) /\ _options st1 = o /\
    fst (_getLiveOptions st1)
    = Ok (set_playbackRate (Audio.playbackRate a)
            (set_muted m' (set_volume (of_Z n) o))) /\
    audio_volumechange handler_throws st1 = (Ok tt, st2) /\
    feq (of_Z n) (volume (_options st2)) = true /\
    muted (_options st2) = m' /\
    emissions (trace st2) =
      (emissions (trace st)
       ++ (if feq (of_Z n) (volume o) then []
           else [(VStr "volumechange", VObj [("volume", VNum (of_Z n))])])
       ++ (if Bool.eqb m' (muted o) then []
           else [(VStr "mutechange", VObj [("muted", VBool m')])]))%list.
Proof.
  intros Hn Ha [d Hd] o m'.
  pose proof (volume_round_trip_ok n Hn) as Ht. unfold volume_round_trip in Ht.
  apply andb_prop in Ht as [Ht T4]. apply andb_prop in Ht as [Ht T3].
  apply andb_prop in Ht as [T1 T2].
  apply bool_decide_eq_true_1 in T1, T2. apply Bool.eqb_prop in T4.
  assert (Hrefl : feq (of_Z n) (of_Z n) = true).
  { unfold feq, SFeqb. now rewrite SFcompare_refl by now apply isFinite_not_nan. }
  destruct st as [o0 m a0 d0 ev ls ds raf tr]. cbn in Ha, Hd, o. subst a0 d0 o.
  destruct a as [s t du v mu r p]. cbn [Audio.muted] in m'.
  set (st1 := Build_player o0 m
                (Some (Audio.Build s t du (fdiv (of_Z n) n100) m' r p))
                (Some d) ev ls ds raf tr).
  assert (E1 : setVolume (VNum (of_Z n))
                 (Build_player o0 m (Some (Audio.Build s t du v mu r p)) (Some d)
                               ev ls ds raf tr) = (Ok tt, st1)).
  { unfold setVolume. rewrite clampNumber_finite by exact T3.
    cbn [ToNumber]. fold (clamp n0 n100 (of_Z n)). rewrite T1.
    run_m. simp_rec. rewrite T4. subst st1 m'.
    destruct (0 <? n), mu; reflexivity. }
  exists st1. subst st1.
  unfold audio_volumechange. run_m. simp_rec. rewrite T2.
  destruct (feq (of_Z n) (volume o0)) eqn:Ev; cbv [negb]; cbv beta iota;
    rewrite ?emit_run; simp_rec.
  all: destruct (Bool.eqb m' (muted o0)) eqn:Em; cbv [negb]; cbv beta iota;
    rewrite ?emit_run; simp_rec.
  all: eexists; (split; [exact E1|]); (split; [reflexivity|]);
    (split; [unfold _getLiveOptions; run_m; simp_rec; now rewrite T2|]);
    (split; [reflexivity|]); simp_rec.
  all: (split; [first [exact Ev|exact Hrefl]|]);
    (split; [first [symmetry; now apply Bool.eqb_prop|reflexivity]|]).
  all: rewrite ?emissions_snoc, ?emissions_app, ?app_nil_r, <- ?app_assoc;
    try reflexivity.
Qed.
End ElementEvents.

(** ** Other listeners of the element and of the control surface *)

Section ElementListeners.
Variable handler_throws : nat -> value -> option value.
Variable callback_registers : nat -> list (value * value).
Variable querySelector : string -> bool.


(** X20.  [timeupdate] is throttled: an event of the element that comes
    less than 200 ms after the last announced one changes nothing and
    announces nothing, and so does any burst of such events; an event that
    comes 200 ms or more after it shows the position and announces
    [timeupdate] once with the position and the duration of the element,
    and restarts the 200 ms. *)
Theorem timeupdate_is_throttled now c :
  (now - _lastTimeEmit c < 200 -> _handleTimeUpdate handler_throws now c = (Ok tt, c))
  /\ (forall nows,
        Forall (fun t => t - _lastTimeEmit c < 200) nows ->
        after_timeupdates handler_throws nows c = c)
  /\ (200 <= now - _lastTimeEmit c ->
      forall a d, _audio (player_of c) = Some a -> _dom (player_of c) = Some d ->
        let st := player_of c in
        let payload := VObj [("currentTime", VNum (Audio.currentTime a));
                             ("duration", VNum (Audio.duration a))] in
        _handleTimeUpdate handler_throws now c
        = (Ok tt,
           Build_clocked
             (with_trace (trace st ++ Emit (VStr "timeupdate") payload
                            :: flat_map (invocation handler_throws payload)
                                        (registered st (VStr "timeupdate")))%list
                (with_dom
                   (Some (Dom.Build (formatTime (VNum (Audio.currentTime a)))
                            (Dom.duration d) (Dom.progressValue d) (Dom.progressMax d)
                            (Dom.attached d))) st))
             now)).
Proof.
  assert (H1 : forall t, t - _lastTimeEmit c < 200 ->
                 _handleTimeUpdate handler_throws t c = (Ok tt, c)).
  { intros t Ht. unfold _handleTimeUpdate.
    destruct (Z.ltb_spec (t - _lastTimeEmit c) 200); [reflexivity|lia]. }
  split; [apply H1|]. split.
  - intros nows Hall. unfold after_timeupdates.
    induction Hall as [|t nows Ht _ IH]; [reflexivity|].
    cbn [fold_left]. rewrite (H1 t Ht). exact IH.
  - intros Hge a d Ha Hd st payload. unfold _handleTimeUpdate.
    destruct (Z.ltb_spec (now - _lastTimeEmit c) 200); [lia|].
    destruct c as [[o0 m a0 d0 ev ls ds raf tr] last]. cbn in Ha, Hd, st. subst a0 d0.
    subst st payload. cbn [player_of]. run_m. simp_rec. rewrite emit_run. reflexivity.
Qed.

(** X21.  [_handleDownload] does nothing when the element has no source.
    Otherwise it announces [download] once, with the source of the element
    and with the file name of the track's metadata, else the
    [downloadFilename] option, else the empty string; the download
    permission is not consulted. *)
Theorem download_announces_the_source st a :
  _audio st = Some a ->
  (Audio.src a = "" -> _handleDownload handler_throws st = (Ok tt, st))
  /\ (Audio.src a <> "" ->
      (forall f, Meta.filename (_meta st) = Some f -> f <> "") ->
      (forall f, downloadFilename (_options st) = Some f -> f <> "") ->
      let payload := VObj [("src", VStr (Audio.src a));
                           ("filename", VStr (download_name st))] in
      _handleDownload handler_throws st
      = (Ok tt,
         with_trace (trace st ++ Emit (VStr "download") payload
                       :: flat_map (invocation handler_throws payload)
                                   (registered st (VStr "download")))%list st)).
Proof.
  intros Ha. destruct st as [o0 m a0 d0 ev ls ds raf tr]. cbn in Ha. subst a0.
  split.
  - intros Hs. unfold _handleDownload. run_m. simp_rec. rewrite Hs. reflexivity.
  - intros Hs Hm Ho payload. cbn in Hm, Ho.
    apply String.eqb_neq in Hs.
    unfold _handleDownload. run_m. simp_rec. unfold string_eqb at 1. rewrite Hs.
    rewrite emit_run. subst payload. unfold download_name. simp_rec.
    destruct (Meta.filename m) as [f|] eqn:Ef.
    + specialize (Hm f eq_refl). apply String.eqb_neq in Hm.
      unfold string_eqb. rewrite Hm. reflexivity.
    + destruct (downloadFilename o0) as [g|] eqn:Eg; [|reflexivity].
      specialize (Ho g eq_refl). apply String.eqb_neq in Ho.
      unfold string_eqb. rewrite Ho. reflexivity.
Qed.
End ElementListeners.

(** ** [new AudioPlayer] *)

Section Construction.
Variable handler_throws : nat -> value -> option value.
Variable callback_registers : nat -> list (value * value).
Variable querySelector : string -> bool.







End Construction.

(** ** [seek] and [seekBy] *)

Section Seeking.
Variable handler_throws : nat -> value -> option value.

(** X23.  [seek] does nothing while the duration is unknown.  With a
    finite duration and a target that converts to a number, the target is
    brought into [[0, duration]]; if the position already equals it nothing
    happens, and otherwise the position of the element becomes the clamped
    target, the position read-outs show it, and one [seek] event carries the
    old and the new position.  [seekBy] does nothing for a delta that is not
    finite and is [seek] of the position plus the delta otherwise. *)
Theorem seek_moves_the_position st a d seconds :
  _audio st = Some a -> _dom st = Some d ->
  (isFinite (Audio.duration a) = false ->
   seek handler_throws seconds st = (Ok tt, st))
  /\ (isFinite (Audio.duration a) = true ->
      fle n0 (Audio.duration a) = true -> isNaN (ToNumber seconds) = false ->
      let to := Math_max n0 (Math_min (Audio.duration a) (ToNumber seconds)) in
      let payload := VObj [("from", VNum (Audio.currentTime a)); ("to", VNum to)] in
      in_range n0 (Audio.duration a) to
      /\ (feq (Audio.currentTime a) to = true ->
          seek handler_throws seconds st = (Ok tt, st))
      /\ (feq (Audio.currentTime a) to = false ->
          seek handler_throws seconds st
          = (Ok tt,
             with_trace (trace st ++ Emit (VStr "seek") payload
                           :: flat_map (invocation handler_throws payload)
                                       (registered st (VStr "seek")))%list
               (with_dom
                  (Some (Dom.Build (formatTime (VNum to)) (Dom.duration d)
                           (Number_toString to) (Dom.progressMax d) (Dom.attached d)))
                  (with_audio (Some (Audio.set_currentTime to a)) st)))))
  /\ (forall delta,
        (isFinite (ToNumber delta) = false ->
         seekBy handler_throws delta st = (Ok tt, st))
        /\ (isFinite (ToNumber delta) = true ->
            seekBy handler_throws delta st
            = seek handler_throws
                (VNum (fadd (Audio.currentTime a) (ToNumber delta))) st)).
Proof.
  intros Ha Hd. split; [|split].
  - intros Hf. destruct st as [o m a0 d0 ev ls ds raf tr].
    cbn in Ha, Hd. subst a0 d0. run_m. simp_rec. now rewrite Hf.
  - intros Hf H0 Hn to payload.
    destruct (seek_clamps handler_throws st a d seconds Ha Hd Hf H0 Hn)
      as (Hr & Heq & _).
    split; [exact Hr|]. split; [exact Heq|].
    intros He. destruct st as [o m a0 d0 ev ls ds raf tr].
    cbn in Ha, Hd. subst a0 d0. run_m. simp_rec. rewrite Hf. fold to. rewrite He.
    cbv [negb]. cbv beta iota. simp_rec. rewrite emit_run. reflexivity.
  - intros delta. split.
    + intros Hf. unfold seekBy. now rewrite Hf.
    + intros Hf. unfold seekBy. rewrite Hf. cbn [negb].
      unfold bind, audio. now rewrite Ha.
Qed.
End Seeking.

(** ** Instances for the properties above *)

Lemma tuned_constructed :
  constructor quiet no_callbacks found (VStr "#player") tuned_options = (Ok tt, tuned).
Proof. vm_compute. reflexivity. Defined.

Lemma tuned_reachable : reachable quiet no_callbacks found tuned.
Proof. exact (reachable_new _ _ _ _ _ _ tuned_constructed). Defined.

Lemma tuned_live : live tuned.
Proof. split; eexists; vm_compute; reflexivity. Defined.

Lemma fast_live : live fast.
Proof. split; eexists; vm_compute; reflexivity. Defined.

Lemma fast_well_formed : well_formed (_options fast).
Proof.
  constructor; vm_compute; try (split; reflexivity); try reflexivity.
  split; [discriminate|reflexivity].
Defined.

Lemma setOptions_of_getOptions_witness :
  exists st',
    setOptions quiet (options_object (_options tuned)) tuned = (Ok (_options tuned), st')
    /\ trace st' = trace tuned /\ _meta st' = meta_of (VObj []).
Proof.
  destruct (setOptions_of_getOptions quiet no_callbacks found tuned
              tuned_reachable tuned_live) as (_ & st' & H1 & _ & _ & H4 & H5).
  exists st'. split; [exact H1|]. split; [exact H4|].
  apply H5. vm_compute. discriminate.
Defined.

Lemma setOptions_clamps_rate_to_old_bounds_witness :
  exists o' st' a',
    setOptions quiet
      (VObj [("playbackRate", VNum n3); ("playbackRateMax", VNum n4)]) demo
    = (Ok o', st') /\
    playbackRate (sanitized [("playbackRate", VNum n3); ("playbackRateMax", VNum n4)]
                    (_options demo)) = n2 /\
    _audio st' = Some a' /\ Audio.playbackRate a' = playbackRate o'.
Proof.
  destruct (setOptions_clamps_rate_to_old_bounds quiet demo
              [("playbackRate", VNum n3); ("playbackRateMax", VNum n4)] (VNum n3)
              demo_live demo_well_formed eq_refl eq_refl)
    as (o' & st' & a' & H1 & _ & H3 & _ & H5 & H6).
  exists o', st', a'. split; [exact H1|]. split; [|split; assumption].
  rewrite H3. vm_compute. reflexivity.
Defined.

Lemma resetOptions_restores_defaults_witness :
  exists st',
    resetOptions quiet VUndefined fast = (Ok (_options st'), st') /\
    _options st' = set_playbackRate n2 DEFAULT_OPTIONS.
Proof.
  destruct (resetOptions_restores_defaults quiet fast fast_live fast_well_formed)
    as (st' & H1 & H2 & _).
  exists st'. split; [exact H1|]. rewrite H2. vm_compute. reflexivity.
Defined.

Lemma undocumented_keys_are_kept_witness :
  obj_get (extra (_options tuned)) "lang" = Some (VStr "fr")
  /\ get_prop (options_object (_options tuned)) "lang" = VStr "fr".
Proof.
  apply (proj1 (undocumented_keys_are_kept quiet no_callbacks found)
           (VStr "#player") _ tuned "lang" (VStr "fr") tuned_constructed);
    reflexivity.
Defined.

Lemma every_state_is_consistent_witness :
  well_formed (_options (exec quiet (CsetVolume (VNum n150)) tuned)).
Proof.
  apply (every_state_is_consistent quiet no_callbacks found).
  apply reachable_call. exact tuned_reachable.
Defined.

Lemma off_unregisters_witness :
  let st := snd (on (VStr "play") (VFun 7) demo) in
  let st' := snd (off (VStr "play") (VFun 7) st) in
  (7%nat ∉ registered st' (VStr "play"))
  /\ calls_to 7%nat (trace (snd (emit quiet (VStr "play") VUndefined st')))
     = calls_to 7%nat (trace st).
Proof.
  intros st st'.
  destruct (off_unregisters quiet (VStr "play") (VFun 7) st)
    as (_ & _ & _ & _ & _ & H).
  destruct (H 7%nat eq_refl) as (_ & H2 & H3). split; [exact H2|apply H3].
Defined.

Lemma playback_calls_keep_the_configuration_witness :
  same_config tuned (exec quiet (CsetVolume (VNum n150)) tuned).
Proof. apply (playback_calls_keep_the_configuration quiet). reflexivity. Defined.

Lemma toggleMute_is_an_involution_witness :
  toggleMute (snd (toggleMute demo)) = (Ok tt, demo).
Proof. exact (proj1 (toggleMute_is_an_involution demo (proj1 demo_live))). Defined.

Lemma destroy_silences_the_player_witness :
  emit quiet (VStr "play") VUndefined (snd (destroy tuned))
  = (Ok tt, with_trace (trace (snd (destroy tuned)) ++ [Emit (VStr "play") VUndefined])%list
              (snd (destroy tuned))).
Proof.
  destruct (destroy_silences_the_player quiet tuned ltac:(vm_compute; reflexivity))
    as (_ & _ & _ & _ & _ & _ & _ & _ & _ & H & _).
  apply H.
Defined.

Lemma load_replaces_the_metadata_witness :
  exists st' a',
    load quiet (VStr "b.mp3")
      (VObj [("title", VStr " Song "); ("allowDownload", VBool false)]) VUndefined tuned
    = (Ok tt, st') /\
    Meta.title (_meta st') = "Song" /\ Meta.filename (_meta st') = None /\
    download_allowed st' = false /\
    _audio st' = Some a' /\ Audio.paused a' = true.
Proof.
  destruct (load_replaces_the_metadata quiet tuned "b.mp3"
              (VObj [("title", VStr " Song "); ("allowDownload", VBool false)])
              VUndefined tuned_live ltac:(discriminate) ltac:(discriminate))
    as (st' & a' & H1 & H2 & H3 & H4 & _ & H6 & _).
  exists st', a'. split; [exact H1|]. rewrite H2.
  split; [vm_compute; reflexivity|]. split; [reflexivity|].
  split; [exact H3|]. split; assumption.
Defined.

Lemma load_with_null_metadata_throws_witness :
  load quiet (VStr "b.mp3") VNull VUndefined demo
  = (Throw null_read, with_rafId None (with_audio (Some (Audio.pause Audio.create)) demo)).
Proof.
  apply (load_with_null_metadata_throws quiet demo Audio.create "b.mp3" VUndefined);
    [vm_compute; reflexivity|apply demo_live|discriminate].
Defined.

Lemma setPlaybackRate_reaches_the_options_witness :
  setPlaybackRate (VNum n3) demo
  = (Ok tt, with_audio (Some (Audio.set_playbackRate n2 Audio.create)) demo)
  /\ setPlaybackRate (VStr "fast") demo = (Ok tt, demo).
Proof.
  split.
  - destruct (proj2 (setPlaybackRate_reaches_the_options quiet (VNum n3) demo Audio.create)
                eq_refl ltac:(vm_compute; reflexivity) (proj2 demo_live)
                demo_well_formed) as (_ & H & _).
    exact H.
  - apply (proj1 (setPlaybackRate_reaches_the_options quiet (VStr "fast") demo
                    Audio.create)).
    vm_compute. reflexivity.
Defined.

Lemma setVolume_reaches_the_options_witness :
  exists st1 st2,
    setVolume (VNum (of_Z 30)) demo = (Ok tt, st1) /\
    audio_volumechange quiet st1 = (Ok tt, st2) /\
    feq (of_Z 30) (volume (_options st2)) = true /\
    emissions (trace st2)
    = [(VStr "volumechange", VObj [("volume", VNum (of_Z 30))])].
Proof.
  destruct (setVolume_reaches_the_options quiet 30 demo Audio.create
              ltac:(lia) ltac:(vm_compute; reflexivity) (proj2 demo_live))
    as (st1 & st2 & H1 & _ & _ & H3 & H4 & _ & H6).
  exists st1, st2. split; [exact H1|]. split; [exact H3|]. split; [exact H4|].
  rewrite H6. vm_compute. reflexivity.
Defined.


Lemma timeupdate_is_throttled_witness :
  _handleTimeUpdate quiet 1150 (Build_clocked demo 1000) = (Ok tt, Build_clocked demo 1000)
  /\ after_timeupdates quiet [1010; 1100; 1199] (Build_clocked demo 1000)
     = Build_clocked demo 1000
  /\ _lastTimeEmit (snd (_handleTimeUpdate quiet 1200 (Build_clocked demo 1000))) = 1200.
Proof.
  split; [|split].
  - apply (proj1 (timeupdate_is_throttled quiet 1150 (Build_clocked demo 1000))).
    vm_compute. reflexivity.
  - apply (proj1 (proj2 (timeupdate_is_throttled quiet 0 (Build_clocked demo 1000)))).
    repeat constructor.
  - rewrite (proj2 (proj2 (timeupdate_is_throttled quiet 1200 (Build_clocked demo 1000)))
               ltac:(vm_compute; discriminate) Audio.create Dom.create
               ltac:(vm_compute; reflexivity) ltac:(vm_compute; reflexivity)).
    reflexivity.
Defined.

Lemma download_announces_the_source_witness :
  emissions (trace (snd (_handleDownload quiet tuned)))
  = (emissions (trace tuned)
     ++ [(VStr "download", VObj [("src", VStr "a.mp3"); ("filename", VStr "")])])%list
  /\ _handleDownload quiet demo = (Ok tt, demo).
Proof.
  split.
  - rewrite (proj2 (download_announces_the_source quiet tuned
                      (Audio.Build "a.mp3" n0 NaN n1 false n1 true)
                      ltac:(vm_compute; reflexivity))
               ltac:(discriminate)
               ltac:(vm_compute; discriminate) ltac:(vm_compute; discriminate)).
    vm_compute. reflexivity.
  - apply (proj1 (download_announces_the_source quiet demo Audio.create
                    ltac:(vm_compute; reflexivity))).
    reflexivity.
Defined.


Lemma seek_moves_the_position_witness :
  fst (seek quiet (VNum n150) (with_duration n100 demo)) = Ok tt
  /\ emissions (trace (snd (seek quiet (VNum n150) (with_duration n100 demo))))
     = [(VStr "seek", VObj [("from", VNum n0); ("to", VNum n100)])].
Proof.
  destruct (proj1 (proj2 (seek_moves_the_position quiet (with_duration n100 demo)
                            (Audio.set_duration n100 Audio.create) Dom.create
                            (VNum n150)
                            ltac:(vm_compute; reflexivity) ltac:(vm_compute; reflexivity)))
              ltac:(vm_compute; reflexivity) ltac:(vm_compute; reflexivity)
              ltac:(vm_compute; reflexivity))
    as (_ & _ & H).
  rewrite (H ltac:(vm_compute; reflexivity)). split; [reflexivity|].
  vm_compute. reflexivity.
Defined.

End AudioPlayerSpec.
